(** * DeviceLife: the archiver retrieval and alignment engine

    A shallow embedding of [src/data_retriever.py] (class [DataRetriever]).

    Conventions of the embedding.
    - Python floats are idealised as exact rationals [Q]; the "no value"
      marker (NaN) of an aligned row is [None] in an [option Q].  Where
      rounding decides a statement, the count and the end of the resample
      grid, the arithmetic is rounded by a function [fl] with the properties
      [Rounding], of which [round_double] rounds to the nearest double.
    - A [datetime] is the number of seconds since the epoch, as a [Q];
      [datetime.timestamp] and [datetime.fromtimestamp] are the identity and
      [timedelta] arithmetic is exact.
    - Strings are ASCII; [str.upper] acts on the letters a..z.
    - A Python exception is a value of [Exc]; a method is a function from the
      object's state to the final state and either a result or the exception
      raised ([M]).  The state an exception leaves behind is part of the model.
    - Console output ([print]) is not modelled. *)

From Stdlib Require Import Ascii String QArith Qround Qabs Qpower Lqa.
From stdpp Require Import gmap strings list fin_maps sorting pretty.

(** ** Exceptions and results *)

Inductive Exc : Type :=
  | ValueError | KeyError | IndexError | TypeError
  | AttributeError | UnboundLocalError.

Inductive Res (A : Type) : Type :=
  | Ok (a : A)
  | Raise (e : Exc).
Arguments Ok {A} a.
Arguments Raise {A} e.

#[global] Instance Res_ret : MRet Res := fun A a => Ok a.

#[global] Instance Res_bind : MBind Res := fun A B k r =>
  match r with
  | Ok a => k a
  | Raise e => Raise e
  end.

(** ** Rational helpers *)

Definition Qlt_bool (x y : Q) : bool := negb (Qle_bool y x).

(** ** The numpy primitives used by the retriever *)

Module np.

(** [np.searchsorted(a, key, side='left')]: numpy's bisection. *)
Fixpoint bisect_left (fuel : nat) (a : list Q) (key : Q) (lo hi : nat) : nat :=
  match fuel with
  | O => lo
  | S fuel' =>
      if (lo <? hi)%nat then
        let mid := (lo + (hi - lo) / 2)%nat in
        if Qlt_bool (default 0%Q (a !! mid)) key
        then bisect_left fuel' a key (S mid) hi
        else bisect_left fuel' a key lo mid
      else lo
  end.

(** [np.searchsorted(a, key, side='right')]. *)
Fixpoint bisect_right (fuel : nat) (a : list Q) (key : Q) (lo hi : nat) : nat :=
  match fuel with
  | O => lo
  | S fuel' =>
      if (lo <? hi)%nat then
        let mid := (lo + (hi - lo) / 2)%nat in
        if Qle_bool (default 0%Q (a !! mid)) key
        then bisect_right fuel' a key (S mid) hi
        else bisect_right fuel' a key lo mid
      else lo
  end.

Definition searchsorted_left (a : list Q) (key : Q) : nat :=
  bisect_left (S (length a)) a key 0 (length a).

Definition searchsorted_right (a : list Q) (key : Q) : nat :=
  bisect_right (S (length a)) a key 0 (length a).

(** [np.insert(arr, i, x)] for [0 <= i <= len(arr)]. *)
Definition insert {A} (arr : list A) (i : nat) (x : A) : list A :=
  take i arr ++ x :: drop i arr.

(** [secs[np.argsort(secs)]], [vals[np.argsort(secs)]]: the rows
    (timestamp, value) reordered by timestamp.  Rows with equal timestamps
    keep their order here; numpy's default sort does not promise it. *)
Fixpoint insert_sorted (r : Q * Q) (rows : list (Q * Q)) : list (Q * Q) :=
  match rows with
  | [] => [r]
  | r' :: rows' =>
      if Qlt_bool r.1 r'.1 then r :: r' :: rows'
      else r' :: insert_sorted r rows'
  end.

Definition sort_by_secs (rows : list (Q * Q)) : list (Q * Q) :=
  foldl (fun acc r => insert_sorted r acc) [] rows.

(** [np.diff]. *)
Fixpoint diff (l : list Q) : list Q :=
  match l with
  | x :: ((y :: _) as l') => (y - x)%Q :: diff l'
  | _ => []
  end.

Fixpoint diffZ (l : list nat) : list Z :=
  match l with
  | x :: ((y :: _) as l') => (Z.of_nat y - Z.of_nat x)%Z :: diffZ l'
  | _ => []
  end.

(** [np.cumsum]. *)
Fixpoint cumsum_from (acc : Q) (l : list Q) : list Q :=
  match l with
  | [] => []
  | x :: l' => (acc + x)%Q :: cumsum_from (acc + x)%Q l'
  end.

Definition cumsum (l : list Q) : list Q :=
  match l with
  | [] => []
  | x :: l' => x :: cumsum_from x l'
  end.

(** [np.where(mask)[0]]: the positions holding [True], ascending. *)
Fixpoint where_from (i : nat) (mask : list bool) : list nat :=
  match mask with
  | [] => []
  | b :: mask' =>
      if b then i :: where_from (S i) mask' else where_from (S i) mask'
  end.

Definition where_ (mask : list bool) : list nat := where_from 0 mask.

(** [arr[idx]] for an index array [idx] (every index is in range where the
    retriever uses it). *)
Definition gather (arr : list Q) (idx : list nat) : list Q :=
  map (fun i => default 0%Q (arr !! i)) idx.

(** [arr[idx] = x] for an index array [idx]. *)
Definition scatter (arr : list Q) (idx : list nat) (x : Q) : list Q :=
  foldl (fun a i => <[i := x]> a) arr idx.

(** [np.arange(start, stop, step)] without rounding:
    [ceil((stop - start) / step)] points [start + i * step]; a zero step is
    refused. *)
Definition arange (start stop step : Q) : Res (list Q) :=
  if Qeq_bool step 0 then Raise ValueError
  else
    Ok (map (fun i => (start + inject_Z (Z.of_nat i) * step)%Q)
            (seq 0 (Z.to_nat (Qceiling ((stop - start) / step))))).

(** [np.arange(start, stop, step)] as numpy computes it on doubles, with
    [fl] the rounding of every operation: the length is the ceiling of the
    rounded quotient [(stop - start) / step]; the first two entries are
    [start] and [start + step]; the others are filled as
    [start + i * delta], [delta] being the difference of the first two.
    With [fl] the identity this is [arange], up to equality of rationals. *)
Definition arange_fl (fl : Q → Q) (start stop step : Q) : Res (list Q) :=
  if Qeq_bool step 0 then Raise ValueError
  else
    let len := Z.to_nat (Qceiling (fl (fl (stop - start) / step)%Q)) in
    let next := fl (start + step)%Q in
    let delta := fl (next - start)%Q in
    Ok (map (fun i => match i with
                      | O => start
                      | S O => next
                      | _ => fl (start + fl (inject_Z (Z.of_nat i) * delta))%Q
                      end)
            (seq 0 len)).

(** One step of [np.interp]: the value on the segment [x0, x1]. *)
Definition lerp (x0 : Q) (f0 : option Q) (x1 : Q) (f1 : option Q) (x : Q)
  : option Q :=
  match f0, f1 with
  | Some a, Some b => Some (((b - a) / (x1 - x0)) * (x - x0) + a)%Q
  | _, _ => None
  end.

(** The segment search of [np.interp] for [xp[0] <= x <= xp[-1]]: the
    first [j] with [x < xp[j+1]] (on an ascending [xp], the [j] numpy's
    bisection finds).  The last sample and an exact hit return the sample
    itself. *)
Fixpoint interp_seg (xp : list Q) (fp : list (option Q)) (x : Q) : option Q :=
  match xp, fp with
  | x0 :: ((x1 :: _) as xp'), f0 :: ((f1 :: _) as fp') =>
      if Qle_bool x1 x then interp_seg xp' fp' x
      else if Qeq_bool x0 x then f0
      else lerp x0 f0 x1 f1 x
  | [x0], f0 :: _ => f0
  | _, _ => None
  end.

(** [np.interp(x, xp, fp, left=nan, right=nan)] at one point. *)
Definition interp1 (xp : list Q) (fp : list (option Q)) (x : Q) : option Q :=
  if Qlt_bool (default 0%Q (last xp)) x then None
  else if Qlt_bool x (default 0%Q (head xp)) then None
  else interp_seg xp fp x.

(** [np.interp(xs, xp, fp, left=nan, right=nan)]. *)
Definition interp (xs xp : list Q) (fp : list (option Q))
  : Res (list (option Q)) :=
  if (length xp =? 0)%nat then Raise ValueError
  else if negb (length xp =? length fp)%nat then Raise ValueError
  else Ok (map (interp1 xp fp) xs).

End np.

(** ** Data model *)

(** The rows of one signal: (timestamp, value), in array order. *)
Definition Samples : Type := list (Q * Q).

(** [pd.DataFrame(data)] of one fetch: [None] is the frame of the empty
    dictionary a failed fetch returns (it has no ['secs'] or ['vals']
    column); [Some rows] has both columns. *)
Definition DataFrame : Type := option Samples.

(** What a request to the archiver comes to: the records
    [(secs + nanos / 1e9, val)] of the decoded answer, or the text of the
    exception the request or the decoding raised. *)
Inductive Answer : Type :=
  | Records (recs : Samples)
  | Failed (e : string).

(** The argument and stored form of ['val_range']: a flat sequence of numbers
    or a sequence of [low, high] lists. *)
Inductive ValRange : Type :=
  | Flat (xs : list Q)
  | Nested (rs : list (list Q)).

Record AlignSetup : Type := mkAlignSetup {
  base_id : option Z;
  base_pv : option string;
  val_range : ValRange;
  disTimeAddBack_sec : Q;
  dtResample_sec : Q;
  Trim : bool
}.

(** [self.__rawData]: the list being filled by [getHistory] (initially
    empty), then the dictionary from signal name to frame. *)
Inductive RawData : Type :=
  | RawList (l : list DataFrame)
  | RawDict (m : gmap string DataFrame).

(** [self.__synData]: the initial empty list, the working dictionary
    [{'startTime', 'relTime', 'vals', 'duration_hour': None}] of
    [alignHistory], or the final frame (index, columns, [attrs['duration_hour']]). *)
Inductive SynData : Type :=
  | SynInit
  | SynDict (start : option Q) (relTime : list Q) (vals : list (list (option Q)))
  | SynFrame (index : list Q) (cols : gmap string (list (option Q)))
             (duration : Q).

Record State : Type := mkState {
  pvNames : list string;
  alignSetup : AlignSetup;
  webServer : string;
  endTime : Q;
  duration_hour : option Q;
  startTime : option Q;
  rawData : RawData;
  synData : SynData
}.

Definition set_pvNames (v : list string) (st : State) : State :=
  mkState v (alignSetup st) (webServer st) (endTime st) (duration_hour st)
          (startTime st) (rawData st) (synData st).
Definition set_alignSetup (v : AlignSetup) (st : State) : State :=
  mkState (pvNames st) v (webServer st) (endTime st) (duration_hour st)
          (startTime st) (rawData st) (synData st).
Definition set_endTime (v : Q) (st : State) : State :=
  mkState (pvNames st) (alignSetup st) (webServer st) v (duration_hour st)
          (startTime st) (rawData st) (synData st).
Definition set_duration_hour (v : option Q) (st : State) : State :=
  mkState (pvNames st) (alignSetup st) (webServer st) (endTime st) v
          (startTime st) (rawData st) (synData st).
Definition set_startTime (v : option Q) (st : State) : State :=
  mkState (pvNames st) (alignSetup st) (webServer st) (endTime st)
          (duration_hour st) v (rawData st) (synData st).
Definition set_rawData (v : RawData) (st : State) : State :=
  mkState (pvNames st) (alignSetup st) (webServer st) (endTime st)
          (duration_hour st) (startTime st) v (synData st).
Definition set_synData (v : SynData) (st : State) : State :=
  mkState (pvNames st) (alignSetup st) (webServer st) (endTime st)
          (duration_hour st) (startTime st) (rawData st) v.

(** ** Methods: state passing with exceptions *)

Definition M (A : Type) : Type := State → State * Res A.

#[global] Instance M_ret : MRet M := fun A a st => (st, Ok a).

#[global] Instance M_bind : MBind M := fun A B k m st =>
  match m st with
  | (st', Ok a) => k a st'
  | (st', Raise e) => (st', Raise e)
  end.

Definition lift {A} (r : Res A) : M A := fun st => (st, r).
Definition get : M State := fun st => (st, Ok st).
Definition modify (f : State → State) : M unit := fun st => (f st, Ok ()).

(** [seq[i]] and [seq[-1]] on a Python sequence. *)
Definition py_index {A} (l : list A) (i : nat) : Res A :=
  match l !! i with
  | Some x => Ok x
  | None => Raise IndexError
  end.

Definition py_last {A} (l : list A) : Res A :=
  match last l with
  | Some x => Ok x
  | None => Raise IndexError
  end.

(** ** The class [DataRetriever] *)

Section DataRetriever.

(** [datetime.strptime(s, '%m/%d/%Y %H:%M:%S')]: the instant a date string
    denotes, [None] when the string does not match the format. *)
Variable strptime : string → option Q.

(** The archiver: what the service at an endpoint answers for a signal and
    a window. *)
Variable service : string → string → Q → Q → Answer.

Definition timeDiff_sec : Q := 7 * 3600.

(** The body of the [try] block of [get_history] once the answer is decoded:
    boundary samples, sort, filter to the window. *)
Definition extend_window (start_ts end_ts : Q) (recs : Samples) : Res Samples :=
  let secs := map (fun r => (r.1 + timeDiff_sec)%Q) recs in
  let vals := map snd recs in
  let start_index := np.searchsorted_left secs start_ts in
  start_val ← (if (start_index =? 0)%nat then py_index vals 0
               else py_index vals (start_index - 1));
  let end_index := np.searchsorted_right secs end_ts in
  end_val ← (if (end_index =? length secs)%nat then py_last vals
             else py_index vals end_index);
  let secs1 := np.insert secs start_index start_ts in
  let vals1 := np.insert vals start_index start_val in
  let secs2 := np.insert secs1 (end_index + 1) end_ts in
  let vals2 := np.insert vals1 (end_index + 1) end_val in
  let sorted := np.sort_by_secs (zip secs2 vals2) in
  mret (List.filter
          (fun r => Qle_bool start_ts r.1 && Qle_bool r.1 end_ts) sorted).

(** [f"Warning: The PV {pv_name} is not valid! Error: {e}"]. *)
Definition warning (pv_name e : string) : string :=
  "Warning: The PV " +:+ pv_name +:+ " is not valid! Error: " +:+ e.

(** The text of the [IndexError] numpy raises for [vals[0]] on the empty
    array of an answer without records. *)
Definition empty_answer_text : string :=
  "index 0 is out of bounds for axis 0 with size 0".

(** [get_history(pv_name)]: the pair (data, error).  The window strings are
    formatted before the [try], so a missing start time raises; every failure
    inside the [try] gives the empty dictionary and a warning.  The body of
    the [try] fails on an answer without records only, at [vals[0]]. *)
Definition get_history (st : State) (pv_name : string)
  : Res (DataFrame * option string) :=
  match startTime st with
  | None => Raise AttributeError
  | Some start_ts =>
      match service (webServer st) pv_name start_ts (endTime st) with
      | Failed e => Ok (None, Some (warning pv_name e))
      | Records recs =>
          match extend_window start_ts (endTime st) recs with
          | Ok rows => Ok (Some rows, None)
          | Raise _ => Ok (None, Some (warning pv_name empty_answer_text))
          end
      end
  end.

Definition append_raw (data : DataFrame) (st : State) : State :=
  match rawData st with
  | RawList l => set_rawData (RawList (l ++ [data])) st
  | RawDict _ => st
  end.

Definition raw_list (st : State) : list DataFrame :=
  match rawData st with
  | RawList l => l
  | RawDict _ => []
  end.

(** The loop over [as_completed]: the results are appended in the order the
    tasks complete. *)
Fixpoint collect_results (completed : list string) : M unit :=
  match completed with
  | [] => mret ()
  | pv :: completed' =>
      st ← get;
      r ← lift (get_history st pv);
      modify (append_raw r.1);;
      collect_results completed'
  end.

(** [{pv: pd.DataFrame(data) for pv, data in zip(names, datas)}]: a later
    entry replaces an earlier one with the same name. *)
Definition dict_of_zip {V} (names : list string) (datas : list V)
  : gmap string V :=
  foldl (fun m p => <[p.1 := p.2]> m) ∅ (zip names datas).

(** [getHistory()].  [order] is the order in which the fetch tasks complete:
    a permutation of the task indices [0 .. len(pvNames) - 1], task [i]
    fetching [pvNames[i]]. *)
Definition getHistory (order : list nat) : M unit :=
  st ← get;
  _ ← lift (match duration_hour st with
            | None => Raise TypeError
            | Some d => Ok d
            end);
  modify (set_rawData (RawList []));;
  collect_results (omap (fun i => pvNames st !! i) order);;
  st' ← get;
  modify (set_rawData (RawDict (dict_of_zip (pvNames st') (raw_list st')))).

(** *** Alignment *)

(** [not self.__rawData]. *)
Definition raw_falsy (rd : RawData) : bool :=
  match rd with
  | RawList l => bool_decide (length l = 0%nat)
  | RawDict m => bool_decide (size m = 0%nat)
  end.

(** [self.__rawData[key]]: a list cannot be indexed by a name. *)
Definition raw_getitem (rd : RawData) (key : option string) : Res DataFrame :=
  match rd with
  | RawList _ => Raise TypeError
  | RawDict m =>
      match key with
      | None => Raise KeyError
      | Some pv =>
          match m !! pv with
          | Some frame => Ok frame
          | None => Raise KeyError
          end
      end
  end.

(** [frame['secs']] and [frame['vals']], taken together. *)
Definition columns (frame : DataFrame) : Res Samples :=
  match frame with
  | Some rows => Ok rows
  | None => Raise KeyError
  end.

(** [(vals >= r[0]) & (vals <= r[1])] for one range [r]. *)
Definition range_mask (vals : list Q) (r : list Q) : Res (list bool) :=
  low ← py_index r 0;
  high ← py_index r 1;
  mret (map (fun v => Qle_bool low v && Qle_bool v high) vals).

(** [idt = idt_k] when [idt] is still empty, else [idt += idt_k]. *)
Definition or_mask (idt idt_k : list bool) : list bool :=
  if (length idt =? 0)%nat then idt_k else zip_with orb idt idt_k.

Fixpoint mask_loop (vals : list Q) (rs : list (list Q)) (idt : list bool)
  : Res (list bool) :=
  match rs with
  | [] => Ok idt
  | r :: rs' =>
      idt_k ← range_mask vals r;
      mask_loop vals rs' (or_mask idt idt_k)
  end.

(** The loop over [alignSetup['val_range']]; a number cannot be indexed. *)
Definition keep_mask (vr : ValRange) (vals : list Q) : Res (list bool) :=
  match vr with
  | Flat [] => Ok []
  | Flat (_ :: _) => Raise TypeError
  | Nested rs => mask_loop vals rs []
  end.

(** [diff_idt = 1 + np.where(np.diff(idt) > 1)[0]]. *)
Definition breaks (idt : list nat) : list nat :=
  map S (np.where_ (map (fun d => (1 <? d)%Z) (np.diffZ idt))).

(** [time_cum] of the trimmed branch. *)
Definition bridged_axis (relTime : list Q) (idt : list nat) (bridge : Q)
  : list Q :=
  let time_inv := 0%Q :: np.diff (np.gather relTime idt) in
  np.cumsum (np.scatter time_inv (breaks idt) bridge).

(** The synchronized start time logged in [synData['startTime']]. *)
Definition sync_start (secs : list Q) (diff_idt : list nat) : Res Q :=
  if (length diff_idt =? 0)%nat then py_index secs 0
  else py_index secs (default 0%nat (head diff_idt)).

(** The row of one signal before resampling. *)
Definition project_row (setup : AlignSetup) (relTime : list Q)
    (idt : list nat) (pv : string) (raw_data : DataFrame)
  : Res (list (option Q)) :=
  if bool_decide (Some pv = base_pv setup) then
    rows ← columns raw_data;
    mret (map Some (np.gather (map snd rows) idt))
  else
    rows ← columns raw_data;
    if (length rows =? 1)%nat then
      v ← py_index (map snd rows) 0;
      mret (replicate (length idt) (Some v))
    else
      s0 ← py_index (map fst rows) 0;
      np.interp (np.gather relTime idt)
                (map (fun r => (r.1 - s0)%Q) rows)
                (map (fun r => Some r.2) rows).

Definition syn_set_start (t : Q) (st : State) : State :=
  match synData st with
  | SynDict _ rel vals => set_synData (SynDict (Some t) rel vals) st
  | _ => st
  end.

Definition syn_set_relTime (rel : list Q) (st : State) : State :=
  match synData st with
  | SynDict start _ vals => set_synData (SynDict start rel vals) st
  | _ => st
  end.

Definition syn_vals (st : State) : list (list (option Q)) :=
  match synData st with
  | SynDict _ _ vals => vals
  | _ => []
  end.

Definition syn_relTime (st : State) : list Q :=
  match synData st with
  | SynDict _ rel _ => rel
  | _ => []
  end.

Definition syn_set_vals (vals : list (list (option Q))) (st : State) : State :=
  match synData st with
  | SynDict start rel _ => set_synData (SynDict start rel vals) st
  | _ => st
  end.

(** The loop [for i, pv in enumerate(self.__pvNames)] filling
    [synData['vals'][i, :]]. *)
Fixpoint fill_rows (relTime : list Q) (idt : list nat) (i : nat)
    (pvs : list string) : M unit :=
  match pvs with
  | [] => mret ()
  | pv :: pvs' =>
      st ← get;
      raw_data ← lift (raw_getitem (rawData st) (Some pv));
      row ← lift (project_row (alignSetup st) relTime idt pv raw_data);
      modify (fun st => syn_set_vals (<[i := row]> (syn_vals st)) st);;
      fill_rows relTime idt (S i) pvs'
  end.

(** The local variables the two branches of [if not Trim] leave behind:
    [time_cum], [idt] and [diff_idt], the last one bound by the trimmed
    branch only. *)
Record Axis : Type := mkAxis {
  time_cum : list Q;
  idt : list nat;
  diff_idt : option (list nat)
}.

(** The branch [if not Trim / else]; [None] is the early [return] on an
    empty selection. *)
Definition select_axis (setup : AlignSetup) (rows : Samples)
    (relTime : list Q) : Res (option Axis) :=
  if negb (Trim setup) then
    mret (Some (mkAxis relTime (seq 0 (length rows)) None))
  else
    mask ← keep_mask (val_range setup) (map snd rows);
    let idt := np.where_ mask in
    if (length idt =? 0)%nat then mret None
    else
      mret (Some (mkAxis (bridged_axis relTime idt (disTimeAddBack_sec setup))
                         idt (Some (breaks idt)))).

(** Reading the local [diff_idt]. *)
Definition read_local {A} (v : option A) : Res A :=
  match v with
  | Some a => Ok a
  | None => Raise UnboundLocalError
  end.

(** [reSample = np.arange(time_cum[0], time_cum[-1], dtResample_sec)]. *)
Definition resample_grid (time_cum : list Q) (dt : Q) : Res (list Q) :=
  first ← py_index time_cum 0;
  final ← py_last time_cum;
  np.arange first final dt.

(** The same statement with the arithmetic of [np.arange] rounded by [fl]. *)
Definition resample_grid_fl (fl : Q → Q) (time_cum : list Q) (dt : Q)
  : Res (list Q) :=
  first ← py_index time_cum 0;
  final ← py_last time_cum;
  np.arange_fl fl first final dt.

(** The statements of [alignHistory] after the branch: start time, rows,
    resampling and the final frame. *)
Definition align_rest (rows : Samples) (relTime : list Q) (ax : Axis)
  : M unit :=
  d ← lift (read_local (diff_idt ax));
  start ← lift (sync_start (map fst rows) d);
  modify (syn_set_start start);;
  modify (syn_set_relTime (time_cum ax));;
  st ← get;
  modify (syn_set_vals
            (replicate (length (pvNames st))
                       (replicate (length (time_cum ax)) (Some 0%Q))));;
  fill_rows relTime (idt ax) 0 (pvNames st);;
  modify (fun st => syn_set_vals (map (take (length relTime)) (syn_vals st)) st);;
  final ← lift (py_last (time_cum ax));
  st ← get;
  reSample ← lift (resample_grid (time_cum ax)
                                 (dtResample_sec (alignSetup st)));
  if (length (syn_relTime st) =? 0)%nat then mret ()
  else
    vals ← lift (mapM (np.interp reSample (syn_relTime st)) (syn_vals st));
    modify (syn_set_vals vals);;
    modify (syn_set_relTime reSample);;
    modify (set_synData
              (SynFrame reSample (dict_of_zip (pvNames st) vals)
                        (final / 3600))).

(** [alignHistory(getHistory=flag)]; [order] is the completion order of the
    fetch tasks should [getHistory] run. *)
Definition alignHistory (order : list nat) (flag : bool) : M unit :=
  st0 ← get;
  (if flag && raw_falsy (rawData st0) then getHistory order else mret ());;
  modify (set_synData (SynDict None [] []));;
  st ← get;
  ref ← lift (raw_getitem (rawData st) (base_pv (alignSetup st)));
  rows ← lift (columns ref);
  t0 ← lift (py_index (map fst rows) 0);
  let relTime := map (fun r => (r.1 - t0)%Q) rows in
  ax ← lift (select_axis (alignSetup st) rows relTime);
  match ax with
  | None => mret ()
  | Some ax => align_rest rows relTime ax
  end.

(** *** Configuration *)

(** The conversions of [set_base_pv]: a tuple becomes a list, and a sequence
    of two entries whose first entry is not a list is wrapped. *)
Definition normalise_val_range (vr : ValRange) : ValRange :=
  match vr with
  | Flat [low; high] => Nested [[low; high]]
  | _ => vr
  end.

(** [set_base_pv(base_pv, base_id, val_range, disTimeAddBack_sec,
    dtResample_sec, Trim)].  An absent or empty [base_pv] is falsy. *)
Definition set_base_pv (pv : option string) (id : option Z) (vr : ValRange)
    (bridge dt : Q) (trim : bool) : M unit :=
  st ← get;
  lift (match pv with
        | Some (String c s) =>
            if bool_decide (String c s ∈ pvNames st) then Ok ()
            else Raise ValueError
        | _ =>
            match id with
            | Some i =>
                if ((i <? 0)%Z || (Z.of_nat (length (pvNames st)) <=? i)%Z)%bool
                then Raise ValueError
                else Ok ()
            | None => Raise ValueError
            end
        end);;
  modify (set_alignSetup
            (mkAlignSetup id pv (normalise_val_range vr) bridge dt trim)).

(** [str.upper] on ASCII text. *)
Definition upper_ascii (c : ascii) : ascii :=
  let n := nat_of_ascii c in
  if ((97 <=? n) && (n <=? 122))%nat then ascii_of_nat (n - 32) else c.

Fixpoint upper (s : string) : string :=
  match s with
  | EmptyString => EmptyString
  | String c s' => String (upper_ascii c) (upper s')
  end.

Definition url_LCLS : string :=
  "http://lcls-archapp.slac.stanford.edu/retrieval/data/getData.json?pv=".
Definition url_SSRL : string :=
  "http://spear-arch1.slac.stanford.edu/retrieval/data/getData.json?pv=".

(** The endpoint chosen by [__init__] from the server name. *)
Definition endpoint_of (server : string) : Res string :=
  let name := upper server in
  if bool_decide (name = "LCLS") then Ok url_LCLS
  else if bool_decide (name = "SSRL") then Ok url_SSRL
  else Raise ValueError.

(** The [pvNames] argument of [__init__]: absent, one name, or a list. *)
Inductive PvArg : Type :=
  | PvNone
  | PvStr (s : string)
  | PvList (l : list string).

Definition default_pvNames : list string :=
  ["GUN:GUNB:100:FWD:PWR"; "GUN:GUNB:100:DFACT"; "GUN:GUNB:100:REV1:PWR"].

Definition pvNames_of (a : PvArg) : list string :=
  match a with
  | PvStr s => [s]
  | PvList (pv :: l) => pv :: l
  | _ => default_pvNames
  end.

Definition default_alignSetup (names : list string) : Res AlignSetup :=
  pv ← py_index names 0;
  mret (mkAlignSetup (Some 0%Z) (Some pv) (Nested [[1000; 100000]%Q]) 1 1 true).

(** A time argument inside [__init__]: absent, the caller's string, or the
    string [strftime] made of a computed instant (which drops the fraction
    of a second). *)
Inductive TimeArg : Type :=
  | TNone
  | TStr (s : string)
  | TFmt (t : Q).

Definition time_arg (a : option string) : TimeArg :=
  match a with
  | None => TNone
  | Some s => TStr s
  end.

Definition time_is_none (a : TimeArg) : bool :=
  match a with
  | TNone => true
  | _ => false
  end.

Definition time_truthy (a : TimeArg) : bool :=
  match a with
  | TNone => false
  | TStr s => negb (bool_decide (s = ""))
  | TFmt _ => true
  end.

Definition parse_time (a : TimeArg) : Res Q :=
  match a with
  | TNone => Raise TypeError
  | TStr s =>
      match strptime s with
      | Some t => Ok t
      | None => Raise ValueError
      end
  | TFmt t => Ok (inject_Z (Qfloor t))
  end.

Definition num_truthy (d : option Q) : bool :=
  match d with
  | Some q => negb (Qeq_bool q 0)
  | None => false
  end.

Definition is_Some_bool {A} (o : option A) : bool :=
  match o with
  | Some _ => true
  | None => false
  end.

Definition hours (d : option Q) : Q := (default 0%Q d * 3600)%Q.

(** The first [if / elif / elif] of [__init__]: the missing time of the
    triple, and the parsing each branch does. *)
Definition complete_times (endT startT : TimeArg) (dur : option Q)
  : Res (TimeArg * TimeArg) :=
  if time_is_none endT && time_truthy startT && num_truthy dur then
    s ← parse_time startT;
    mret (TFmt (s + hours dur), startT)
  else if time_is_none startT && time_truthy endT && num_truthy dur then
    e ← parse_time endT;
    mret (endT, TFmt (e - hours dur))
  else if negb (is_Some_bool dur) && time_truthy startT && time_truthy endT then
    _ ← parse_time startT;
    _ ← parse_time endT;
    mret (endT, startT)
  else mret (endT, startT).

(** The consistency check of the triple, within [1e-6] hour. *)
Definition check_times (endT startT : TimeArg) (dur : option Q) : Res unit :=
  if time_truthy startT && time_truthy endT && num_truthy dur then
    s ← parse_time startT;
    e ← parse_time endT;
    if Qlt_bool (1 # 1000000) (Qabs ((e - s) / 3600 - default 0%Q dur))
    then Raise ValueError
    else mret ()
  else mret ().

(** [DataRetriever(pvNames, webServer, endTime, duration_hour, startTime,
    alignSetup)]. *)
Definition init (names : PvArg) (server : string) (endT : option string)
    (dur : option Q) (startT : option string) (setup : option AlignSetup)
  : Res State :=
  let pvs := pvNames_of names in
  align ← (match setup with
           | Some a => Ok a
           | None => default_alignSetup pvs
           end);
  times ← complete_times (time_arg endT) (time_arg startT) dur;
  _ ← check_times times.1 times.2 dur;
  url ← endpoint_of server;
  e ← parse_time times.1;
  s ← (if time_truthy times.2 then t ← parse_time times.2; mret (Some t)
       else mret None);
  mret (mkState pvs align url e dur s (RawList []) SynInit).

(** *** Property access *)

(** The values handed to [set_property]. *)
Record SetupDict : Type := mkSetupDict {
  d_base_id : option (option Z);
  d_base_pv : option (option string);
  d_val_range : option ValRange;
  d_disTimeAddBack_sec : option Q;
  d_dtResample_sec : option Q;
  d_Trim : option bool
}.

Inductive PyValue : Type :=
  | VNone
  | VStr (s : string)
  | VNum (q : Q)
  | VList (l : list string)
  | VDict (d : SetupDict).

(** A dictionary with every required key; a missing key is refused. *)
Definition setup_of_dict (d : SetupDict) : Res AlignSetup :=
  match d_base_id d, d_base_pv d, d_val_range d,
        d_disTimeAddBack_sec d, d_dtResample_sec d, d_Trim d with
  | Some i, Some pv, Some vr, Some bridge, Some dt, Some trim =>
      Ok (mkAlignSetup i pv vr bridge dt trim)
  | _, _, _, _, _, _ => Raise ValueError
  end.

(** The names [hasattr(self, '_DataRetriever__' + name)] accepts. *)
Definition attributes : list string :=
  ["pvNames"; "alignSetup"; "webServer"; "endTime"; "duration_hour";
   "startTime"; "rawData"; "synData"].

Definition stored_duration : M Q :=
  st ← get;
  lift (match duration_hour st with
        | Some d => Ok d
        | None => Raise TypeError
        end).

(** [set_property(property_name, value)]: four independent [if]s under the
    attribute test. *)
Definition set_property (name : string) (value : PyValue) : M unit :=
  if bool_decide (name ∈ attributes) then
    (match value with
     | VStr s =>
         if bool_decide (name = "pvNames") then modify (set_pvNames [s])
         else mret ()
     | _ => mret ()
     end);;
    (if bool_decide (name ∈ ["endTime"; "startTime"]) then
       t ← lift (match value with
                 | VStr s => parse_time (TStr s)
                 | _ => Raise TypeError
                 end);
       if bool_decide (name = "startTime") then
         modify (set_startTime (Some t));;
         d ← stored_duration;
         modify (set_endTime (t + d * 3600))
       else
         modify (set_endTime t);;
         d ← stored_duration;
         modify (set_startTime (Some (t - d * 3600)%Q))
     else mret ());;
    (if bool_decide (name = "duration_hour") then
       match value with
       | VNum q =>
           modify (set_duration_hour (Some q));;
           st ← get;
           modify (set_startTime (Some (endTime st - q * 3600)%Q))
       | _ => lift (Raise ValueError)
       end
     else mret ());;
    (if bool_decide (name = "alignSetup") then
       match value with
       | VDict d =>
           a ← lift (setup_of_dict d);
           modify (set_alignSetup a)
       | _ => lift (Raise ValueError)
       end
     else mret ())
  else lift (Raise AttributeError).

(** [set_property({name: value, ...})]. *)
Fixpoint set_properties (items : list (string * PyValue)) : M unit :=
  match items with
  | [] => mret ()
  | (name, value) :: items' =>
      set_property name value;;
      set_properties items'
  end.

End DataRetriever.

(** ** Predicates used by the statements *)

(** *** Floating-point rounding *)

(** What the statements about rounded arithmetic need of the rounding [fl]
    of a real number to a double: it respects equality of rationals, is
    monotone, leaves a double as it is, and is exact on the integers up to
    [2^53].  Round-to-nearest has these properties; so has no rounding at
    all. *)
Record Rounding (fl : Q → Q) : Prop := mkRounding {
  fl_proper : ∀ x y, (x == y)%Q → (fl x == fl y)%Q;
  fl_monotone : ∀ x y, (x <= y)%Q → (fl x <= fl y)%Q;
  fl_idempotent : ∀ x, (fl (fl x) == fl x)%Q;
  fl_integer : ∀ z : Z, (Z.abs z <= 2 ^ 53)%Z →
                        (fl (inject_Z z) == inject_Z z)%Q
}.

(** The integer nearest to [x], the even one on a tie. *)
Definition round_half_even (x : Q) : Z :=
  let f := Qfloor x in
  match Qcompare (x - inject_Z f)%Q (1 # 2)%Q with
  | Lt => f
  | Gt => (f + 1)%Z
  | Eq => if Z.even f then f else (f + 1)%Z
  end.

(** For [0 < x], the exponent [e] with [2^52 <= x / 2^e < 2^53]. *)
Definition binade (x : Q) : Z :=
  let x := Qred x in
  let e0 := (Z.log2 (Qnum x) - Z.log2 (Zpos (Qden x)) - 52)%Z in
  if Qlt_bool (x / 2 ^ e0)%Q (2 ^ 52)%Q then (e0 - 1)%Z else e0.

(** The double nearest to [x]: a significand of 53 bits, rounded to
    nearest with ties to even.  The exponent is not bounded: overflow and
    subnormal numbers (beyond 1e308 and below 1e-307) are left out. *)
Definition round_double (x : Q) : Q :=
  match Qcompare x 0%Q with
  | Eq => 0%Q
  | Gt => let e := binade x in
          Qred (inject_Z (round_half_even (x / 2 ^ e)%Q) * 2 ^ e)%Q
  | Lt => let e := binade (- x)%Q in
          Qred (- (inject_Z (round_half_even (- x / 2 ^ e)%Q) * 2 ^ e))%Q
  end.

(** The doubles written 0.2, 0.3, 0.7 and 2.1 in Python. *)
Definition double_0_2 : Q := round_double (2 # 10).
Definition double_0_3 : Q := round_double (3 # 10).
Definition double_0_7 : Q := round_double (7 # 10).
Definition double_2_1 : Q := round_double (21 # 10).

(** Each entry is strictly below the next one. *)
Fixpoint strictly_increasing (l : list Q) : Prop :=
  match l with
  | x :: ((y :: _) as l') => (x < y)%Q ∧ strictly_increasing l'
  | _ => True
  end.

(** Each entry is at most the next one. *)
Fixpoint non_decreasing (l : list Q) : Prop :=
  match l with
  | x :: ((y :: _) as l') => (x <= y)%Q ∧ non_decreasing l'
  | _ => True
  end.

Fixpoint increasing_nat (l : list nat) : Prop :=
  match l with
  | x :: ((y :: _) as l') => (x < y)%nat ∧ increasing_nat l'
  | _ => True
  end.

(** The deltas after the seams are written: a zero followed by positive
    steps. *)
Definition steps_ok (time_inv : list Q) : Prop :=
  ∃ tl, time_inv = 0%Q :: tl ∧ Forall (fun d => (0 < d)%Q) tl.

(** *** Reading a property *)

(** The value [get_property] hands back, by attribute. *)
Inductive AttrValue : Type :=
  | APvNames (l : list string)
  | AAlignSetup (a : AlignSetup)
  | AWebServer (s : string)
  | AEndTime (t : Q)
  | ADuration (d : option Q)
  | AStartTime (t : option Q)
  | ARawData (r : RawData)
  | ASynData (s : SynData).

(** [getattr(self, '_DataRetriever__' + name)]. *)
Definition getattr (st : State) (name : string) : option AttrValue :=
  if bool_decide (name = "pvNames") then Some (APvNames (pvNames st))
  else if bool_decide (name = "alignSetup") then Some (AAlignSetup (alignSetup st))
  else if bool_decide (name = "webServer") then Some (AWebServer (webServer st))
  else if bool_decide (name = "endTime") then Some (AEndTime (endTime st))
  else if bool_decide (name = "duration_hour") then Some (ADuration (duration_hour st))
  else if bool_decide (name = "startTime") then Some (AStartTime (startTime st))
  else if bool_decide (name = "rawData") then Some (ARawData (rawData st))
  else if bool_decide (name = "synData") then Some (ASynData (synData st))
  else None.

(** [get_property(property_name)]. *)
Definition get_property (name : string) : M AttrValue := fun st =>
  if bool_decide (name ∈ attributes) then
    match getattr st name with
    | Some v => (st, Ok v)
    | None => (st, Raise AttributeError)
    end
  else (st, Raise AttributeError).

(** ** The PV-name generator [getLCLSII_SSA_pv] *)

Module SSA.

(** An argument of the generator: an integer or anything else.  A [bool],
    which [isinstance(_, int)] accepts too and which prints as [True] or
    [False], is left out. *)
Inductive PyArg : Type :=
  | PInt (z : Z)
  | PNotInt.

Record TempCooling : Type := mkTempCooling {
  HSink : list string;
  CltrAir : list string;
  PSAir : list string;
  HeatExcInAir : list string;
  LCWIn : list string;
  LCWOut : list string;
  LCWFlowRate : list string;
  FanSpeed : list string
}.

(** The nested dictionary the generator returns. *)
Record PVs : Type := mkPVs {
  drv_volt : list string;
  drv_cur : list string;
  drv_pwr : list string;
  amp_volt : list string;
  amp_cur : list string;
  amp_pwr : list string;
  pwr_fwd : string;
  pwr_ref : string;
  temp_cooling : TempCooling
}.

Definition as_int (a : PyArg) : Res Z :=
  match a with
  | PInt z => Ok z
  | PNotInt => Raise TypeError
  end.

(** The range checks on section, cryomodule and cavity. *)
Definition validate (section cryo cavity : Z) : Res unit :=
  if negb (bool_decide (section ∈ [0; 1; 2; 3]%Z)) then Raise ValueError
  else if ((section =? 0) && negb (cryo =? 1))%Z then Raise ValueError
  else if ((section =? 1) && negb (bool_decide (cryo ∈ [2; 3]%Z)))%Z
  then Raise ValueError
  else if ((section =? 2) && negb ((4 <=? cryo) && (cryo <=? 15)))%Z
  then Raise ValueError
  else if ((section =? 3) && negb ((16 <=? cryo) && (cryo <=? 35)))%Z
  then Raise ValueError
  else if negb ((1 <=? cavity) && (cavity <=? 8))%Z then Raise ValueError
  else Ok ().

(** [ssa_header]: the cryomodule is written with two digits. *)
Definition ssa_header (section cryo cavity : Z) : string :=
  if (cryo <? 10)%Z
  then "ACCL:L" +:+ pretty section +:+ "B:0" +:+ pretty cryo +:+ pretty cavity
       +:+ "0:SSA"
  else "ACCL:L" +:+ pretty section +:+ "B:" +:+ pretty cryo +:+ pretty cavity
       +:+ "0:SSA".

(** [for cur in range(1, 9): ...; if k == 3 and cur == 4: break]. *)
Fixpoint cur_loop (h : string) (k : Z) (curs : list Z) (acc : list string)
  : list string :=
  match curs with
  | [] => acc
  | cur :: curs' =>
      let acc' := acc ++ [h +:+ ":FA" +:+ pretty k +:+ "_I" +:+ pretty cur] in
      if ((k =? 3) && (cur =? 4))%Z then acc' else cur_loop h k curs' acc'
  end.

(** [for pwr in range(1, 5): ...; if k == 3 and pwr == 2: break]. *)
Fixpoint pwr_loop (h : string) (k : Z) (pwrs : list Z) (acc : list string)
  : list string :=
  match pwrs with
  | [] => acc
  | pwr :: pwrs' =>
      let acc' := acc ++ [h +:+ ":FA" +:+ pretty k +:+ "_Pwr" +:+ pretty pwr] in
      if ((k =? 3) && (pwr =? 2))%Z then acc' else pwr_loop h k pwrs' acc'
  end.

(** The lists before the loop over [k]. *)
Definition initial (h : string) : PVs :=
  mkPVs [] [] [] [] [] []
        (h +:+ ":FwdPwr") (h +:+ ":RefPwr")
        (mkTempCooling
           [h +:+ ":DA_HSTemp"] [h +:+ ":CtrlAirTemp"] [h +:+ ":PSAirTemp"]
           [h +:+ ":HXInAirTemp"] [h +:+ ":LCWInTemp"] [h +:+ ":LCWOutTemp"]
           [h +:+ ":LCWOutFlow"]
           [h +:+ ":CtrlFanSpeed"; h +:+ ":DA_FanSpeed"; h +:+ ":HXFan4Speed"]).

(** One round of [for k in range(1, 4)]. *)
Definition round (h : string) (pvs : PVs) (k : Z) : PVs :=
  let first := (k =? 1)%Z in
  let t := temp_cooling pvs in
  mkPVs
    (if first then drv_volt pvs ++ [h +:+ ":DA_PS1_V"; h +:+ ":DA_PS2_V"]
     else drv_volt pvs)
    (if first then drv_cur pvs ++ [h +:+ ":DA_I1"; h +:+ ":DA_I2"]
     else drv_cur pvs)
    (if first then drv_pwr pvs ++ [h +:+ ":DrvPwr_mW"] else drv_pwr pvs)
    (amp_volt pvs ++ [h +:+ ":FA" +:+ pretty k +:+ "_PS1_V";
                      h +:+ ":FA" +:+ pretty k +:+ "_PS2_V"])
    (cur_loop h k (seqZ 1 8) (amp_cur pvs))
    (pwr_loop h k (seqZ 1 4) (amp_pwr pvs))
    (pwr_fwd pvs) (pwr_ref pvs)
    (mkTempCooling
       (HSink t ++ [h +:+ ":FA" +:+ pretty k +:+ "_HSTemp"])
       (CltrAir t) (PSAir t) (HeatExcInAir t) (LCWIn t) (LCWOut t)
       (LCWFlowRate t)
       (FanSpeed t ++ [h +:+ ":FA" +:+ pretty k +:+ "_FanSpeed";
                       h +:+ ":PSFan" +:+ pretty k +:+ "Speed";
                       h +:+ ":HXFan" +:+ pretty k +:+ "Speed"])).

(** [getLCLSII_SSA_pv(LinacSection, Cryomodule, Cavity)]. *)
Definition getLCLSII_SSA_pv (LinacSection Cryomodule Cavity : PyArg) : Res PVs :=
  section ← as_int LinacSection;
  cryo ← as_int Cryomodule;
  cavity ← as_int Cavity;
  _ ← validate section cryo cavity;
  let h := ssa_header section cryo cavity in
  mret (foldl (round h) (initial h) (seqZ 1 3)).

(** The flattening of the dictionary in [test.py]: every list and every
    single name, in the order of the dictionary. *)
Definition flatten (pvs : PVs) : list string :=
  let t := temp_cooling pvs in
  drv_volt pvs ++ drv_cur pvs ++ drv_pwr pvs ++
  amp_volt pvs ++ amp_cur pvs ++ amp_pwr pvs ++
  [pwr_fwd pvs; pwr_ref pvs] ++
  HSink t ++ CltrAir t ++ PSAir t ++ HeatExcInAir t ++ LCWIn t ++ LCWOut t ++
  LCWFlowRate t ++ FanSpeed t.

(** The arguments the range checks accept. *)
Definition valid_triple (section cryo cavity : Z) : Prop :=
  ((section = 0 ∧ cryo = 1) ∨ (section = 1 ∧ (cryo = 2 ∨ cryo = 3)) ∨
   (section = 2 ∧ 4 <= cryo <= 15) ∨ (section = 3 ∧ 16 <= cryo <= 35))%Z ∧
  (1 <= cavity <= 8)%Z.

(** Every accepted (section, cryomodule, cavity), listed. *)
Definition all_triples : list (Z * Z * Z) :=
  p ← ([(0, 1); (1, 2); (1, 3)] ++ ((fun c => (2, c)) <$> seqZ 4 12)
       ++ ((fun c => (3, c)) <$> seqZ 16 20))%Z;
  (fun v => (p.1, p.2, v)) <$> seqZ 1 8.

(** The part of every generated name after the header, in the order of
    [flatten]. *)
Definition suffixes : list string :=
  flatten (foldl (round "") (initial "") (seqZ 1 3)).

(** The header of a triple. *)
Definition header_of (t : Z * Z * Z) : string := ssa_header t.1.1 t.1.2 t.2.

End SSA.

(** ** Sample data

    A reference signal "A" sampled once a second whose value leaves the
    range [1, 10] at the start, and a second signal "B" with two samples. *)

Definition ex_setup (trim : bool) : AlignSetup :=
  mkAlignSetup (Some 0%Z) (Some "A") (Nested [[1; 10]%Q]) 1 1 trim.

Definition ex_rows_A : Samples :=
  [(100, 0); (101, 5); (102, 5); (103, 5)]%Q.

Definition ex_rows_B : Samples := [(100, 0); (103, 30)]%Q.

(** A reference signal with two excursions out of range. *)
Definition ex_rows_gaps : Samples :=
  [(100, 5); (101, 50); (102, 5); (103, 5); (104, 5); (106, 77); (108, 2)]%Q.

Definition ex_setup_half : AlignSetup :=
  mkAlignSetup (Some 0%Z) (Some "A") (Nested [[1; 10]%Q]) (1 # 2) 1 true.

(** An archiver that knows the signal "A" only, with samples exactly at
    both ends of the window [100, 110]; a request for another signal fails
    at [data[0]] on the empty list the archiver answers. *)
Definition ex_service (endpoint pv : string) (from to : Q) : Answer :=
  if bool_decide (pv = "A")
  then Records [(100 - 7 * 3600, 5); (110 - 7 * 3600, 7)]%Q
  else Failed "list index out of range".

Definition ex_state : State :=
  mkState ["A"; "B"] (ex_setup true) url_LCLS 110 (Some (10 # 3600))
          (Some 100%Q) (RawList []) SynInit.

(** An archiver whose records for "A" start before the window [100, 110]
    and end after it. *)
Definition ex_service_wide (endpoint pv : string) (from to : Q) : Answer :=
  if bool_decide (pv = "A")
  then Records [(90 - 7 * 3600, 1); (105 - 7 * 3600, 2); (120 - 7 * 3600, 3)]%Q
  else Failed "list index out of range".

(** Rows ordered by timestamp. *)
Definition by_secs (a b : Q * Q) : Prop := (a.1 <= b.1)%Q.

(** Raw data already fetched for "A" and "B". *)
Definition ex_raw : gmap string DataFrame :=
  <["B" := Some ex_rows_B]> (<["A" := Some ex_rows_A]> ∅).

Definition ex_state_raw (setup : AlignSetup) (syn : SynData) : State :=
  mkState ["A"; "B"] setup url_LCLS 103 (Some (3 # 3600)) (Some 100%Q)
          (RawDict ex_raw) syn.

(** The same raw data with a third configured signal, "C", that was never
    fetched. *)
Definition ex_state_three : State :=
  mkState ["A"; "B"; "C"] (ex_setup true) url_LCLS 103 (Some (3 # 3600))
          (Some 100%Q) (RawDict ex_raw) SynInit.

(** The start time, the axis and the rows of a working dictionary, the
    rationals in lowest terms. *)
Definition working_dict (syn : SynData)
  : option (option Q * list Q * list (list (option Q))) :=
  match syn with
  | SynDict start rel vals =>
      Some (option_map Qred start, map Qred rel,
            map (map (option_map Qred)) vals)
  | _ => None
  end.

(** The aligned frame of [ex_raw] under [ex_setup true]. *)
Definition ex_frame : SynData :=
  SynFrame [0 + 0 * 1; 0 + 1 * 1]%Q
           (dict_of_zip ["A"; "B"]
              [[Some 5; Some 5]; [Some (30 # 3); Some (60 # 3)]]%Q)
           (2 # 3600).

(** The default range [1e3, 1e5], which no value of "A" reaches. *)
Definition ex_setup_default : AlignSetup :=
  mkAlignSetup (Some 0%Z) (Some "A") (Nested [[1000; 100000]%Q]) 1 1 true.

(** No value lies inside any configured range (a flat, non-empty
    [val_range] is not a list of ranges). *)
Definition out_of_range (vr : ValRange) (vals : list Q) : Prop :=
  match vr with
  | Flat xs => xs = []
  | Nested rs =>
      Forall (fun r => ∃ low high,
                r !! 0%nat = Some low ∧ r !! 1%nat = Some high ∧
                Forall (fun v => ¬ (low <= v <= high)%Q) vals) rs
  end.

(** Two rows agree entry by entry, up to equality of rationals. *)
Definition same_row (r1 r2 : list (option Q)) : Prop :=
  Forall2 (option_Forall2 Qeq) r1 r2.

(** A date parser that knows the default end time of the constructor. *)
Definition ex_strptime (s : string) : option Q :=
  if bool_decide (s = "06/05/2023 08:08:08") then Some 1685977688%Q else None.

(** A configuration in which one signal has the empty name. *)
Definition ex_state_blank : State :=
  mkState ["A"; ""] (ex_setup true) url_LCLS 110 (Some (10 # 3600))
          (Some 100%Q) (RawList []) SynInit.

(** The state with ['base_id'] replaced in [alignSetup]. *)
Definition with_base_id (i : option Z) (st : State) : State :=
  set_alignSetup
    (mkAlignSetup i (base_pv (alignSetup st)) (val_range (alignSetup st))
                  (disTimeAddBack_sec (alignSetup st))
                  (dtResample_sec (alignSetup st)) (Trim (alignSetup st)))
    st.

(** A method that neither reads nor writes ['base_id']. *)
Definition ignores_base_id {A} (m : M A) : Prop :=
  ∀ i st, m (with_base_id i st) = (with_base_id i (m st).1, (m st).2).

(** ** Predicates on ranges and rows *)

(** The value lies in the inclusive range [r = [low, high, ...]]. *)
Definition in_range (r : list Q) (v : Q) : Prop :=
  ∃ low high, r !! 0%nat = Some low ∧ r !! 1%nat = Some high ∧
              (low <= v <= high)%Q.

Definition in_range_b (r : list Q) (v : Q) : bool :=
  match r with
  | low :: high :: _ => Qle_bool low v && Qle_bool v high
  | _ => false
  end.

(** The value lies in at least one of the ranges. *)
Definition in_some_range (rs : list (list Q)) (v : Q) : Prop :=
  Exists (fun r => in_range r v) rs.

(** Every range has a lower and an upper bound. *)
Definition ranges_ok (rs : list (list Q)) : Prop :=
  Forall (fun r => (2 ≤ length r)%nat) rs.

(** Two axes agree point by point, up to equality of rationals. *)
Definition same_axis (l1 l2 : list Q) : Prop := Forall2 Qeq l1 l2.

(** Only the stored aligned result differs between the two states. *)
Definition only_synData_changed (st st' : State) : Prop :=
  st' = set_synData (synData st') st.

(** Only the stored raw data and aligned result differ. *)
Definition only_data_changed (st st' : State) : Prop :=
  st' = set_synData (synData st') (set_rawData (rawData st') st).

(** The trimmed axis of [ex_rows_gaps] under [ex_setup_half]. *)
Definition ex_axis_gaps : Axis :=
  mkAxis (bridged_axis (map (fun r => (r.1 - 100)%Q) ex_rows_gaps)
                       [0; 2; 3; 4; 6]%nat (1 # 2))
         [0; 2; 3; 4; 6]%nat (Some [1; 4]%nat).

(** A reference signal that stays inside the range [1, 10]. *)
Definition ex_rows_inside : Samples := [(100, 5); (101, 6); (103, 7)]%Q.

(** The window filter of [get_history] and the shift of a service record to
    local time. *)
Definition in_window (start_ts end_ts : Q) (r : Q * Q) : bool :=
  Qle_bool start_ts r.1 && Qle_bool r.1 end_ts.

Definition shift_sample (r : Q * Q) : Q * Q := ((r.1 + timeDiff_sec)%Q, r.2).

(** The frame one fetch task hands to [getHistory]. *)
Definition fetched (service : string → string → Q → Q → Answer)
    (st : State) (pv : string) : DataFrame :=
  match get_history service st pv with
  | Ok r => r.1
  | Raise _ => None
  end.

(** A method whose final state is always related to its initial state. *)
Definition keeps {A} (R : State → State → Prop) (m : M A) : Prop :=
  ∀ st, R st (m st).1.

(** The empty working dictionary [alignHistory] starts from. *)
Definition empty_working_dict : SynData := SynDict None [] [].

(** The outcome [set_base_pv] accepts: a non-empty name among the
    configured ones, or no name and an index inside the list. *)
Definition base_accepted (pv : option string) (id : option Z) (st : State)
  : Prop :=
  match pv with
  | Some (String c s) => String c s ∈ pvNames st
  | _ => ∃ i, id = Some i ∧ (0 <= i < Z.of_nat (length (pvNames st)))%Z
  end.

(** The dictionary holding every key of a setup. *)
Definition dict_of_setup (a : AlignSetup) : SetupDict :=
  mkSetupDict (Some (base_id a)) (Some (base_pv a)) (Some (val_range a))
              (Some (disTimeAddBack_sec a)) (Some (dtResample_sec a))
              (Some (Trim a)).

(** The endpoint is the same in both states. *)
Definition same_endpoint (st st' : State) : Prop := webServer st' = webServer st.

(** The retriever the constructor builds from its defaults. *)
Definition ex_state_init : State :=
  mkState default_pvNames
          (mkAlignSetup (Some 0%Z) (Some "GUN:GUNB:100:FWD:PWR")
                        (Nested [[1000; 100000]%Q]) 1 1 true)
          url_LCLS 1685977688 (Some 4%Q)
          (Some (inject_Z (Qfloor (1685977688 - hours (Some 4%Q)))))
          (RawList []) SynInit.

(** The frame of a failed fetch. *)
Definition is_empty_frame (frame : DataFrame) : bool := negb (is_Some_bool frame).

(** * Properties *)

(** ** Comparisons *)

Lemma Qlt_bool_iff x y : Qlt_bool x y = true ↔ (x < y)%Q.
Proof.
  unfold Qlt_bool. rewrite negb_true_iff. split.
  - intros H. apply Qnot_le_lt. intros Hle.
    apply Qle_bool_iff in Hle. congruence.
  - intros H. destruct (Qle_bool y x) eqn:E; [|done].
    apply Qle_bool_iff in E. exfalso. eapply Qlt_not_le; eauto.
Qed.

Lemma Qle_bool_false x y : Qle_bool x y = false ↔ (y < x)%Q.
Proof.
  rewrite <- Qlt_bool_iff. unfold Qlt_bool.
  destruct (Qle_bool x y); simpl; split; congruence.
Qed.

(** ** The kept indices *)

Lemma where_from_bounds i mask :
  Forall (fun k => (i ≤ k < i + length mask)%nat) (np.where_from i mask).
Proof.
  revert i. induction mask as [|b mask IH]; intros i; simpl; [constructor|].
  assert (Forall (fun k => (i ≤ k < i + S (length mask))%nat)
                 (np.where_from (S i) mask)) as Hrest.
  { eapply Forall_impl; [apply IH|]. simpl. intros k Hk. lia. }
  destruct b; [constructor; [lia|]|]; exact Hrest.
Qed.

Lemma where_from_increasing i mask : increasing_nat (np.where_from i mask).
Proof.
  revert i. induction mask as [|b mask IH]; intros i; simpl; [done|].
  destruct b; [|apply IH].
  pose proof (where_from_bounds (S i) mask) as Hb.
  specialize (IH (S i)).
  destruct (np.where_from (S i) mask) as [|k rest]; [done|].
  split; [|exact IH].
  apply Forall_cons in Hb as [Hk _]. lia.
Qed.

Lemma range_mask_length vals r mask :
  range_mask vals r = Ok mask → length mask = length vals.
Proof.
  unfold range_mask. destruct (py_index r 0); simpl; [|done].
  destruct (py_index r 1); simpl; [|done].
  intros [= <-]. by rewrite length_map.
Qed.

Lemma mask_loop_length vals rs idt mask :
  (length idt ≤ length vals)%nat →
  mask_loop vals rs idt = Ok mask → (length mask ≤ length vals)%nat.
Proof.
  revert idt. induction rs as [|r rs IH]; intros idt Hlen; simpl.
  - by intros [= <-].
  - destruct (range_mask vals r) as [idt_k|] eqn:Hk; simpl; [|done].
    apply range_mask_length in Hk. apply IH.
    unfold or_mask. destruct (length idt =? 0)%nat; [lia|].
    rewrite length_zip_with. lia.
Qed.

Lemma keep_mask_length vr vals mask :
  keep_mask vr vals = Ok mask → (length mask ≤ length vals)%nat.
Proof.
  destruct vr as [[|x xs]|rs]; simpl.
  - intros [= <-]. simpl. lia.
  - done.
  - apply mask_loop_length. simpl. lia.
Qed.

(** ** The bridged axis *)

Lemma strictly_increasing_lookup l i j x y :
  strictly_increasing l → (i < j)%nat →
  l !! i = Some x → l !! j = Some y → (x < y)%Q.
Proof.
  revert i j x. induction l as [|a l IH]; intros i j x Hs Hij Hi Hj; [done|].
  destruct j as [|j]; [lia|].
  destruct l as [|b l]; [done|]. destruct Hs as [Hab Hs].
  destruct i as [|i].
  - injection Hi as <-. destruct j as [|j].
    + injection Hj as <-. exact Hab.
    + eapply Qlt_trans; [exact Hab|].
      eapply (IH 0%nat (S j)); eauto. lia.
  - eapply (IH i j); eauto. lia.
Qed.

Lemma gather_increasing arr idx :
  strictly_increasing arr → increasing_nat idx →
  Forall (fun k => (k < length arr)%nat) idx →
  strictly_increasing (np.gather arr idx).
Proof.
  intros Harr. induction idx as [|i idx IH]; intros Hinc Hb; [done|].
  destruct idx as [|j idx]; [done|].
  destruct Hinc as [Hij Hinc].
  apply Forall_cons in Hb as [Hi Hb].
  split; [|apply IH; assumption].
  pose proof Hb as Hb'. apply Forall_cons in Hb' as [Hj _].
  destruct (lookup_lt_is_Some_2 arr i Hi) as [x Hx].
  destruct (lookup_lt_is_Some_2 arr j Hj) as [y Hy].
  rewrite Hx, Hy. simpl.
  exact (strictly_increasing_lookup arr i j x y Harr Hij Hx Hy).
Qed.

Lemma diff_positive l :
  strictly_increasing l → Forall (fun d => (0 < d)%Q) (np.diff l).
Proof.
  induction l as [|x l IH]; [constructor|].
  destruct l as [|y l]; [constructor|].
  intros [Hxy Hs]. simpl. constructor; [lra|]. by apply IH.
Qed.

Lemma scatter_steps_ok time_inv idx bridge :
  (0 < bridge)%Q → Forall (fun k => (1 ≤ k)%nat) idx →
  steps_ok time_inv → steps_ok (np.scatter time_inv idx bridge).
Proof.
  intros Hb. unfold np.scatter. revert time_inv.
  induction idx as [|k idx IH]; intros time_inv Hidx Hok; [done|].
  apply Forall_cons in Hidx as [Hk Hidx]. simpl. apply IH; [done|].
  destruct Hok as (tl & -> & Htl). destruct k as [|k]; [lia|].
  exists (<[k := bridge]> tl). split; [done|].
  by apply Forall_insert.
Qed.

Lemma cumsum_from_increasing acc l :
  Forall (fun d => (0 < d)%Q) l →
  strictly_increasing (acc :: np.cumsum_from acc l).
Proof.
  revert acc. induction l as [|d l IH]; intros acc Hl; [done|].
  apply Forall_cons in Hl as [Hd Hl]. simpl. split; [lra|].
  by apply IH.
Qed.

Lemma breaks_positive idt : Forall (fun k => (1 ≤ k)%nat) (breaks idt).
Proof.
  unfold breaks. apply Forall_map, Forall_forall. intros; simpl; lia.
Qed.

Lemma bridged_axis_spec relTime idt bridge :
  strictly_increasing relTime → increasing_nat idt →
  Forall (fun k => (k < length relTime)%nat) idt → (0 < bridge)%Q →
  head (bridged_axis relTime idt bridge) = Some 0%Q ∧
  strictly_increasing (bridged_axis relTime idt bridge).
Proof.
  intros Hrel Hinc Hb Hbridge. unfold bridged_axis.
  destruct (scatter_steps_ok (0%Q :: np.diff (np.gather relTime idt))
              (breaks idt) bridge Hbridge (breaks_positive idt))
    as (tl & -> & Htl).
  { eexists. split; [done|]. by apply diff_positive, gather_increasing. }
  split; [done|]. by apply cumsum_from_increasing.
Qed.

Lemma relTime_increasing (rows : Samples) t0 :
  strictly_increasing (map fst rows) →
  strictly_increasing (map (fun r => (r.1 - t0)%Q) rows).
Proof.
  induction rows as [|r rows IH]; [done|].
  destruct rows as [|r' rows]; [done|].
  intros [Hlt Hs]. split; [simpl in *; lra|]. by apply IH.
Qed.

(** C8.  In a trimmed alignment that keeps at least one sample, when the
    reference timestamps are strictly ascending and the bridge duration is
    positive, the bridged cumulative time axis starts at zero and is strictly
    increasing. *)
Theorem bridged_axis_zero_based_increasing setup (rows : Samples) t0 ax :
  Trim setup = true →
  strictly_increasing (map fst rows) →
  (0 < disTimeAddBack_sec setup)%Q →
  select_axis setup rows (map (fun r => (r.1 - t0)%Q) rows) = Ok (Some ax) →
  head (time_cum ax) = Some 0%Q ∧ strictly_increasing (time_cum ax).
Proof.
  intros Htrim Hsecs Hbridge. unfold select_axis. rewrite Htrim. simpl.
  destruct (keep_mask (val_range setup) (map snd rows)) as [mask|] eqn:Hmask;
    simpl; [|done].
  destruct (length (np.where_ mask) =? 0)%nat; simpl; [done|].
  intros [= <-]. simpl.
  apply bridged_axis_spec; [by apply relTime_increasing| |  |done].
  - apply where_from_increasing.
  - apply keep_mask_length in Hmask. rewrite !length_map in *.
    eapply Forall_impl; [apply where_from_bounds|]. simpl. intros k Hk. lia.
Qed.

Lemma bridged_axis_zero_based_increasing_witness :
  Trim ex_setup_half = true ∧
  strictly_increasing (map fst ex_rows_gaps) ∧
  (0 < disTimeAddBack_sec ex_setup_half)%Q ∧
  head (bridged_axis (map (fun r => (r.1 - 100)%Q) ex_rows_gaps)
                     [0; 2; 3; 4; 6]%nat (1 # 2)) = Some 0%Q ∧
  strictly_increasing
    (bridged_axis (map (fun r => (r.1 - 100)%Q) ex_rows_gaps)
                  [0; 2; 3; 4; 6]%nat (1 # 2)).
Proof.
  split; [reflexivity|]. split; [simpl; repeat split|].
  split; [reflexivity|].
  apply (bridged_axis_zero_based_increasing ex_setup_half ex_rows_gaps 100
           (mkAxis (bridged_axis (map (fun r => (r.1 - 100)%Q) ex_rows_gaps)
                                 [0; 2; 3; 4; 6]%nat (1 # 2))
                   [0; 2; 3; 4; 6]%nat (Some [1; 4]%nat))).
  - reflexivity.
  - simpl; repeat split.
  - reflexivity.
  - reflexivity.
Defined.

(** ** The resample grid *)

Lemma below_ceiling (q : Q) (i : nat) :
  (i < Z.to_nat (Qceiling q))%nat → (inject_Z (Z.of_nat i) < q)%Q.
Proof.
  intros Hi.
  assert (Z.of_nat i <= Qceiling q - 1)%Z as Hle by lia.
  rewrite Zle_Qle in Hle.
  eapply Qle_lt_trans; [exact Hle|]. apply Qceiling_lt.
Qed.

Lemma arange_positive_step start stop step :
  (0 < step)%Q →
  np.arange start stop step =
    Ok (map (fun i => (start + inject_Z (Z.of_nat i) * step)%Q)
            (seq 0 (Z.to_nat (Qceiling ((stop - start) / step))))).
Proof.
  intros Hstep. unfold np.arange.
  destruct (Qeq_bool step 0) eqn:E; [|done].
  apply Qeq_bool_eq in E. rewrite E in Hstep. by apply Qlt_irrefl in Hstep.
Qed.

(** Without rounding, the grid of a non-empty axis and a positive interval
    has [ceil((cumulativeTime[last] - cumulativeTime[0]) / dtResample)]
    points, point [i] is [cumulativeTime[0] + i * dtResample], and every
    point lies strictly before [cumulativeTime[last]].  Doubles round, and
    the count and the strict bound do not survive rounding: see
    [resample_grid_rounded] below. *)
Theorem resample_grid_ceiling tc dt first final :
  head tc = Some first → last tc = Some final → (0 < dt)%Q →
  ∃ grid,
    resample_grid tc dt = Ok grid ∧
    length grid = Z.to_nat (Qceiling ((final - first) / dt)) ∧
    (∀ i, (i < length grid)%nat →
          grid !! i = Some (first + inject_Z (Z.of_nat i) * dt)%Q) ∧
    (∀ i x y, grid !! i = Some x → grid !! S i = Some y → (y - x == dt)%Q) ∧
    Forall (fun t => (t < final)%Q) grid.
Proof.
  intros Hfirst Hlast Hdt. unfold resample_grid, py_index, py_last.
  rewrite head_lookup in Hfirst. rewrite Hfirst, Hlast. simpl.
  rewrite (arange_positive_step _ _ _ Hdt).
  set (n := Z.to_nat (Qceiling ((final - first) / dt))).
  set (point := fun i : nat => (first + inject_Z (Z.of_nat i) * dt)%Q).
  assert (∀ i x, map point (seq 0 n) !! i = Some x → x = point i ∧ (i < n)%nat)
    as Hpoint.
  { intros i x Hx. rewrite list_lookup_fmap in Hx.
    destruct (seq 0 n !! i) as [k|] eqn:Hk; [|done].
    apply lookup_seq in Hk as [-> Hk]. injection Hx as <-. done. }
  eexists. split; [reflexivity|].
  split; [by rewrite length_map, length_seq|].
  split; [|split].
  - rewrite length_map, length_seq. intros i Hi.
    rewrite list_lookup_fmap, lookup_seq_lt; done.
  - intros i x y Hx Hy.
    apply Hpoint in Hx as [-> _]. apply Hpoint in Hy as [-> _].
    unfold point. rewrite Nat2Z.inj_succ. unfold Z.succ.
    rewrite inject_Z_plus. ring.
  - apply Forall_forall. intros t Ht.
    apply list_elem_of_lookup in Ht as [i Hi].
    apply Hpoint in Hi as [-> Hi]. unfold point.
    apply below_ceiling in Hi.
    assert ((final - first) / dt * dt == final - first)%Q as Hq
      by (field; lra).
    apply (Qmult_lt_compat_r _ _ dt Hdt) in Hi. rewrite Hq in Hi. lra.
Qed.

Lemma resample_grid_ceiling_witness :
  ∃ grid,
    resample_grid [0; 1; 5 # 2]%Q 1 = Ok grid ∧
    length grid = 3%nat ∧
    Forall (fun t => (t < 5 # 2)%Q) grid.
Proof.
  destruct (resample_grid_ceiling [0; 1; 5 # 2]%Q 1 0 (5 # 2))
    as (grid & Hgrid & Hlen & _ & _ & Hbefore).
  - reflexivity.
  - reflexivity.
  - reflexivity.
  - exists grid. split; [exact Hgrid|]. split; [exact Hlen|exact Hbefore].
Defined.

(** C4 as stated fails: an axis ending at 2.5 s resampled every second has
    the three points 0, 1, 2, not floor(2.5) = 2 of them. *)
Lemma resample_grid_length_not_floor :
  ¬ (∀ tc dt first final grid,
       head tc = Some first → last tc = Some final → (0 < dt)%Q →
       resample_grid tc dt = Ok grid →
       Z.of_nat (length grid) = Qfloor ((final - first) / dt)).
Proof.
  intros H.
  specialize (H [0; 1; 5 # 2]%Q 1%Q 0%Q (5 # 2)%Q [0 + 0 * 1; 0 + 1 * 1; 0 + 2 * 1]%Q
                eq_refl eq_refl eq_refl eq_refl).
  vm_compute in H. discriminate H.
Qed.

(** *** The grid in floating point *)

(** **** Powers of two *)

Lemma pow2_pos e : (0 < 2 ^ e)%Q.
Proof. by apply Qpower_0_lt. Qed.

Lemma pow2_plus a b : (2 ^ (a + b) == 2 ^ a * 2 ^ b)%Q.
Proof. by apply Qpower_plus. Qed.

Lemma pow2_lt a b : (a < b)%Z → (2 ^ a < 2 ^ b)%Q.
Proof. intros H. by apply Qpower_lt_compat_l. Qed.

Lemma pow2_le a b : (a <= b)%Z → (2 ^ a <= 2 ^ b)%Q.
Proof. intros H. by apply Qpower_le_compat_l. Qed.

Lemma pow2_lt_inv a b : (2 ^ a < 2 ^ b)%Q → (a < b)%Z.
Proof. intros H. by apply (Qpower_lt_compat_l_inv 2). Qed.

Lemma pow2_inject n : (0 <= n)%Z → (inject_Z (2 ^ n) == 2 ^ n)%Q.
Proof. intros H. by rewrite Zpower_Qpower. Qed.

(** [x / 2^e] as a product. *)
Lemma scale_div x e : (x / 2 ^ e == x * 2 ^ (- e))%Q.
Proof. rewrite Qpower_opp. reflexivity. Qed.

Lemma scale_bounds x e lo hi :
  (2 ^ lo <= x / 2 ^ e)%Q ∧ (x / 2 ^ e < 2 ^ hi)%Q ↔
  (2 ^ (lo + e) <= x)%Q ∧ (x < 2 ^ (hi + e))%Q.
Proof.
  pose proof (pow2_pos e) as He.
  rewrite !pow2_plus. split; intros [H1 H2]; split.
  - apply Qle_shift_div_l in H1 || idtac.
    apply (Qmult_le_compat_r _ _ (2 ^ e)) in H1; [|lra].
    assert (x / 2 ^ e * 2 ^ e == x)%Q as Hx by (field; lra).
    by rewrite Hx in H1.
  - apply (Qmult_lt_compat_r _ _ (2 ^ e)) in H2; [|done].
    assert (x / 2 ^ e * 2 ^ e == x)%Q as Hx by (field; lra).
    by rewrite Hx in H2.
  - apply Qle_shift_div_l; done.
  - apply Qlt_shift_div_r; done.
Qed.

(** **** The exponent of a double *)

Lemma binade_spec x :
  (0 < x)%Q → (2 ^ (52 + binade x) <= x)%Q ∧ (x < 2 ^ (53 + binade x))%Q.
Proof.
  intros Hx. unfold binade.
  assert (Qred x == x)%Q as Hred by apply Qred_correct.
  destruct (Qred x) as [a b] eqn:Hab. cbn [Qnum Qden].
  assert (0 < a)%Z as Ha.
  { rewrite <- Hred in Hx. unfold Qlt in Hx. simpl in Hx. lia. }
  set (la := Z.log2 a). set (lb := Z.log2 (Z.pos b)).
  destruct (Z.log2_spec a Ha) as [Ha1 Ha2]. fold la in Ha1, Ha2.
  destruct (Z.log2_spec (Z.pos b) eq_refl) as [Hb1 Hb2]. fold lb in Hb1, Hb2.
  assert (0 <= la)%Z as Hla by apply Z.log2_nonneg.
  assert (0 <= lb)%Z as Hlb by apply Z.log2_nonneg.
  set (e0 := (la - lb - 52)%Z).
  assert (x * inject_Z (Z.pos b) == inject_Z a)%Q as Hxb.
  { rewrite <- Hred. unfold Qeq. simpl. lia. }
  assert (0 < inject_Z (Z.pos b))%Q as Hbpos by (unfold Qlt; simpl; lia).
  assert (2 ^ (51 + e0) < x)%Q as Hlow.
  { apply (Qmult_lt_r _ _ (inject_Z (Z.pos b)) Hbpos). rewrite Hxb.
    apply Qlt_le_trans with (2 ^ (51 + e0) * 2 ^ (lb + 1))%Q.
    - apply Qmult_lt_l; [apply pow2_pos|].
      rewrite <- pow2_inject by lia. by rewrite <- Zlt_Qlt.
    - rewrite <- pow2_plus. replace (51 + e0 + (lb + 1))%Z with la
        by (unfold e0; lia).
      rewrite <- pow2_inject by lia. by rewrite <- Zle_Qle. }
  assert (x < 2 ^ (53 + e0))%Q as Hhigh.
  { apply (Qmult_lt_r _ _ (inject_Z (Z.pos b)) Hbpos). rewrite Hxb.
    apply Qlt_le_trans with (2 ^ (53 + e0) * 2 ^ lb)%Q.
    - rewrite <- pow2_plus. replace (53 + e0 + lb)%Z with (la + 1)%Z
        by (unfold e0; lia).
      rewrite <- pow2_inject by lia. by rewrite <- Zlt_Qlt.
    - apply Qmult_le_l; [apply pow2_pos|].
      rewrite <- pow2_inject by lia. by rewrite <- Zle_Qle. }
  destruct (Qlt_bool _ _) eqn:E.
  - apply Qlt_bool_iff in E. rewrite Hred in E.
    apply (Qmult_lt_r _ _ (2 ^ e0) (pow2_pos e0)) in E.
    assert (x / 2 ^ e0 * 2 ^ e0 == x)%Q as Hq
      by (field; pose proof (pow2_pos e0); lra).
    rewrite Hq, <- pow2_plus in E.
    replace (52 + (e0 - 1))%Z with (51 + e0)%Z by lia.
    replace (53 + (e0 - 1))%Z with (52 + e0)%Z by lia.
    split; [by apply Qlt_le_weak|done].
  - split; [|done].
    destruct (Qlt_le_dec x (2 ^ (52 + e0))) as [Hlt|Hle]; [|done].
    exfalso.
    assert (Qlt_bool (Qred x / 2 ^ e0) (2 ^ 52) = true) as E'.
    { apply Qlt_bool_iff. rewrite Qred_correct.
      apply Qlt_shift_div_r; [apply pow2_pos|]. by rewrite <- pow2_plus. }
    rewrite Hab in E'. congruence.
Qed.

Lemma binade_unique x e :
  (2 ^ (52 + e) <= x)%Q → (x < 2 ^ (53 + e))%Q → binade x = e.
Proof.
  intros H1 H2.
  assert (0 < x)%Q as Hx
    by (eapply Qlt_le_trans; [apply (pow2_pos (52 + e))|done]).
  destruct (binade_spec x Hx) as [H3 H4].
  assert (2 ^ (52 + e) < 2 ^ (53 + binade x))%Q as Ha
    by (by eapply Qle_lt_trans).
  assert (2 ^ (52 + binade x) < 2 ^ (53 + e))%Q as Hb
    by (by eapply Qle_lt_trans).
  apply pow2_lt_inv in Ha, Hb. lia.
Qed.

Lemma binade_proper x y : (x == y)%Q → binade x = binade y.
Proof. intros H. unfold binade. by rewrite (Qred_complete x y H). Qed.

Lemma binade_mono x y : (0 < x)%Q → (x <= y)%Q → (binade x <= binade y)%Z.
Proof.
  intros Hx Hxy.
  assert (0 < y)%Q as Hy by (by eapply Qlt_le_trans).
  destruct (binade_spec x Hx) as [H1 _].
  destruct (binade_spec y Hy) as [_ H2].
  assert (2 ^ (52 + binade x) < 2 ^ (53 + binade y))%Q as H.
  { eapply Qle_lt_trans; [exact H1|]. by eapply Qle_lt_trans. }
  apply pow2_lt_inv in H. lia.
Qed.

(** **** Rounding to the nearest integer *)

Lemma round_half_even_proper x y :
  (x == y)%Q → round_half_even x = round_half_even y.
Proof.
  intros H. unfold round_half_even.
  assert (Qfloor x = Qfloor y) as -> by (by apply Qfloor_comp).
  assert (x - inject_Z (Qfloor y) == y - inject_Z (Qfloor y))%Q as Hr
    by (by rewrite H).
  by rewrite (Qcompare_comp _ _ Hr _ _ (Qeq_refl (1 # 2))).
Qed.

Lemma round_half_even_Z z : round_half_even (inject_Z z) = z.
Proof.
  unfold round_half_even. rewrite Qfloor_Z.
  assert (inject_Z z - inject_Z z == 0)%Q as Hr by ring.
  by rewrite (Qcompare_comp _ _ Hr _ _ (Qeq_refl (1 # 2))).
Qed.

Lemma round_half_even_cases x :
  round_half_even x = Qfloor x ∨ round_half_even x = (Qfloor x + 1)%Z.
Proof.
  unfold round_half_even.
  destruct (Qcompare _ _); [destruct (Z.even _)|..]; auto.
Qed.

Lemma round_half_even_mono x y :
  (x <= y)%Q → (round_half_even x <= round_half_even y)%Z.
Proof.
  intros Hxy. pose proof (Qfloor_resp_le x y Hxy) as Hf.
  destruct (Z.eq_dec (Qfloor x) (Qfloor y)) as [Heq|Hne].
  2: { destruct (round_half_even_cases x) as [-> | ->],
                (round_half_even_cases y) as [-> | ->]; lia. }
  unfold round_half_even. rewrite <- Heq.
  set (f := Qfloor x).
  destruct (Qcompare_spec (x - inject_Z f) (1 # 2)) as [Ex|Ex|Ex];
    destruct (Qcompare_spec (y - inject_Z f) (1 # 2)) as [Ey|Ey|Ey];
    try (destruct (Z.even f)); try lia; exfalso; lra.
Qed.

Lemma round_half_even_between x (a b : Z) :
  (inject_Z a <= x)%Q → (x <= inject_Z b)%Q →
  (a <= round_half_even x <= b)%Z.
Proof.
  intros Ha Hb. split.
  - rewrite <- (round_half_even_Z a). by apply round_half_even_mono.
  - rewrite <- (round_half_even_Z b). by apply round_half_even_mono.
Qed.

(** **** Rounding to the nearest double *)

Lemma round_double_zero x : (x == 0)%Q → round_double x = 0%Q.
Proof.
  intros H. unfold round_double.
  destruct (Qcompare_spec x 0) as [_|H'|H']; [done|lra..].
Qed.

Lemma round_double_pos x :
  (0 < x)%Q →
  (round_double x
   == inject_Z (round_half_even (x / 2 ^ binade x)) * 2 ^ binade x)%Q ∧
  (2 ^ 52 <= round_half_even (x / 2 ^ binade x) <= 2 ^ 53)%Z.
Proof.
  intros Hx. split.
  - unfold round_double.
    destruct (Qcompare_spec x 0) as [H'|H'|_]; [lra..|].
    apply Qred_correct.
  - destruct (binade_spec x Hx) as [H1 H2].
    apply round_half_even_between.
    + rewrite pow2_inject by lia.
      apply Qle_shift_div_l; [apply pow2_pos|]. by rewrite <- pow2_plus.
    + rewrite pow2_inject by lia. apply Qlt_le_weak.
      apply Qlt_shift_div_r; [apply pow2_pos|]. by rewrite <- pow2_plus.
Qed.

Lemma round_double_neg x :
  (x < 0)%Q → (round_double x == - round_double (- x))%Q.
Proof.
  intros Hx. unfold round_double at 1.
  destruct (Qcompare_spec x 0) as [H'|_|H']; [lra| |lra].
  rewrite Qred_correct.
  assert (0 < - x)%Q as Hpos by lra.
  destruct (round_double_pos (- x) Hpos) as [-> _]. reflexivity.
Qed.

Lemma round_double_pos_sign x : (0 < x)%Q → (0 < round_double x)%Q.
Proof.
  intros Hx. destruct (round_double_pos x Hx) as [-> [Hm _]].
  apply Qmult_lt_0_compat; [|apply pow2_pos].
  change 0%Q with (inject_Z 0). rewrite <- Zlt_Qlt. lia.
Qed.

Lemma round_double_proper x y :
  (x == y)%Q → (round_double x == round_double y)%Q.
Proof.
  intros H. unfold round_double.
  rewrite (Qcompare_comp _ _ H _ _ (Qeq_refl 0)).
  destruct (Qcompare y 0); [reflexivity|..]; rewrite !Qred_correct.
  - assert (- x == - y)%Q as Hn by (by rewrite H).
    rewrite (binade_proper _ _ Hn).
    assert (- x / 2 ^ binade (- y) == - y / 2 ^ binade (- y))%Q as Hs
      by (by rewrite H).
    by rewrite (round_half_even_proper _ _ Hs).
  - rewrite (binade_proper _ _ H).
    assert (x / 2 ^ binade y == y / 2 ^ binade y)%Q as Hs by (by rewrite H).
    by rewrite (round_half_even_proper _ _ Hs).
Qed.

Lemma round_double_opp x : (round_double (- x) == - round_double x)%Q.
Proof.
  destruct (Q_dec x 0) as [[Hlt|Hgt]|Heq].
  - rewrite (round_double_neg x Hlt). ring.
  - assert (- x < 0)%Q as Hn by lra.
    rewrite (round_double_neg (- x) Hn).
    assert (- - x == x)%Q as Hxx by ring.
    by rewrite (round_double_proper _ _ Hxx).
  - rewrite (round_double_zero x Heq).
    assert (- x == 0)%Q as Hn by lra.
    by rewrite (round_double_zero _ Hn).
Qed.

Lemma round_double_mono_pos x y :
  (0 < x)%Q → (x <= y)%Q → (round_double x <= round_double y)%Q.
Proof.
  intros Hx Hxy.
  assert (0 < y)%Q as Hy by (by eapply Qlt_le_trans).
  destruct (round_double_pos x Hx) as [-> [Hx1 Hx2]].
  destruct (round_double_pos y Hy) as [-> [Hy1 Hy2]].
  pose proof (binade_mono x y Hx Hxy) as He.
  destruct (Z.eq_dec (binade x) (binade y)) as [Heq|Hne].
  - rewrite Heq. apply Qmult_le_compat_r; [|apply Qlt_le_weak, pow2_pos].
    rewrite <- Zle_Qle. apply round_half_even_mono.
    apply Qmult_le_compat_r; [done|].
    apply Qlt_le_weak, Qinv_lt_0_compat, pow2_pos.
  - apply Qle_trans with (2 ^ 53 * 2 ^ binade x)%Q.
    { apply Qmult_le_compat_r; [|apply Qlt_le_weak, pow2_pos].
      rewrite <- (pow2_inject 53) by lia. by rewrite <- Zle_Qle. }
    apply Qle_trans with (2 ^ 52 * 2 ^ binade y)%Q.
    { rewrite <- !pow2_plus. apply pow2_le. lia. }
    apply Qmult_le_compat_r; [|apply Qlt_le_weak, pow2_pos].
    rewrite <- (pow2_inject 52) by lia. by rewrite <- Zle_Qle.
Qed.

Lemma round_double_mono x y :
  (x <= y)%Q → (round_double x <= round_double y)%Q.
Proof.
  intros Hxy.
  destruct (Q_dec x 0) as [[Hx|Hx]|Hx].
  - destruct (Q_dec y 0) as [[Hy|Hy]|Hy].
    + rewrite (round_double_neg x Hx), (round_double_neg y Hy).
      assert (round_double (- y) <= round_double (- x))%Q
        by (apply round_double_mono_pos; lra).
      lra.
    + rewrite (round_double_neg x Hx).
      pose proof (round_double_pos_sign y Hy).
      assert (0 < round_double (- x))%Q
        by (apply round_double_pos_sign; lra).
      lra.
    + rewrite (round_double_neg x Hx), (round_double_zero y Hy).
      assert (0 < round_double (- x))%Q
        by (apply round_double_pos_sign; lra).
      lra.
  - by apply round_double_mono_pos.
  - rewrite (round_double_zero x Hx).
    destruct (Q_dec y 0) as [[Hy|Hy]|Hy].
    + lra.
    + apply Qlt_le_weak. by apply round_double_pos_sign.
    + by rewrite (round_double_zero y Hy).
Qed.

(** A positive number whose significand is an integer at its own exponent
    is a double. *)
Lemma round_double_exact x (k : Z) :
  (0 < x)%Q → (x == inject_Z k * 2 ^ binade x)%Q → (round_double x == x)%Q.
Proof.
  intros Hx Hk. destruct (round_double_pos x Hx) as [-> _].
  assert (x / 2 ^ binade x == inject_Z k)%Q as Hs.
  { rewrite Hk at 1. field. pose proof (pow2_pos (binade x)). lra. }
  rewrite (round_half_even_proper _ _ Hs), round_half_even_Z. by rewrite <- Hk.
Qed.

Lemma round_double_idempotent_pos x :
  (0 < x)%Q → (round_double (round_double x) == round_double x)%Q.
Proof.
  intros Hx. pose proof (round_double_pos_sign x Hx) as Hv.
  destruct (round_double_pos x Hx) as [Hval [Hm1 Hm2]].
  set (m := round_half_even (x / 2 ^ binade x)) in *.
  set (e := binade x) in *.
  destruct (Z.eq_dec m (2 ^ 53)%Z) as [Hm|Hm].
  - assert (round_double x == inject_Z (2 ^ 52) * 2 ^ (e + 1))%Q as Hval'.
    { rewrite Hval, Hm, (pow2_inject 53), (pow2_inject 52) by lia.
      rewrite <- !pow2_plus.
      by replace (53 + e)%Z with (52 + (e + 1))%Z by lia. }
    assert (binade (round_double x) = (e + 1)%Z) as He.
    { apply binade_unique; rewrite Hval', (pow2_inject 52), <- pow2_plus by lia.
      - apply Qle_refl.
      - apply pow2_lt. lia. }
    apply (round_double_exact _ (2 ^ 52)%Z); [done|]. by rewrite He.
  - assert (binade (round_double x) = e) as He.
    { apply binade_unique; rewrite Hval, pow2_plus.
      - apply Qmult_le_compat_r; [|apply Qlt_le_weak, pow2_pos].
        rewrite <- (pow2_inject 52) by lia. by rewrite <- Zle_Qle.
      - apply Qmult_lt_compat_r; [apply pow2_pos|].
        rewrite <- (pow2_inject 53) by lia. rewrite <- Zlt_Qlt. lia. }
    apply (round_double_exact _ m); [done|]. by rewrite He.
Qed.

Lemma round_double_idempotent x :
  (round_double (round_double x) == round_double x)%Q.
Proof.
  destruct (Q_dec x 0) as [[Hx|Hx]|Hx].
  - rewrite (round_double_proper _ _ (round_double_neg x Hx)).
    rewrite round_double_opp, (round_double_neg x Hx).
    assert (0 < - x)%Q as Hpos by lra.
    by rewrite (round_double_idempotent_pos _ Hpos).
  - by apply round_double_idempotent_pos.
  - by rewrite (round_double_zero x Hx).
Qed.

Lemma round_double_integer_pos z :
  (0 < z <= 2 ^ 53)%Z → (round_double (inject_Z z) == inject_Z z)%Q.
Proof.
  intros [Hz1 Hz2].
  assert (0 < inject_Z z)%Q as Hx.
  { change 0%Q with (inject_Z 0). by rewrite <- Zlt_Qlt. }
  destruct (binade_spec _ Hx) as [He1 He2].
  set (e := binade (inject_Z z)) in *.
  assert (e <= 1)%Z as He.
  { assert (2 ^ (52 + e) < 2 ^ 54)%Q as Hlt.
    { eapply Qle_lt_trans; [exact He1|].
      apply Qle_lt_trans with (2 ^ 53)%Q; [|by apply pow2_lt].
      rewrite <- (pow2_inject 53) by lia. by rewrite <- Zle_Qle. }
    apply pow2_lt_inv in Hlt. lia. }
  destruct (Z.eq_dec e 1%Z) as [He1'|Hne].
  - assert (z = 2 ^ 53)%Z as ->.
    { rewrite He1' in He1. change (52 + 1)%Z with 53%Z in He1.
      rewrite <- (pow2_inject 53) in He1 by lia.
      rewrite <- Zle_Qle in He1. lia. }
    apply (round_double_exact _ (2 ^ 52)%Z); [done|]. fold e. rewrite He1'.
    reflexivity.
  - apply (round_double_exact _ (z * 2 ^ (- e))%Z); [done|]. fold e.
    rewrite inject_Z_mult, (pow2_inject (- e)) by lia.
    rewrite <- Qmult_assoc, <- pow2_plus.
    replace (- e + e)%Z with 0%Z by lia. change (2 ^ 0)%Q with 1%Q. ring.
Qed.

Lemma Rounding_round_double : Rounding round_double.
Proof.
  split.
  - apply round_double_proper.
  - apply round_double_mono.
  - apply round_double_idempotent.
  - intros z Hz. destruct (Z.lt_trichotomy z 0) as [Hlt|[->|Hgt]].
    + assert (inject_Z z == - inject_Z (- z))%Q as Hn
        by (rewrite inject_Z_opp; ring).
      rewrite (round_double_proper _ _ Hn), round_double_opp.
      rewrite round_double_integer_pos by lia. by rewrite <- Hn.
    + reflexivity.
    + apply round_double_integer_pos. lia.
Qed.

(** No rounding at all is a rounding too: the exact arithmetic of the rest
    of this development. *)
Lemma Rounding_exact : Rounding (fun x => x).
Proof. split; [done|done|reflexivity|reflexivity]. Qed.

Lemma arange_fl_nonzero_step fl start stop step :
  (0 < step)%Q →
  np.arange_fl fl start stop step =
    Ok (map (fun i => match i with
                      | O => start
                      | S O => fl (start + step)%Q
                      | _ => fl (start + fl (inject_Z (Z.of_nat i)
                                             * fl (fl (start + step) - start)))%Q
                      end)
            (seq 0 (Z.to_nat (Qceiling (fl (fl (stop - start) / step)%Q))))).
Proof.
  intros Hstep. unfold np.arange_fl.
  destruct (Qeq_bool step 0) eqn:E; [|done].
  apply Qeq_bool_eq in E. rewrite E in Hstep. by apply Qlt_irrefl in Hstep.
Qed.

(** On an axis that starts at zero, entry [i] of the rounded grid is the
    rounded product [i * dt]. *)
Lemma arange_fl_point fl first dt i :
  Rounding fl → (first == 0)%Q → (fl dt == dt)%Q →
  (match i with
   | O => first
   | S O => fl (first + dt)%Q
   | _ => fl (first + fl (inject_Z (Z.of_nat i)
                          * fl (fl (first + dt) - first)))%Q
   end == fl (inject_Z (Z.of_nat i) * dt))%Q.
Proof.
  intros Hfl Hfirst Hdt.
  assert (Proper (Qeq ==> Qeq) fl) as Hproper by exact (fl_proper fl Hfl).
  assert (fl 0 == 0)%Q as Hzero.
  { apply (fl_integer fl Hfl 0%Z). vm_compute. discriminate. }
  destruct i as [|[|i]].
  - rewrite Hfirst. change (inject_Z (Z.of_nat 0)) with 0%Q.
    assert (0 * dt == 0)%Q as -> by ring. by rewrite Hzero.
  - apply Hproper. rewrite Hfirst. change (inject_Z (Z.of_nat 1)) with 1%Q.
    ring.
  - assert (fl (first + dt) == dt)%Q as Hnext.
    { rewrite <- Hdt at 2. apply Hproper. rewrite Hfirst. ring. }
    assert (fl (fl (first + dt) - first) == dt)%Q as Hdelta.
    { rewrite <- Hdt at 2. apply Hproper. rewrite Hnext, Hfirst. ring. }
    rewrite <- (fl_idempotent fl Hfl (inject_Z (Z.of_nat (S (S i))) * dt)).
    apply Hproper. rewrite Hdelta, Hfirst. ring.
Qed.

Lemma scatter_head x tl idx bridge :
  Forall (fun k => (1 ≤ k)%nat) idx →
  ∃ tl', np.scatter (x :: tl) idx bridge = x :: tl'.
Proof.
  unfold np.scatter. revert tl.
  induction idx as [|k idx IH]; intros tl Hidx; [by eexists|].
  apply Forall_cons in Hidx as [Hk Hidx]. simpl.
  destruct k as [|k]; [lia|]. apply IH, Hidx.
Qed.

(** The cumulative time axis that reaches the resampling starts at zero,
    whatever was trimmed. *)
Lemma resampled_axis_starts_at_zero setup (rows : Samples) relTime ax :
  Trim setup = true →
  select_axis setup rows relTime = Ok (Some ax) →
  head (time_cum ax) = Some 0%Q.
Proof.
  intros Htrim. unfold select_axis. rewrite Htrim. simpl.
  destruct (keep_mask _ _) as [mask|]; simpl; [|done].
  destruct (length (np.where_ mask) =? 0)%nat; [done|].
  intros [= <-]. cbn [time_cum]. unfold bridged_axis.
  destruct (scatter_head 0%Q (np.diff (np.gather relTime (np.where_ mask)))
              (breaks (np.where_ mask)) (disTimeAddBack_sec setup)
              (breaks_positive _)) as [tl' ->].
  reflexivity.
Qed.

(** C4, as the code has it.  The cumulative time axis that reaches the
    resampling starts at zero.  For such an axis with a last point that is
    not negative and a positive resample interval, both doubles, the grid
    [np.arange] builds has as many points as the ceiling of the quotient
    [cumulativeTime[last] / dtResample] computed in floating point, which is
    [floor(cumulativeTime[last] / dtResample)] or one more; point [i] is the
    product [i * dtResample] rounded to a double, so that a grid with a
    point starts at [cumulativeTime[0]]; and no point lies beyond
    [cumulativeTime[last]].  [fl] is the rounding of the arithmetic: any
    rounding with the properties [Rounding], among them rounding to the
    nearest double and no rounding at all. *)
Theorem resample_grid_rounded fl tc dt first final :
  Rounding fl →
  head tc = Some first → last tc = Some final →
  (first == 0)%Q → (0 <= final)%Q → (0 < dt)%Q →
  (fl dt == dt)%Q → (fl final == final)%Q →
  (final / dt < inject_Z (2 ^ 53))%Q →
  ∃ grid,
    resample_grid_fl fl tc dt = Ok grid ∧
    length grid = Z.to_nat (Qceiling (fl (final / dt)%Q)) ∧
    (Z.of_nat (length grid) = Qfloor (final / dt) ∨
     Z.of_nat (length grid) = (Qfloor (final / dt) + 1)%Z) ∧
    (∀ i x, grid !! i = Some x →
            (x == fl (inject_Z (Z.of_nat i) * dt))%Q ∧ (x <= final)%Q) ∧
    (grid ≠ [] → head grid = Some first).
Proof.
  intros Hfl Hfirst Hlast Hzero Hfinal Hdt Hdtd Hfinald Hbound.
  assert (Proper (Qeq ==> Qeq) fl) as Hproper by exact (fl_proper fl Hfl).
  set (q := (final / dt)%Q) in *.
  assert (fl (fl (final - first) / dt) == fl q)%Q as Hquot.
  { apply Hproper. unfold q.
    assert (fl (final - first) == final)%Q as ->; [|reflexivity].
    rewrite <- Hfinald at 2. apply Hproper. rewrite Hzero. ring. }
  assert (0 <= q)%Q as Hq0.
  { unfold q. apply Qle_shift_div_l; [done|]. by rewrite Qmult_0_l. }
  assert (q * dt == final)%Q as Hqdt by (unfold q; field; lra).
  set (n := Qfloor q).
  assert (inject_Z n <= q)%Q as Hn1 by apply Qfloor_le.
  assert (q < inject_Z (n + 1))%Q as Hn2 by apply Qlt_floor.
  assert (0 <= n)%Z as Hn0.
  { change 0%Z with (Qfloor 0). by apply Qfloor_resp_le. }
  assert (n + 1 <= 2 ^ 53)%Z as Hn53.
  { assert (inject_Z n < inject_Z (2 ^ 53))%Q as Hlt
      by (eapply Qle_lt_trans; [exact Hn1|exact Hbound]).
    rewrite <- Zlt_Qlt in Hlt. lia. }
  assert (inject_Z n <= fl q <= inject_Z (n + 1))%Q as [Hfl1 Hfl2].
  { split.
    - rewrite <- (fl_integer fl Hfl n) by lia. by apply (fl_monotone fl Hfl).
    - rewrite <- (fl_integer fl Hfl (n + 1)) by lia.
      apply (fl_monotone fl Hfl). by apply Qlt_le_weak. }
  assert (n <= Qceiling (fl q) <= n + 1)%Z as Hceil.
  { split.
    - rewrite <- (Qceiling_Z n). by apply Qceiling_resp_le.
    - rewrite <- (Qceiling_Z (n + 1)). by apply Qceiling_resp_le. }
  unfold resample_grid_fl, py_index, py_last.
  rewrite head_lookup in Hfirst. rewrite Hfirst, Hlast.
  cbn [mbind Res_bind].
  rewrite (arange_fl_nonzero_step fl _ _ _ Hdt).
  assert (Qceiling (fl (fl (final - first) / dt)%Q) = Qceiling (fl q)) as ->
    by (by apply Qceiling_comp).
  set (len := Z.to_nat (Qceiling (fl q))).
  eexists. split; [reflexivity|].
  split; [by rewrite length_map, length_seq|].
  split; [rewrite length_map, length_seq; unfold len; lia|].
  split.
  - intros i x Hx. rewrite list_lookup_fmap in Hx.
    destruct (seq 0 len !! i) as [k|] eqn:Hk; [|done].
    apply lookup_seq in Hk as [-> Hk]. cbn [Nat.add] in Hx.
    injection Hx as <-.
    pose proof (arange_fl_point fl first dt i Hfl Hzero Hdtd) as Hpoint.
    split; [exact Hpoint|]. rewrite Hpoint.
    rewrite <- Hfinald. apply (fl_monotone fl Hfl). rewrite <- Hqdt.
    apply Qmult_le_compat_r; [|by apply Qlt_le_weak].
    apply below_ceiling in Hk.
    destruct (Qlt_le_dec q (inject_Z (Z.of_nat i))) as [Hlt|Hle]; [|done].
    exfalso.
    assert (Z.of_nat i <= 2 ^ 53)%Z as Hi53.
    { assert (inject_Z (Z.of_nat i) < inject_Z (n + 1))%Q as Hlt'
        by (eapply Qlt_le_trans; [exact Hk|exact Hfl2]).
      rewrite <- Zlt_Qlt in Hlt'. lia. }
    assert (fl q <= inject_Z (Z.of_nat i))%Q as Hcontra.
    { rewrite <- (fl_integer fl Hfl (Z.of_nat i)) by lia.
      apply (fl_monotone fl Hfl). by apply Qlt_le_weak. }
    apply (Qlt_irrefl (fl q)). by eapply Qle_lt_trans.
  - intros Hne. destruct len as [|len']; [done|]. reflexivity.
Qed.

Lemma resample_grid_rounded_witness :
  ∃ grid,
    resample_grid_fl round_double [0%Q; double_2_1] double_0_7 = Ok grid ∧
    length grid = 4%nat ∧
    Qfloor (double_2_1 / double_0_7) = 3%Z ∧
    ∀ i x, grid !! i = Some x → (x <= double_2_1)%Q.
Proof.
  destruct (resample_grid_rounded round_double [0%Q; double_2_1] double_0_7
              0 double_2_1)
    as (grid & Hgrid & Hlen & _ & Hpoints & _).
  - exact Rounding_round_double.
  - reflexivity.
  - reflexivity.
  - reflexivity.
  - vm_compute. discriminate.
  - reflexivity.
  - vm_compute. reflexivity.
  - vm_compute. reflexivity.
  - reflexivity.
  - exists grid. split; [exact Hgrid|]. split; [exact Hlen|].
    split; [reflexivity|].
    intros i x Hx. by destruct (Hpoints i x Hx).
Defined.

(** Three runs on doubles.  An axis ending at 2.1 s resampled every 0.7 s
    has four points, one more than the quotient of the decimal numbers
    suggests. *)
Example resample_grid_double_2_1 :
  length <$> (match resample_grid_fl round_double [0%Q; double_2_1] double_0_7
              with Ok grid => Some grid | Raise _ => None end)
  = Some 4%nat.
Proof. vm_compute. reflexivity. Qed.

(** An axis ending at 1.5 s resampled every 0.3 s has five points: the
    quotient of the two doubles is above 5 and rounds to 5.  Without
    rounding the same two doubles give six. *)
Example resample_grid_double_1_5 :
  length <$> (match resample_grid_fl round_double [0; 3 # 2]%Q double_0_3
              with Ok grid => Some grid | Raise _ => None end)
  = Some 5%nat ∧
  length <$> (match resample_grid [0; 3 # 2]%Q double_0_3
              with Ok grid => Some grid | Raise _ => None end)
  = Some 6%nat.
Proof. split; vm_compute; reflexivity. Qed.

(** The axis of three bridges of 0.2 s, summed in doubles, resampled every
    0.2 s: the last grid point is the last axis point, not a point before
    it. *)
Example resample_grid_double_reaches_end :
  let d := double_0_2 in
  let axis := [0%Q; d; round_double (d + d);
               round_double (round_double (d + d) + d)] in
  match resample_grid_fl round_double axis d with
  | Ok grid => Some (length grid, last grid)
  | Raise _ => None
  end = Some (4%nat, last axis).
Proof. vm_compute. reflexivity. Qed.

(** With no rounding the rounded grid is the exact one, up to equality of
    rationals. *)
Lemma resample_grid_fl_exact tc dt grid :
  (0 < dt)%Q → resample_grid tc dt = Ok grid →
  ∃ grid', resample_grid_fl (fun x => x) tc dt = Ok grid' ∧
           Forall2 Qeq grid grid'.
Proof.
  intros Hdt. unfold resample_grid, resample_grid_fl.
  destruct (py_index tc 0) as [first|]; [|done].
  destruct (py_last tc) as [final|]; [|done]. cbn [mbind Res_bind].
  rewrite (arange_positive_step _ _ _ Hdt).
  rewrite (arange_fl_nonzero_step _ _ _ _ Hdt).
  intros [= <-]. eexists. split; [reflexivity|].
  apply Forall2_fmap, Forall_Forall2_diag, Forall_forall.
  intros [|[|i]] _.
  - change (inject_Z (Z.of_nat 0)) with 0%Q. ring.
  - change (inject_Z (Z.of_nat 1)) with 1%Q. ring.
  - ring.
Qed.

(** ** One fetch *)

Lemma insert_sorted_Forall (P : Q * Q → Prop) r rows :
  P r → Forall P rows → Forall P (np.insert_sorted r rows).
Proof.
  intros Hr. induction rows as [|r' rows IH]; intros Hrows; simpl.
  - by constructor.
  - apply Forall_cons in Hrows as [Hr' Hrows].
    destruct (Qlt_bool r.1 r'.1); repeat constructor; auto.
Qed.

Lemma insert_sorted_sorted r rows :
  StronglySorted by_secs rows → StronglySorted by_secs (np.insert_sorted r rows).
Proof.
  induction rows as [|r' rows IH]; intros Hs; simpl.
  - repeat constructor.
  - apply StronglySorted_inv in Hs as Hinv. destruct Hinv as [Hs' Hall].
    destruct (Qlt_bool r.1 r'.1) eqn:E.
    + apply Qlt_bool_iff in E. constructor; [exact Hs|].
      constructor; [unfold by_secs; lra|].
      eapply Forall_impl; [exact Hall|]. unfold by_secs. intros; simpl in *. lra.
    + assert (r'.1 <= r.1)%Q as Hle.
      { unfold Qlt_bool in E. apply negb_false_iff in E.
        by apply Qle_bool_iff in E. }
      constructor; [by apply IH|]. by apply insert_sorted_Forall.
Qed.

Lemma sort_by_secs_sorted rows : StronglySorted by_secs (np.sort_by_secs rows).
Proof.
  unfold np.sort_by_secs.
  assert (∀ acc, StronglySorted by_secs acc →
                 StronglySorted by_secs
                   (foldl (fun acc r => np.insert_sorted r acc) acc rows)) as H.
  { induction rows as [|r rows IH]; intros acc Hacc; simpl; [done|].
    by apply IH, insert_sorted_sorted. }
  apply H. constructor.
Qed.

Lemma filter_sorted (f : Q * Q → bool) rows :
  StronglySorted by_secs rows → StronglySorted by_secs (List.filter f rows).
Proof.
  induction 1 as [|r rows Hs IH Hall]; simpl; [constructor|].
  destruct (f r); [|exact IH]. constructor; [exact IH|].
  apply Forall_forall. intros x Hx. apply list_elem_of_In, filter_In in Hx as [Hx _].
  rewrite Forall_forall in Hall. apply Hall. by apply list_elem_of_In.
Qed.

Lemma sorted_non_decreasing rows :
  StronglySorted by_secs rows → non_decreasing (map fst rows).
Proof.
  induction 1 as [|r rows Hs IH Hall]; [done|].
  destruct rows as [|r' rows]; [done|].
  apply Forall_cons in Hall as [Hr _]. split; [exact Hr|exact IH].
Qed.

Lemma extend_window_spec start_ts end_ts recs rows :
  extend_window start_ts end_ts recs = Ok rows →
  non_decreasing (map fst rows) ∧
  Forall (fun r => (start_ts <= r.1 <= end_ts)%Q) rows.
Proof.
  unfold extend_window.
  match goal with |- context [if ?c then py_index ?v 0 else ?e] =>
    destruct (if c then py_index v 0 else e) as [start_val|]; simpl; [|done] end.
  match goal with |- context [if ?c then py_last ?v else ?e] =>
    destruct (if c then py_last v else e) as [end_val|]; simpl; [|done] end.
  intros [= <-]. split.
  - apply sorted_non_decreasing, filter_sorted, sort_by_secs_sorted.
  - apply Forall_forall. intros r Hr.
    apply list_elem_of_In, filter_In in Hr as [_ Hr].
    apply andb_true_iff in Hr as [H1 H2].
    apply Qle_bool_iff in H1, H2. done.
Qed.

(** C7, as the code has it.  The samples a successful fetch returns have
    non-decreasing timestamps, all within [window.start, window.end]
    inclusive; equal timestamps are kept. *)
Theorem get_history_sorted_in_window service st pv rows err start_ts :
  startTime st = Some start_ts →
  get_history service st pv = Ok (Some rows, err) →
  non_decreasing (map fst rows) ∧
  Forall (fun r => (start_ts <= r.1 <= endTime st)%Q) rows.
Proof.
  intros Hstart. unfold get_history. rewrite Hstart.
  destruct (service _ _ _ _) as [recs|]; [|done].
  destruct (extend_window start_ts (endTime st) recs) as [rows'|] eqn:Hext;
    [|done].
  intros [= <- <-]. by eapply extend_window_spec.
Qed.

Lemma get_history_sorted_in_window_witness :
  ∃ rows,
    get_history ex_service ex_state "A" = Ok (Some rows, None) ∧
    non_decreasing (map fst rows) ∧
    Forall (fun r => (100 <= r.1 <= 110)%Q) rows.
Proof.
  eexists. split; [vm_compute; reflexivity|].
  apply (get_history_sorted_in_window ex_service ex_state "A" _ None 100).
  - reflexivity.
  - vm_compute. reflexivity.
Defined.

(** C7 as stated fails: the archiver returned samples exactly at the window
    start and end, the two boundary samples are inserted next to them, and
    the fetch returns the timestamps 100, 100, 110, 110. *)
Lemma get_history_keeps_duplicates :
  ∃ rows,
    get_history ex_service ex_state "A" = Ok (Some rows, None) ∧
    map fst rows = [100; 100; 110; 110]%Q ∧
    ¬ strictly_increasing (map fst rows).
Proof.
  eexists. split; [vm_compute; reflexivity|].
  split; [reflexivity|].
  simpl. intros [H _]. vm_compute in H. discriminate H.
Qed.

(** ** The batch fetch *)

(** C1 at a failing input.  Signals "A" (fetched) and "B" (fetch fails):
    when the tasks complete in the order A, B the dataset maps "A" to its
    samples and "B" to the empty frame; when "B" completes first the entries
    are swapped, "A" is empty and "B" holds the samples of "A". *)
Theorem getHistory_completion_order :
  ∃ samples,
    get_history ex_service ex_state "A" = Ok (Some samples, None) ∧
    rawData (getHistory ex_service [0; 1]%nat ex_state).1
      = RawDict (<["B" := None]> (<["A" := Some samples]> ∅)) ∧
    rawData (getHistory ex_service [1; 0]%nat ex_state).1
      = RawDict (<["B" := Some samples]> (<["A" := None]> ∅)) ∧
    (getHistory ex_service [1; 0]%nat ex_state).2 = Ok ().
Proof.
  eexists. split; [vm_compute; reflexivity|].
  split; [vm_compute; reflexivity|].
  split; vm_compute; reflexivity.
Qed.

(** ** Alignment from stored raw data *)

Lemma raw_present_not_falsy (m : gmap string DataFrame) pv frame :
  m !! pv = Some frame → raw_falsy (RawDict m) = false.
Proof.
  intros Hpv. simpl. apply bool_decide_eq_false. intros Hsize.
  apply map_size_empty_iff in Hsize. subst m. by rewrite lookup_empty in Hpv.
Qed.

(** The steps of [alignHistory] up to the branch on [Trim], on a state that
    holds the reference signal. *)
Lemma alignHistory_to_branch service order flag st m pv rows t0 :
  rawData st = RawDict m → base_pv (alignSetup st) = Some pv →
  m !! pv = Some (Some rows) → head (map fst rows) = Some t0 →
  alignHistory service order flag st =
    match select_axis (alignSetup st) rows (map (fun r => (r.1 - t0)%Q) rows) with
    | Ok None => (set_synData (SynDict None [] []) st, Ok ())
    | Ok (Some ax) =>
        align_rest rows (map (fun r => (r.1 - t0)%Q) rows) ax
                   (set_synData (SynDict None [] []) st)
    | Raise e => (set_synData (SynDict None [] []) st, Raise e)
    end.
Proof.
  intros Hraw Hbase Hpv Ht0. unfold alignHistory.
  unfold mbind, M_bind, get, lift, modify, mret, M_ret. simpl.
  rewrite Hraw, (raw_present_not_falsy m pv _ Hpv), andb_false_r. simpl.
  rewrite Hraw, Hbase. simpl.
  unfold DataFrame, Samples in *. rewrite Hpv. simpl. unfold py_index.
  rewrite head_lookup in Ht0. rewrite Ht0.
  destruct (select_axis _ _ _) as [[ax|]|]; reflexivity.
Qed.

(** Without trimming the branch keeps every index in order and takes the
    relative times as the cumulative axis; it binds no [diff_idt]. *)
Lemma select_axis_no_trim setup (rows : Samples) relTime :
  Trim setup = false →
  select_axis setup rows relTime
  = Ok (Some (mkAxis relTime (seq 0 (length rows)) None)).
Proof. intros Htrim. unfold select_axis. by rewrite Htrim. Qed.

(** C2 at the failing inputs.  With [Trim = false] and a non-empty reference
    signal, [alignHistory] reaches [len(diff_idt)] with [diff_idt] never
    assigned: it raises [UnboundLocalError], and the stored result is the
    empty working dictionary. *)
Theorem alignHistory_no_trim_raises service order flag st m pv rows :
  Trim (alignSetup st) = false →
  rawData st = RawDict m → base_pv (alignSetup st) = Some pv →
  m !! pv = Some (Some rows) → rows ≠ [] →
  alignHistory service order flag st =
    (set_synData (SynDict None [] []) st, Raise UnboundLocalError).
Proof.
  intros Htrim Hraw Hbase Hpv Hrows.
  destruct rows as [|r rows]; [done|].
  rewrite (alignHistory_to_branch service order flag st m pv (r :: rows) r.1
             Hraw Hbase Hpv eq_refl).
  by rewrite select_axis_no_trim.
Qed.

Lemma alignHistory_no_trim_raises_witness :
  alignHistory ex_service [0; 1]%nat true (ex_state_raw (ex_setup false) SynInit)
  = (set_synData (SynDict None [] []) (ex_state_raw (ex_setup false) SynInit),
     Raise UnboundLocalError).
Proof.
  apply (alignHistory_no_trim_raises ex_service [0; 1]%nat true
           (ex_state_raw (ex_setup false) SynInit) ex_raw "A" ex_rows_A).
  - reflexivity.
  - reflexivity.
  - reflexivity.
  - vm_compute. reflexivity.
  - discriminate.
Defined.

Lemma where_from_all_false i mask :
  Forall (fun b => b = false) mask → np.where_from i mask = [].
Proof.
  revert i. induction mask as [|b mask IH]; intros i Hall; [done|].
  apply Forall_cons in Hall as [-> Hall]. simpl. by apply IH.
Qed.

Lemma range_mask_all_false vals r low high :
  r !! 0%nat = Some low → r !! 1%nat = Some high →
  Forall (fun v => ¬ (low <= v <= high)%Q) vals →
  ∃ mask, range_mask vals r = Ok mask ∧ Forall (fun b => b = false) mask.
Proof.
  intros Hlow Hhigh Hout. unfold range_mask, py_index.
  rewrite Hlow, Hhigh. simpl. eexists. split; [reflexivity|].
  apply Forall_map. eapply Forall_impl; [exact Hout|]. simpl.
  intros v Hv. apply andb_false_iff.
  destruct (Qle_bool low v) eqn:E1; [|by left].
  destruct (Qle_bool v high) eqn:E2; [|by right].
  apply Qle_bool_iff in E1, E2. exfalso. apply Hv. done.
Qed.

Lemma or_mask_all_false idt idt_k :
  Forall (fun b => b = false) idt → Forall (fun b => b = false) idt_k →
  Forall (fun b => b = false) (or_mask idt idt_k).
Proof.
  intros Hidt Hk. unfold or_mask. destruct (length idt =? 0)%nat; [done|].
  revert idt_k Hk. induction Hidt as [|b idt -> _ IH]; intros idt_k Hk; [constructor|].
  destruct Hk as [|b' idt_k -> Hk]; simpl; constructor; auto.
Qed.

Lemma mask_loop_all_false vals rs idt :
  out_of_range (Nested rs) vals → Forall (fun b => b = false) idt →
  ∃ mask, mask_loop vals rs idt = Ok mask ∧ Forall (fun b => b = false) mask.
Proof.
  simpl. intros Hout. revert idt.
  induction Hout as [|r rs (low & high & Hlow & Hhigh & Hr) _ IH]; intros idt Hidt.
  - by exists idt.
  - simpl.
    destruct (range_mask_all_false vals r low high Hlow Hhigh Hr)
      as (idt_k & -> & Hk).
    simpl. apply IH. by apply or_mask_all_false.
Qed.

Lemma select_axis_out_of_range setup (rows : Samples) relTime :
  Trim setup = true → out_of_range (val_range setup) (map snd rows) →
  select_axis setup rows relTime = Ok None.
Proof.
  intros Htrim Hout. unfold select_axis. rewrite Htrim. simpl.
  destruct (val_range setup) as [xs|rs].
  - simpl in Hout. subst xs. reflexivity.
  - destruct (mask_loop_all_false (map snd rows) rs [] Hout)
      as (mask & Hmask & Hfalse); [constructor|].
    simpl. rewrite Hmask. simpl. unfold np.where_.
    by rewrite where_from_all_false.
Qed.

(** C3, as the code has it.  With [Trim = true], a stored non-empty
    reference signal and no reference value inside any configured inclusive
    range, [alignHistory] returns normally without raising; no aligned
    dataset is produced, and the stored result is replaced by the empty
    working dictionary, whatever was stored before; the rest of the state is
    untouched. *)
Theorem alignHistory_out_of_range_returns service order flag st m pv rows :
  Trim (alignSetup st) = true →
  rawData st = RawDict m → base_pv (alignSetup st) = Some pv →
  m !! pv = Some (Some rows) → rows ≠ [] →
  out_of_range (val_range (alignSetup st)) (map snd rows) →
  alignHistory service order flag st =
    (set_synData (SynDict None [] []) st, Ok ()).
Proof.
  intros Htrim Hraw Hbase Hpv Hrows Hout.
  destruct rows as [|r rows]; [done|].
  rewrite (alignHistory_to_branch service order flag st m pv (r :: rows) r.1
             Hraw Hbase Hpv eq_refl).
  by rewrite select_axis_out_of_range.
Qed.

Lemma alignHistory_out_of_range_returns_witness :
  alignHistory ex_service [0; 1]%nat true (ex_state_raw ex_setup_default ex_frame)
  = (set_synData (SynDict None [] []) (ex_state_raw ex_setup_default ex_frame),
     Ok ()).
Proof.
  apply (alignHistory_out_of_range_returns ex_service [0; 1]%nat true
           (ex_state_raw ex_setup_default ex_frame) ex_raw "A" ex_rows_A).
  - reflexivity.
  - reflexivity.
  - reflexivity.
  - vm_compute. reflexivity.
  - discriminate.
  - simpl. constructor; [|constructor].
    exists 1000%Q, 100000%Q. split; [reflexivity|]. split; [reflexivity|].
    repeat constructor; intros [H _]; vm_compute in H; apply H; reflexivity.
Defined.

(** C3 as stated fails: the reference values 0, 5, 5, 5 are all below the
    range [1e3, 1e5]; the call returns normally, no exception reaches the
    caller, and the aligned frame stored before the call is gone. *)
Lemma alignHistory_out_of_range_no_exception :
  ∃ st',
    alignHistory ex_service [0; 1]%nat true
                 (ex_state_raw ex_setup_default ex_frame) = (st', Ok ()) ∧
    synData (ex_state_raw ex_setup_default ex_frame) = ex_frame ∧
    synData st' = SynDict None [] [] ∧
    synData st' ≠ ex_frame.
Proof.
  eexists. split; [vm_compute; reflexivity|].
  split; [reflexivity|]. split; [reflexivity|]. discriminate.
Qed.

(** The frame stored by a complete alignment of the sample data. *)
Example alignHistory_sample_frame :
  alignHistory ex_service [0; 1]%nat true (ex_state_raw (ex_setup true) SynInit)
  = (ex_state_raw (ex_setup true) ex_frame, Ok ()).
Proof. vm_compute. reflexivity. Qed.

(** An alignment interrupted after the rows of "A" and "B" (the third signal
    is missing from the raw data) leaves the working dictionary behind: the
    start time is 100, the timestamp of the trimmed first sample; the axis
    is 0, 1, 2; the row of "B" holds its values at the reference times 1, 2,
    3, not at the axis times. *)
Example alignHistory_interrupted :
  (alignHistory ex_service [] false ex_state_three).2 = Raise KeyError ∧
  working_dict (synData (alignHistory ex_service [] false ex_state_three).1)
  = Some (Some 100%Q, [0; 1; 2]%Q,
          [[Some 5; Some 5; Some 5]; [Some 10; Some 20; Some 30];
           [Some 0; Some 0; Some 0]]%Q).
Proof. split; vm_compute; reflexivity. Qed.

(** ** The synchronized start time *)

(** C5 at a failing input.  The reference "A" starts out of range (value 0
    at t = 100) and stays in range afterwards: the kept indices are 1, 2, 3
    with no break, the first kept timestamp is 101, and the logged start time
    is the timestamp of the dropped sample, 100. *)
Theorem sync_start_leading_trim :
  ∃ ax,
    select_axis (ex_setup true) ex_rows_A
                (map (fun r => (r.1 - 100)%Q) ex_rows_A) = Ok (Some ax) ∧
    idt ax = [1; 2; 3]%nat ∧
    diff_idt ax = Some [] ∧
    np.gather (map fst ex_rows_A) (idt ax) = [101; 102; 103]%Q ∧
    sync_start (map fst ex_rows_A) [] = Ok 100%Q.
Proof.
  eexists. split; [vm_compute; reflexivity|].
  repeat split; reflexivity.
Qed.

(** ** Projection of a signal onto the kept samples *)

Lemma non_decreasing_from_head l a j y :
  non_decreasing l → l !! 0%nat = Some a → l !! j = Some y → (a <= y)%Q.
Proof.
  revert l a. induction j as [|j IH]; intros l a Hs Ha Hy.
  - rewrite Ha in Hy. injection Hy as <-. apply Qle_refl.
  - destruct l as [|a' l]; [done|]. injection Ha as <-.
    destruct l as [|b l]; [done|]. destruct Hs as [Hab Hs].
    eapply Qle_trans; [exact Hab|]. eapply (IH (b :: l)); eauto.
Qed.

Lemma non_decreasing_to_last l j y z :
  non_decreasing l → l !! j = Some y → last l = Some z → (y <= z)%Q.
Proof.
  revert j y. induction l as [|a l IH]; intros j y Hs Hy Hz; [done|].
  destruct l as [|b l].
  - destruct j; [|done]. simpl in *. injection Hy as <-. injection Hz as <-.
    apply Qle_refl.
  - destruct Hs as [Hab Hs]. change (last (a :: b :: l)) with (last (b :: l)) in Hz.
    destruct j as [|j].
    + injection Hy as <-. eapply Qle_trans; [exact Hab|].
      eapply (IH 0%nat); eauto.
    + eapply (IH j); eauto.
Qed.

Lemma interp_seg_bracket xp fp x j xj xj1 fj fj1 :
  non_decreasing xp →
  xp !! j = Some xj → xp !! S j = Some xj1 →
  fp !! j = Some (Some fj) → fp !! S j = Some (Some fj1) →
  (xj <= x < xj1)%Q →
  ∃ v, np.interp_seg xp fp x = Some v ∧
       (v == fj + (fj1 - fj) / (xj1 - xj) * (x - xj))%Q.
Proof.
  revert xp fp. induction j as [|j IH]; intros xp fp Hs Hxj Hxj1 Hfj Hfj1 [Hlo Hhi].
  - destruct xp as [|a [|b xp]]; try done. destruct fp as [|f0 [|f1 fp]]; try done.
    injection Hxj as ->. injection Hxj1 as ->.
    injection Hfj as ->. injection Hfj1 as ->. simpl.
    assert (Qle_bool xj1 x = false) as -> by by apply Qle_bool_false.
    destruct (Qeq_bool xj x) eqn:E.
    + apply Qeq_bool_eq in E. exists fj. split; [done|].
      rewrite <- E. field. lra.
    + eexists. split; [reflexivity|]. ring.
  - destruct xp as [|a [|b xp]]; try done. destruct fp as [|f0 [|f1 fp]]; try done.
    destruct Hs as [Hab Hs]. simpl.
    assert (b <= xj)%Q as Hb
      by (eapply (non_decreasing_from_head (b :: xp)); eauto).
    assert (Qle_bool b x = true) as ->.
    { apply Qle_bool_iff. lra. }
    apply (IH (b :: xp) (f1 :: fp)); auto.
Qed.

Lemma interp1_bracket xp fp x j xj xj1 fj fj1 :
  non_decreasing xp →
  xp !! j = Some xj → xp !! S j = Some xj1 →
  fp !! j = Some (Some fj) → fp !! S j = Some (Some fj1) →
  (xj <= x < xj1)%Q →
  ∃ v, np.interp1 xp fp x = Some v ∧
       (v == fj + (fj1 - fj) / (xj1 - xj) * (x - xj))%Q.
Proof.
  intros Hs Hxj Hxj1 Hfj Hfj1 Hx. unfold np.interp1.
  destruct (last xp) as [z|] eqn:Hz.
  2: { apply last_None in Hz. by subst xp. }
  destruct (head xp) as [a|] eqn:Ha.
  2: { apply head_None in Ha. by subst xp. }
  simpl.
  assert (xj1 <= z)%Q as Hz' by (eapply non_decreasing_to_last; eauto).
  assert (a <= xj)%Q as Ha'.
  { rewrite head_lookup in Ha. eapply non_decreasing_from_head; eauto. }
  assert (Qlt_bool z x = false) as ->.
  { apply not_true_iff_false. rewrite Qlt_bool_iff. lra. }
  assert (Qlt_bool x a = false) as ->.
  { apply not_true_iff_false. rewrite Qlt_bool_iff. lra. }
  by eapply interp_seg_bracket.
Qed.

Lemma interp1_outside xp fp x first final :
  head xp = Some first → last xp = Some final →
  (x < first)%Q ∨ (final < x)%Q → np.interp1 xp fp x = None.
Proof.
  intros Hfirst Hfinal Hx. unfold np.interp1. rewrite Hfirst, Hfinal. simpl.
  destruct (Qlt_bool final x) eqn:E1; [done|].
  destruct (Qlt_bool x first) eqn:E2; [done|].
  apply not_true_iff_false in E1, E2. rewrite Qlt_bool_iff in E1, E2.
  destruct Hx; done.
Qed.

(** C6, as the code has it.  The row of a non-reference signal with at least
    two raw samples is the linear interpolation of its values, against its
    own relative-time axis (origin: its first timestamp), at the relative
    times [relTime[idt]] of the kept reference samples (reference timestamps
    minus the first reference timestamp), not at the bridged cumulative
    axis.  A queried time before the first or after the last sample of the
    signal gets the no-value marker; between two consecutive samples of an
    ascending axis it gets the value on the segment joining them. *)
Theorem project_row_interpolates setup relTime idt pv (rows : Samples) s0 :
  Some pv ≠ base_pv setup → (2 ≤ length rows)%nat →
  head (map fst rows) = Some s0 →
  let xp := map (fun r => (r.1 - s0)%Q) rows in
  let fp := map (fun r => Some r.2) rows in
  project_row setup relTime idt pv (Some rows)
    = Ok (map (np.interp1 xp fp) (np.gather relTime idt)) ∧
  (∀ x first final,
     head xp = Some first → last xp = Some final →
     (x < first)%Q ∨ (final < x)%Q → np.interp1 xp fp x = None) ∧
  (∀ x j tj vj tj1 vj1,
     non_decreasing (map fst rows) →
     rows !! j = Some (tj, vj) → rows !! S j = Some (tj1, vj1) →
     (tj - s0 <= x < tj1 - s0)%Q →
     ∃ v, np.interp1 xp fp x = Some v ∧
          (v == vj + (vj1 - vj) / ((tj1 - s0) - (tj - s0)) * (x - (tj - s0)))%Q).
Proof.
  intros Hpv Hlen Hs0 xp fp. split; [|split].
  - unfold project_row. rewrite bool_decide_eq_false_2 by done. simpl.
    destruct (length rows =? 1)%nat eqn:E1; [apply Nat.eqb_eq in E1; lia|].
    unfold py_index. rewrite head_lookup in Hs0. rewrite Hs0. simpl.
    unfold np.interp. rewrite !length_map.
    destruct (length rows =? 0)%nat eqn:E0; [apply Nat.eqb_eq in E0; lia|].
    by rewrite Nat.eqb_refl.
  - intros x first final. apply interp1_outside.
  - intros x j tj vj tj1 vj1 Hsorted Hj Hj1 Hx. unfold Samples in *.
    apply (interp1_bracket xp fp x j (tj - s0)%Q (tj1 - s0)%Q vj vj1).
    + clear -Hsorted. unfold xp.
      induction rows as [|r [|r' rows] IH]; [done..|].
      destruct Hsorted as [Hr Hsorted].
      split; [simpl in *; lra|by apply IH].
    + unfold xp. by rewrite list_lookup_fmap, Hj.
    + unfold xp. by rewrite list_lookup_fmap, Hj1.
    + unfold fp. by rewrite list_lookup_fmap, Hj.
    + unfold fp. by rewrite list_lookup_fmap, Hj1.
    + exact Hx.
Qed.

Lemma project_row_interpolates_witness :
  project_row (ex_setup true) (map (fun r => (r.1 - 100)%Q) ex_rows_A)
              [1; 2; 3]%nat "B" (Some ex_rows_B)
  = Ok (map (np.interp1 (map (fun r => (r.1 - 100)%Q) ex_rows_B)
                        (map (fun r => Some r.2) ex_rows_B))
            (np.gather (map (fun r => (r.1 - 100)%Q) ex_rows_A) [1; 2; 3]%nat)).
Proof.
  apply (project_row_interpolates (ex_setup true)
           (map (fun r => (r.1 - 100)%Q) ex_rows_A) [1; 2; 3]%nat "B"
           ex_rows_B 100).
  - discriminate.
  - simpl. lia.
  - reflexivity.
Defined.

(** C6 as stated fails: with the first reference sample trimmed the kept
    samples sit at the relative times 1, 2, 3 and at the bridged positions
    0, 1, 2; the row of "B" (0 at t = 0, 30 at t = 3) is 10, 20, 30, its
    interpolation at the relative times, not 0, 10, 20. *)
Lemma project_row_not_on_bridged_axis :
  ∃ ax row,
    select_axis (ex_setup true) ex_rows_A
                (map (fun r => (r.1 - 100)%Q) ex_rows_A) = Ok (Some ax) ∧
    project_row (ex_setup true) (map (fun r => (r.1 - 100)%Q) ex_rows_A)
                (idt ax) "B" (Some ex_rows_B) = Ok row ∧
    same_row row [Some 10; Some 20; Some 30]%Q ∧
    same_row (map (np.interp1 (map (fun r => (r.1 - 100)%Q) ex_rows_B)
                              (map (fun r => Some r.2) ex_rows_B))
                  (time_cum ax))
             [Some 0; Some 10; Some 20]%Q ∧
    ¬ same_row row
        (map (np.interp1 (map (fun r => (r.1 - 100)%Q) ex_rows_B)
                         (map (fun r => Some r.2) ex_rows_B))
             (time_cum ax)).
Proof.
  eexists. eexists. split; [vm_compute; reflexivity|].
  split; [vm_compute; reflexivity|].
  split; [repeat constructor|]. split; [repeat constructor|].
  intros H. vm_compute in H.
  apply Forall2_cons_1 in H as [H _]. inversion H as [x y Hxy|]; subst.
  vm_compute in Hxy. discriminate Hxy.
Qed.

(** ** The service endpoint *)

Lemma parse_time_truthy strptime a e :
  time_truthy a = true → parse_time strptime a = Raise e → e = ValueError.
Proof.
  destruct a as [|s|t]; simpl; [done| |done].
  intros _. destruct (strptime s); [done|]. by intros [= <-].
Qed.

Lemma complete_times_raises strptime endT startT dur e :
  complete_times strptime endT startT dur = Raise e → e = ValueError.
Proof.
  unfold complete_times.
  destruct (time_is_none endT), (time_truthy startT) eqn:Hs,
    (time_truthy endT) eqn:He, (num_truthy dur), (is_Some_bool dur),
    (time_is_none startT); simpl;
    repeat match goal with
    | |- context [parse_time strptime ?a] =>
        let E := fresh "E" in
        destruct (parse_time strptime a) eqn:E; simpl;
        [|apply parse_time_truthy in E; [|done]; subst]
    end; unfold mret, Res_ret; congruence.
Qed.

Lemma check_times_raises strptime endT startT dur e :
  check_times strptime endT startT dur = Raise e → e = ValueError.
Proof.
  unfold check_times.
  destruct (time_truthy startT) eqn:Hs, (time_truthy endT) eqn:He,
    (num_truthy dur); simpl; try done.
  destruct (parse_time strptime startT) eqn:E1; simpl;
    [|apply parse_time_truthy in E1; [|done]; congruence].
  destruct (parse_time strptime endT) eqn:E2; simpl;
    [|apply parse_time_truthy in E2; [|done]; congruence].
  destruct (Qlt_bool _ _); unfold mret, Res_ret; congruence.
Qed.

Lemma default_alignSetup_ok names :
  ∃ a, default_alignSetup (pvNames_of names) = Ok a.
Proof.
  destruct names as [|s|[|pv l]]; simpl; eexists; reflexivity.
Qed.

Lemma endpoint_of_unknown server :
  upper server ≠ "LCLS" → upper server ≠ "SSRL" →
  endpoint_of server = Raise ValueError.
Proof.
  intros H1 H2. unfold endpoint_of.
  by rewrite !bool_decide_eq_false_2.
Qed.

(** C9 fails on the code, by an omission in [set_property].  The
    constructor validates the server name: a name that is neither "LCLS" nor
    "SSRL" once upper-cased raises [ValueError].  [set_property], whose
    docstring says it sets the named property and whose branches for the
    start time, the end time, the duration and the alignment setup validate
    and store, has no branch for ['webServer']: the name passes the
    [hasattr] test and the value, a known server name as well as an unknown
    one, is dropped; the call returns normally and leaves the object, its
    endpoint included, as it was. *)
Theorem endpoint_checked_by_constructor_only strptime names server endT dur
    startT setup value st :
  upper server ≠ "LCLS" → upper server ≠ "SSRL" →
  init strptime names server endT dur startT setup = Raise ValueError ∧
  set_property strptime "webServer" value st = (st, Ok ()).
Proof.
  intros H1 H2. split.
  - unfold init.
    assert (∃ a, match setup with
                 | Some a => Ok a
                 | None => default_alignSetup (pvNames_of names)
                 end = Ok a) as [a ->].
    { destruct setup; [by eexists|apply default_alignSetup_ok]. }
    simpl.
    destruct (complete_times _ _ _ _) as [times|e] eqn:Ht; simpl.
    2: { by apply complete_times_raises in Ht as ->. }
    destruct (check_times _ _ _ _) as [[]|e] eqn:Hc; simpl.
    2: { by apply check_times_raises in Hc as ->. }
    by rewrite endpoint_of_unknown.
  - destruct value, st; reflexivity.
Qed.

Lemma endpoint_checked_by_constructor_only_witness :
  init ex_strptime PvNone "CERN" (Some "06/05/2023 08:08:08") (Some 4%Q)
       None None = Raise ValueError ∧
  set_property ex_strptime "webServer" (VStr "CERN") ex_state
  = (ex_state, Ok ()).
Proof.
  apply (endpoint_checked_by_constructor_only ex_strptime PvNone "CERN"
           (Some "06/05/2023 08:08:08") (Some 4%Q) None None
           (VStr "CERN") ex_state).
  - vm_compute. discriminate.
  - vm_compute. discriminate.
Defined.

(** The constructor accepts the two known names in any letter case. *)
Example init_known_server :
  webServer <$> (match init ex_strptime PvNone "ssrl"
                             (Some "06/05/2023 08:08:08") (Some 4%Q) None None
                 with Ok st => Some st | Raise _ => None end)
  = Some url_SSRL.
Proof. vm_compute. reflexivity. Qed.

(** At the failing input: setting the endpoint of a retriever of the LCLS
    archiver to the unknown name "CERN" raises nothing; the call returns
    normally and the object keeps its endpoint. *)
Lemma set_property_webServer_not_validated :
  set_property ex_strptime "webServer" (VStr "CERN") ex_state
  = (ex_state, Ok ()) ∧
  upper "CERN" ≠ "LCLS" ∧ upper "CERN" ≠ "SSRL" ∧
  webServer ex_state = url_LCLS.
Proof.
  split; [reflexivity|]. split; [vm_compute; discriminate|].
  split; [vm_compute; discriminate|reflexivity].
Qed.

(** A known name is dropped as well: the retriever of the LCLS archiver
    keeps its endpoint when asked for "SSRL". *)
Example set_property_webServer_known_name_dropped :
  set_property ex_strptime "webServer" (VStr "SSRL") ex_state
  = (ex_state, Ok ()) ∧
  webServer ex_state = url_LCLS ∧ url_LCLS ≠ url_SSRL.
Proof. split; [reflexivity|]. split; [reflexivity|discriminate]. Qed.

(** The sibling branch of [duration_hour] does validate. *)
Example set_property_duration_validated :
  set_property ex_strptime "duration_hour" (VStr "long") ex_state
  = (ex_state, Raise ValueError).
Proof. reflexivity. Qed.

(** ** The reference signal *)

Lemma ignores_ret {A} (a : A) : ignores_base_id (mret a).
Proof. by intros i st. Qed.

Lemma ignores_lift {A} (r : Res A) : ignores_base_id (lift r).
Proof. by intros i st. Qed.

Lemma ignores_bind {A B} (m : M A) (k : A → M B) :
  ignores_base_id m → (∀ a, ignores_base_id (k a)) →
  ignores_base_id (m ≫= k).
Proof.
  intros Hm Hk i st. unfold mbind, M_bind. rewrite Hm.
  destruct (m st) as [st' [a|e]]; simpl; [apply Hk|done].
Qed.

(** A continuation of [get] that reads the state without ['base_id']. *)
Lemma ignores_get_bind {B} (k : State → M B) :
  (∀ i st, k (with_base_id i st) = k st) →
  (∀ st, ignores_base_id (k st)) →
  ignores_base_id (get ≫= k).
Proof.
  intros Hread Hk i st. unfold mbind, M_bind, get. simpl.
  rewrite Hread. apply Hk.
Qed.

Lemma ignores_modify (f : State → State) :
  (∀ i st, f (with_base_id i st) = with_base_id i (f st)) →
  ignores_base_id (modify f).
Proof. intros Hf i st. unfold modify. simpl. by rewrite Hf. Qed.

Lemma append_raw_with_base_id data i st :
  append_raw data (with_base_id i st) = with_base_id i (append_raw data st).
Proof. unfold append_raw. simpl. by destruct (rawData st). Qed.

Lemma syn_set_vals_with_base_id vals i st :
  syn_set_vals vals (with_base_id i st) = with_base_id i (syn_set_vals vals st).
Proof. unfold syn_set_vals. simpl. by destruct (synData st). Qed.

Lemma syn_set_start_with_base_id t i st :
  syn_set_start t (with_base_id i st) = with_base_id i (syn_set_start t st).
Proof. unfold syn_set_start. simpl. by destruct (synData st). Qed.

Lemma syn_set_relTime_with_base_id rel i st :
  syn_set_relTime rel (with_base_id i st)
  = with_base_id i (syn_set_relTime rel st).
Proof. unfold syn_set_relTime. simpl. by destruct (synData st). Qed.

Lemma collect_results_ignores service completed :
  ignores_base_id (collect_results service completed).
Proof.
  induction completed as [|pv completed IH]; simpl; [apply ignores_ret|].
  apply ignores_get_bind; [done|]. intros st.
  apply ignores_bind; [apply ignores_lift|]. intros r.
  apply ignores_bind; [|done].
  apply ignores_modify, append_raw_with_base_id.
Qed.

Lemma getHistory_ignores service order :
  ignores_base_id (getHistory service order).
Proof.
  unfold getHistory.
  apply ignores_get_bind; [done|]. intros st.
  apply ignores_bind; [apply ignores_lift|]. intros _.
  apply ignores_bind; [by apply ignores_modify|]. intros _.
  apply ignores_bind; [apply collect_results_ignores|]. intros _.
  apply ignores_get_bind; [done|]. intros st'.
  by apply ignores_modify.
Qed.

Lemma fill_rows_ignores relTime idt i pvs :
  ignores_base_id (fill_rows relTime idt i pvs).
Proof.
  revert i. induction pvs as [|pv pvs IH]; intros i; simpl; [apply ignores_ret|].
  apply ignores_get_bind; [done|]. intros st.
  apply ignores_bind; [apply ignores_lift|]. intros raw_data.
  apply ignores_bind; [apply ignores_lift|]. intros row.
  apply ignores_bind; [|done].
  apply ignores_modify. intros j st'.
  by rewrite <- syn_set_vals_with_base_id.
Qed.

Lemma align_rest_ignores rows relTime ax :
  ignores_base_id (align_rest rows relTime ax).
Proof.
  unfold align_rest.
  apply ignores_bind; [apply ignores_lift|]. intros d.
  apply ignores_bind; [apply ignores_lift|]. intros start.
  apply ignores_bind; [apply ignores_modify, syn_set_start_with_base_id|].
  intros _.
  apply ignores_bind; [apply ignores_modify, syn_set_relTime_with_base_id|].
  intros _.
  apply ignores_get_bind; [done|]. intros st.
  apply ignores_bind; [apply ignores_modify, syn_set_vals_with_base_id|].
  intros _.
  apply ignores_bind; [apply fill_rows_ignores|]. intros _.
  apply ignores_bind.
  { apply ignores_modify. intros j st'.
    by rewrite <- syn_set_vals_with_base_id. }
  intros _.
  apply ignores_bind; [apply ignores_lift|]. intros final.
  apply ignores_get_bind; [done|]. intros st'.
  apply ignores_bind; [apply ignores_lift|]. intros reSample.
  destruct (length (syn_relTime st') =? 0)%nat; [apply ignores_ret|].
  apply ignores_bind; [apply ignores_lift|]. intros vals.
  apply ignores_bind; [apply ignores_modify, syn_set_vals_with_base_id|].
  intros _.
  apply ignores_bind; [apply ignores_modify, syn_set_relTime_with_base_id|].
  intros _. by apply ignores_modify.
Qed.

Lemma alignHistory_ignores service order flag :
  ignores_base_id (alignHistory service order flag).
Proof.
  unfold alignHistory.
  apply ignores_get_bind; [done|]. intros st0.
  apply ignores_bind.
  { destruct (flag && raw_falsy (rawData st0));
      [apply getHistory_ignores|apply ignores_ret]. }
  intros _.
  apply ignores_bind; [by apply ignores_modify|]. intros _.
  apply ignores_get_bind; [done|]. intros st.
  apply ignores_bind; [apply ignores_lift|]. intros ref.
  apply ignores_bind; [apply ignores_lift|]. intros rows.
  apply ignores_bind; [apply ignores_lift|]. intros t0.
  apply ignores_bind; [apply ignores_lift|]. intros [ax|].
  - apply align_rest_ignores.
  - apply ignores_ret.
Qed.

(** The stored pair may disagree: "B" is the signal of index 1, and the
    default [base_id = 0] is what gets stored with it. *)
Example set_base_pv_pair_disagrees :
  let st := (set_base_pv (Some "B") (Some 0%Z) (Flat [10; 5000]%Q) 1 1 true
                         ex_state).1 in
  base_pv (alignSetup st) = Some "B" ∧ base_id (alignSetup st) = Some 0%Z ∧
  pvNames st !! 1%nat = Some "B".
Proof. repeat split. Qed.

(** C10, as the code has it.  A call of [set_base_pv] whose [base_pv] is a
    non-empty name among the configured signals succeeds and stores the
    [base_id] it was given, whatever it is, next to [base_pv]; nothing
    recomputes it from the position of [base_pv].  Alignment never reads
    ['base_id']: changing it changes neither the outcome nor the rest of the
    final state. *)
Theorem set_base_pv_stores_base_id pv id vr bridge dt trim st :
  pv ≠ "" → pv ∈ pvNames st →
  set_base_pv (Some pv) id vr bridge dt trim st
  = (set_alignSetup
       (mkAlignSetup id (Some pv) (normalise_val_range vr) bridge dt trim) st,
     Ok ()) ∧
  (∀ service order flag i st',
     alignHistory service order flag (with_base_id i st')
     = (with_base_id i (alignHistory service order flag st').1,
        (alignHistory service order flag st').2)).
Proof.
  intros Hne Hin. split.
  - unfold set_base_pv, mbind, M_bind, get, lift, modify. simpl.
    destruct pv as [|c s]; [done|].
    by rewrite bool_decide_eq_true_2.
  - intros service order flag i st'. apply alignHistory_ignores.
Qed.

Lemma set_base_pv_stores_base_id_witness :
  set_base_pv (Some "B") (Some 0%Z) (Flat [10; 5000]%Q) 1 1 true ex_state
  = (set_alignSetup
       (mkAlignSetup (Some 0%Z) (Some "B") (Nested [[10; 5000]%Q]) 1 1 true)
       ex_state,
     Ok ()).
Proof.
  apply (set_base_pv_stores_base_id "B" (Some 0%Z) (Flat [10; 5000]%Q) 1 1
           true ex_state).
  - discriminate.
  - apply list_elem_of_In. simpl. auto.
Defined.

(** C10 as stated fails for the empty name: although it is among the
    configured signals, it counts as not given, the index is checked instead,
    and an index out of range makes the call fail. *)
Lemma set_base_pv_empty_name_refused :
  "" ∈ pvNames ex_state_blank ∧
  set_base_pv (Some "") (Some 5%Z) (Flat [10; 5000]%Q) 1 1 true ex_state_blank
  = (ex_state_blank, Raise ValueError).
Proof.
  split; [|reflexivity].
  apply list_elem_of_In. simpl. auto.
Qed.

(** * Further properties of the code *)

(** ** The keep-mask *)

Lemma in_range_b_iff r v : in_range_b r v = true ↔ in_range r v.
Proof.
  unfold in_range. destruct r as [|low [|high r]]; simpl.
  - split; [done|]. by intros (? & ? & ? & _).
  - split; [done|]. by intros (? & ? & _ & ? & _).
  - rewrite andb_true_iff, !Qle_bool_iff. split.
    + intros [??]. by exists low, high.
    + intros (? & ? & [= <-] & [= <-] & ?). done.
Qed.

Lemma range_mask_ok vals r :
  (2 ≤ length r)%nat → range_mask vals r = Ok (map (in_range_b r) vals).
Proof.
  destruct r as [|low [|high r]]; simpl; [lia..|]. intros _. reflexivity.
Qed.

Lemma or_mask_map (f g : Q → bool) vals :
  or_mask (map f vals) (map g vals) = map (fun v => f v || g v) vals.
Proof.
  unfold or_mask. rewrite length_map.
  destruct vals as [|v vals]; [done|]. simpl. f_equal.
  induction vals as [|w vals IH]; [done|]. simpl. by rewrite IH.
Qed.

Lemma mask_loop_from vals rs (f : Q → bool) :
  ranges_ok rs →
  mask_loop vals rs (map f vals)
  = Ok (map (fun v => f v || existsb (fun r => in_range_b r v) rs) vals).
Proof.
  intros Hok. revert f. induction Hok as [|r rs Hr _ IH]; intros f; simpl.
  - f_equal. apply map_ext. intros v. by rewrite orb_false_r.
  - rewrite (range_mask_ok vals r Hr). simpl. rewrite or_mask_map, IH.
    f_equal. apply map_ext. intros v. by rewrite orb_assoc.
Qed.

Lemma keep_mask_nested vals rs :
  ranges_ok rs →
  keep_mask (Nested rs) vals
  = Ok (match rs with
        | [] => []
        | _ => map (fun v => existsb (fun r => in_range_b r v) rs) vals
        end).
Proof.
  intros Hok. simpl. destruct Hok as [|r rs Hr Hok]; [done|]. simpl.
  rewrite (range_mask_ok vals r Hr). simpl.
  change (or_mask [] (map (in_range_b r) vals)) with (map (in_range_b r) vals).
  by rewrite mask_loop_from.
Qed.

Lemma existsb_in_some_range rs v :
  existsb (fun r => in_range_b r v) rs = true ↔ in_some_range rs v.
Proof.
  unfold in_some_range. rewrite existsb_exists, Exists_exists. split.
  - intros (r & Hr & Hv). exists r. split; [by apply list_elem_of_In|].
    by apply in_range_b_iff.
  - intros (r & Hr & Hv). exists r. split; [by apply list_elem_of_In|].
    by apply in_range_b_iff.
Qed.

Lemma elem_of_where_from k mask i :
  i ∈ np.where_from k mask ↔ (k ≤ i)%nat ∧ mask !! (i - k)%nat = Some true.
Proof.
  revert k. induction mask as [|b mask IH]; intros k; simpl.
  - split; [by intros ?%elem_of_nil|by intros [_ ?]].
  - assert (i ∈ np.where_from (S k) mask ↔
            (k < i)%nat ∧ (b :: mask) !! (i - k)%nat = Some true) as Hrest.
    { rewrite IH. split.
      - intros [Hle Hi]. split; [lia|].
        replace (i - k)%nat with (S (i - S k)) by lia. done.
      - intros [Hlt Hi]. split; [lia|].
        replace (i - k)%nat with (S (i - S k)) in Hi by lia. done. }
    destruct b.
    + rewrite elem_of_cons, Hrest. split.
      * intros [->|[Hlt Hi]]; [|split; [lia|done]].
        split; [lia|]. by rewrite Nat.sub_diag.
      * intros [Hle Hi]. destruct (decide (i = k)) as [->|Hne]; [by left|].
        right. split; [lia|done].
    + rewrite Hrest. split.
      * intros [Hlt Hi]. split; [lia|done].
      * intros [Hle Hi]. destruct (decide (i = k)) as [->|Hne].
        -- by rewrite Nat.sub_diag in Hi.
        -- split; [lia|done].
Qed.

(** X1.  With well-formed ranges the trim keep-mask is the logical OR of the
    inclusive membership tests: an index is kept exactly when the reference
    value there lies in at least one configured range. *)
Theorem kept_indices_in_some_range rs vals :
  ranges_ok rs →
  ∃ mask,
    keep_mask (Nested rs) vals = Ok mask ∧
    ∀ i, i ∈ np.where_ mask ↔ ∃ v, vals !! i = Some v ∧ in_some_range rs v.
Proof.
  intros Hok. eexists. split; [by apply keep_mask_nested|].
  intros i. unfold np.where_. rewrite elem_of_where_from, Nat.sub_0_r.
  destruct rs as [|r rs].
  - split; [by intros [_ ?]|]. intros (v & _ & Hv). by apply Exists_nil in Hv.
  - rewrite list_lookup_fmap. split.
    + intros [_ Hi]. destruct (vals !! i) as [v|]; [|done].
      exists v. split; [done|]. apply (existsb_in_some_range (r :: rs)).
      by injection Hi.
    + intros (v & -> & Hv). split; [lia|]. cbn [fmap option_fmap option_map].
      f_equal. by apply (existsb_in_some_range (r :: rs)).
Qed.

Lemma kept_indices_in_some_range_witness :
  ∃ mask,
    keep_mask (Nested [[1; 10]; [40; 60]]%Q) [5; 50; 20]%Q = Ok mask ∧
    ∀ i, i ∈ np.where_ mask ↔
         ∃ v, [5; 50; 20]%Q !! i = Some v ∧
              in_some_range [[1; 10]; [40; 60]]%Q v.
Proof.
  apply (kept_indices_in_some_range [[1; 10]; [40; 60]]%Q [5; 50; 20]%Q).
  repeat constructor.
Defined.

(** ** Shape and steps of the trimmed axis *)

Lemma length_cumsum_from acc l : length (np.cumsum_from acc l) = length l.
Proof. revert acc. induction l as [|x l IH]; intros acc; simpl; auto. Qed.

Lemma length_cumsum l : length (np.cumsum l) = length l.
Proof. destruct l; simpl; [done|]. by rewrite length_cumsum_from. Qed.

Lemma length_scatter l idx x : length (np.scatter l idx x) = length l.
Proof.
  unfold np.scatter. revert l. induction idx as [|i idx IH]; intros l; simpl;
    [done|]. by rewrite IH, length_insert.
Qed.

Lemma length_diff l : length (np.diff l) = (length l - 1)%nat.
Proof.
  induction l as [|x [|y l] IH]; [done..|]. simpl in *. rewrite IH. lia.
Qed.

Lemma length_diffZ l : length (np.diffZ l) = (length l - 1)%nat.
Proof.
  induction l as [|x [|y l] IH]; [done..|]. simpl in *. rewrite IH. lia.
Qed.

Lemma length_gather arr idx : length (np.gather arr idx) = length idx.
Proof. apply length_map. Qed.

Lemma length_bridged_axis relTime idt bridge :
  idt ≠ [] → length (bridged_axis relTime idt bridge) = length idt.
Proof.
  intros Hidt. unfold bridged_axis.
  rewrite length_cumsum, length_scatter. simpl.
  rewrite length_diff, length_gather. destruct idt; [done|]. simpl. lia.
Qed.

Lemma diffZ_lookup l q d :
  np.diffZ l !! q = Some d ↔
  ∃ a b, l !! q = Some a ∧ l !! S q = Some b ∧ d = (Z.of_nat b - Z.of_nat a)%Z.
Proof.
  revert q. induction l as [|x [|y l] IH]; intros q.
  - split; [done|]. by intros (? & ? & ? & _).
  - split; [done|]. intros (? & ? & _ & ? & _). done.
  - change (np.diffZ (x :: y :: l))
      with ((Z.of_nat y - Z.of_nat x)%Z :: np.diffZ (y :: l)).
    destruct q as [|q].
    + simpl. split.
      * intros [= <-]. by exists x, y.
      * intros (a & b & [= <-] & [= <-] & ->). done.
    + rewrite lookup_cons_ne_0 by done. simpl. apply IH.
Qed.

Lemma diff_lookup l q a b :
  l !! q = Some a → l !! S q = Some b → np.diff l !! q = Some (b - a)%Q.
Proof.
  revert q. induction l as [|x [|y l] IH]; intros q Ha Hb; [done..|].
  change (np.diff (x :: y :: l)) with ((y - x)%Q :: np.diff (y :: l)).
  destruct q as [|q].
  - simpl in *. by injection Ha as <-; injection Hb as <-.
  - simpl. by apply IH.
Qed.

Lemma elem_of_breaks idt p :
  p ∈ breaks idt ↔
  ∃ k a b, p = S k ∧ idt !! k = Some a ∧ idt !! S k = Some b ∧
           (1 < Z.of_nat b - Z.of_nat a)%Z.
Proof.
  unfold breaks, np.where_. rewrite list_elem_of_fmap. split.
  - intros (k & -> & Hk). apply elem_of_where_from in Hk as [_ Hk].
    rewrite Nat.sub_0_r, list_lookup_fmap in Hk.
    destruct (np.diffZ idt !! k) as [d|] eqn:Hd; [|done].
    apply diffZ_lookup in Hd as (a & b & Ha & Hb & ->).
    exists k, a, b. repeat split; try done.
    simpl in Hk. injection Hk as Hk. by apply Z.ltb_lt.
  - intros (k & a & b & -> & Ha & Hb & Hlt). exists k. split; [done|].
    apply elem_of_where_from. split; [lia|].
    rewrite Nat.sub_0_r, list_lookup_fmap.
    assert (np.diffZ idt !! k = Some (Z.of_nat b - Z.of_nat a)%Z) as ->
      by (apply diffZ_lookup; eauto).
    simpl. f_equal. by apply Z.ltb_lt.
Qed.

Lemma breaks_in_range idt :
  Forall (fun p => (1 ≤ p < length idt)%nat) (breaks idt).
Proof.
  apply Forall_forall. intros p Hp.
  apply elem_of_breaks in Hp as (k & a & b & -> & _ & Hb & _).
  apply lookup_lt_Some in Hb. lia.
Qed.

(** X2.  A trimmed alignment that keeps something has one axis point per
    kept sample; the kept indices are ascending positions of the reference
    signal, and every break position is a position from 1 on inside the
    kept-index sequence. *)
Theorem trimmed_axis_shape setup (rows : Samples) relTime ax :
  Trim setup = true →
  select_axis setup rows relTime = Ok (Some ax) →
  idt ax ≠ [] ∧
  length (time_cum ax) = length (idt ax) ∧
  increasing_nat (idt ax) ∧
  Forall (fun k => (k < length rows)%nat) (idt ax) ∧
  ∃ d, diff_idt ax = Some d ∧
       Forall (fun p => (1 ≤ p < length (idt ax))%nat) d.
Proof.
  intros Htrim. unfold select_axis. rewrite Htrim. simpl.
  destruct (keep_mask (val_range setup) (map snd rows)) as [mask|] eqn:Hmask;
    simpl; [|done].
  destruct (length (np.where_ mask) =? 0)%nat eqn:Hlen; simpl; [done|].
  intros [= <-]. simpl.
  assert (np.where_ mask ≠ []) as Hne.
  { intros Heq. rewrite Heq in Hlen. done. }
  split; [done|]. split; [by apply length_bridged_axis|].
  split; [apply where_from_increasing|]. split.
  - apply keep_mask_length in Hmask. rewrite length_map in Hmask.
    eapply Forall_impl; [apply where_from_bounds|]. simpl. intros k Hk. lia.
  - eexists. split; [done|]. apply breaks_in_range.
Qed.

Lemma trimmed_axis_shape_witness :
  select_axis ex_setup_half ex_rows_gaps
              (map (fun r => (r.1 - 100)%Q) ex_rows_gaps) = Ok (Some ex_axis_gaps) ∧
  length (time_cum ex_axis_gaps) = 5%nat ∧
  diff_idt ex_axis_gaps = Some [1; 4]%nat.
Proof.
  split; [reflexivity|].
  destruct (trimmed_axis_shape ex_setup_half ex_rows_gaps
              (map (fun r => (r.1 - 100)%Q) ex_rows_gaps) ex_axis_gaps)
    as (_ & Hlen & _ & _ & d & Hd & _).
  - reflexivity.
  - reflexivity.
  - split; [exact Hlen|reflexivity].
Defined.

Lemma cumsum_from_step acc l k t t' d :
  (acc :: np.cumsum_from acc l) !! k = Some t →
  (acc :: np.cumsum_from acc l) !! S k = Some t' →
  l !! k = Some d → t' = (t + d)%Q.
Proof.
  revert acc k. induction l as [|x l IH]; intros acc k Ht Ht' Hd; [done|].
  destruct k as [|k].
  - simpl in *. injection Ht as <-. injection Hd as <-. by injection Ht' as <-.
  - simpl in Ht, Ht', Hd. eapply (IH (acc + x)%Q k); eauto.
Qed.

Lemma scatter_lookup l idx x p :
  (p < length l)%nat →
  np.scatter l idx x !! p = if decide (p ∈ idx) then Some x else l !! p.
Proof.
  unfold np.scatter. revert l. induction idx as [|i idx IH]; intros l Hp; simpl.
  - destruct (decide (p ∈ [])) as [H|_]; [by apply elem_of_nil in H|done].
  - rewrite IH by by rewrite length_insert.
    destruct (decide (p ∈ idx)) as [Hin|Hnin].
    + rewrite decide_True; [done|by right].
    + destruct (decide (p = i)) as [->|Hne].
      * rewrite decide_True by by left. by apply list_lookup_insert_eq.
      * rewrite decide_False.
        -- by apply list_lookup_insert_ne.
        -- intros [?|?]%elem_of_cons; done.
Qed.

(** X3.  Between two consecutive kept samples the trimmed axis advances by
    the configured bridge duration when samples were removed between them,
    and by the true elapsed time otherwise. *)
Theorem trimmed_axis_steps setup (rows : Samples) relTime ax k a b ra rb t t' :
  Trim setup = true →
  select_axis setup rows relTime = Ok (Some ax) →
  idt ax !! k = Some a → idt ax !! S k = Some b →
  relTime !! a = Some ra → relTime !! b = Some rb →
  time_cum ax !! k = Some t → time_cum ax !! S k = Some t' →
  (t' - t == if (1 <? Z.of_nat b - Z.of_nat a)%Z
             then disTimeAddBack_sec setup else rb - ra)%Q.
Proof.
  intros Htrim. unfold select_axis. rewrite Htrim. simpl.
  destruct (keep_mask (val_range setup) (map snd rows)) as [mask|]; simpl;
    [|done].
  destruct (length (np.where_ mask) =? 0)%nat; simpl; [done|].
  intros [= <-]. simpl. set (idt := np.where_ mask).
  intros Ha Hb Hra Hrb Ht Ht'. unfold bridged_axis in Ht, Ht'.
  set (time_inv := np.scatter (0%Q :: np.diff (np.gather relTime idt))
                              (breaks idt) (disTimeAddBack_sec setup)) in *.
  assert (length time_inv = length idt) as Hlen.
  { unfold time_inv. rewrite length_scatter. simpl.
    rewrite length_diff, length_gather. apply lookup_lt_Some in Ha. lia. }
  assert (time_inv !! S k =
          Some (if (1 <? Z.of_nat b - Z.of_nat a)%Z
                then disTimeAddBack_sec setup else rb - ra)%Q) as Hstep.
  { unfold time_inv. rewrite scatter_lookup.
    2: { simpl. rewrite length_diff, length_gather.
         apply lookup_lt_Some in Hb. lia. }
    destruct (decide (S k ∈ breaks idt)) as [Hin|Hnin].
    - apply elem_of_breaks in Hin as (k' & a' & b' & [= <-] & Ha' & Hb' & Hlt).
      rewrite Ha in Ha'. rewrite Hb in Hb'.
      injection Ha' as <-. injection Hb' as <-.
      by rewrite (proj2 (Z.ltb_lt _ _) Hlt).
    - destruct (1 <? Z.of_nat b - Z.of_nat a)%Z eqn:E.
      + exfalso. apply Hnin, elem_of_breaks. exists k, a, b.
        repeat split; try done. by apply Z.ltb_lt.
      + simpl. erewrite diff_lookup; [done| |].
        * unfold np.gather. by rewrite list_lookup_fmap, Ha; simpl; rewrite Hra.
        * unfold np.gather. by rewrite list_lookup_fmap, Hb; simpl; rewrite Hrb. }
  destruct time_inv as [|x tl] eqn:Hti; [done|]. simpl in Ht, Ht'.
  rewrite (cumsum_from_step x tl k t t' _ Ht Ht' Hstep). ring.
Qed.

Lemma trimmed_axis_steps_witness :
  select_axis ex_setup_half ex_rows_gaps
              (map (fun r => (r.1 - 100)%Q) ex_rows_gaps) = Ok (Some ex_axis_gaps) ∧
  time_cum ex_axis_gaps !! 0%nat = Some 0%Q ∧
  time_cum ex_axis_gaps !! 1%nat = Some (1 # 2)%Q ∧
  ((1 # 2) - 0 == disTimeAddBack_sec ex_setup_half)%Q.
Proof.
  split; [reflexivity|]. split; [reflexivity|]. split; [reflexivity|].
  apply (trimmed_axis_steps ex_setup_half ex_rows_gaps
           (map (fun r => (r.1 - 100)%Q) ex_rows_gaps) ex_axis_gaps
           0%nat 0%nat 2%nat (100 - 100)%Q (102 - 100)%Q 0%Q (1 # 2)%Q);
    reflexivity.
Defined.

(** ** An axis with nothing to trim *)

Lemma where_from_all_true k mask :
  Forall (fun b => b = true) mask → np.where_from k mask = seq k (length mask).
Proof.
  revert k. induction mask as [|b mask IH]; intros k Hall; [done|].
  apply Forall_cons in Hall as [-> Hall]. simpl. by rewrite IH.
Qed.

Lemma diffZ_seq k n : Forall (fun d => d = 1%Z) (np.diffZ (seq k n)).
Proof.
  revert k. induction n as [|n IH]; intros k; [constructor|].
  destruct n as [|n]; [constructor|].
  change (np.diffZ (seq k (S (S n))))
    with ((Z.of_nat (S k) - Z.of_nat k)%Z :: np.diffZ (seq (S k) (S n))).
  constructor; [lia|apply IH].
Qed.

Lemma breaks_seq k n : breaks (seq k n) = [].
Proof.
  unfold breaks, np.where_. rewrite where_from_all_false; [done|].
  apply Forall_map. eapply Forall_impl; [apply diffZ_seq|].
  by intros d ->.
Qed.

Lemma gather_seq arr k n :
  (k + n ≤ length arr)%nat → np.gather arr (seq k n) = take n (drop k arr).
Proof.
  unfold np.gather. revert k arr. induction n as [|n IH]; intros k arr Hlen;
    [done|].
  simpl. destruct (lookup_lt_is_Some_2 arr k) as [x Hx]; [lia|].
  rewrite Hx. simpl. rewrite (drop_S arr x k Hx). simpl. f_equal.
  apply IH. lia.
Qed.

Lemma cumsum_from_diff acc x l :
  (acc == x)%Q → same_axis (np.cumsum_from acc (np.diff (x :: l))) l.
Proof.
  revert acc x. induction l as [|y l IH]; intros acc x Hacc; [constructor|].
  change (np.diff (x :: y :: l)) with ((y - x)%Q :: np.diff (y :: l)).
  simpl. constructor; [rewrite Hacc; ring|].
  apply IH. rewrite Hacc. ring.
Qed.

(** X4.  When every reference value lies in some configured range, trimming
    removes nothing: every index is kept, there is no break, and the
    cumulative axis equals the relative-time axis point by point. *)
Theorem nothing_trimmed_axis_is_relTime setup rs (rows : Samples) t0 :
  Trim setup = true → val_range setup = Nested rs → ranges_ok rs →
  rows ≠ [] → Forall (in_some_range rs) (map snd rows) →
  head (map fst rows) = Some t0 →
  ∃ ax,
    select_axis setup rows (map (fun r => (r.1 - t0)%Q) rows) = Ok (Some ax) ∧
    idt ax = seq 0 (length rows) ∧
    diff_idt ax = Some [] ∧
    same_axis (time_cum ax) (map (fun r => (r.1 - t0)%Q) rows).
Proof.
  intros Htrim Hvr Hok Hrows Hall Ht0.
  unfold select_axis. rewrite Htrim, Hvr. cbn [negb].
  rewrite (keep_mask_nested _ rs Hok).
  destruct rs as [|r0 rs].
  { destruct rows as [|r rows]; [done|].
    apply Forall_cons in Hall as [Hr _]. by apply Exists_nil in Hr. }
  set (mask := map _ (map snd rows)).
  assert (np.where_ mask = seq 0 (length rows)) as Hidt.
  { unfold np.where_. rewrite where_from_all_true.
    - unfold mask. by rewrite !length_map.
    - unfold mask. apply Forall_map. eapply Forall_impl; [exact Hall|].
      intros v Hv. by apply (existsb_in_some_range (r0 :: rs)). }
  cbn [mbind Res_bind mret Res_ret]. rewrite Hidt, length_seq.
  destruct rows as [|r rows]; [done|].
  cbn [length Nat.eqb]. eexists. split; [reflexivity|].
  cbn [idt diff_idt time_cum]. split; [done|].
  split; [by rewrite breaks_seq|].
  unfold bridged_axis. rewrite breaks_seq. unfold np.scatter. cbn [foldl].
  rewrite gather_seq by (rewrite length_map; simpl; lia).
  rewrite drop_0, firstn_all2 by (rewrite length_map; simpl; lia).
  change (map (fun r1 : Q * Q => (r1.1 - t0)%Q) (r :: rows))
    with ((r.1 - t0)%Q :: map (fun r1 : Q * Q => (r1.1 - t0)%Q) rows).
  cbn [np.cumsum]. injection Ht0 as <-.
  constructor; [ring|]. apply cumsum_from_diff. ring.
Qed.

Lemma nothing_trimmed_axis_is_relTime_witness :
  ∃ ax,
    select_axis (ex_setup true) ex_rows_inside
                (map (fun r => (r.1 - 100)%Q) ex_rows_inside) = Ok (Some ax) ∧
    idt ax = [0; 1; 2]%nat ∧
    diff_idt ax = Some [] ∧
    same_axis (time_cum ax) (map (fun r => (r.1 - 100)%Q) ex_rows_inside).
Proof.
  apply (nothing_trimmed_axis_is_relTime (ex_setup true) [[1; 10]%Q]
           ex_rows_inside 100).
  - reflexivity.
  - reflexivity.
  - repeat constructor.
  - discriminate.
  - repeat constructor; exists 1%Q, 10%Q; repeat split; try reflexivity;
      vm_compute; discriminate.
  - reflexivity.
Defined.

(** ** Interpolation *)

Lemma strictly_increasing_non_decreasing l :
  strictly_increasing l → non_decreasing l.
Proof.
  induction l as [|x [|y l] IH]; [done..|].
  intros [Hxy Hs]. split; [lra|by apply IH].
Qed.

Lemma interp_seg_at_sample xp fp j x f :
  strictly_increasing xp → length fp = length xp →
  xp !! j = Some x → fp !! j = Some f → np.interp_seg xp fp x = f.
Proof.
  revert xp fp. induction j as [|j IH]; intros xp fp Hs Hlen Hx Hf.
  - destruct xp as [|a [|b xp]]; [done| |].
    + destruct fp as [|f0 fp]; [done|]. simpl in *. by injection Hf as <-.
    + destruct fp as [|f0 [|f1 fp]]; [done..|].
      simpl in Hx, Hf. injection Hx as <-. injection Hf as <-.
      destruct Hs as [Hab _]. simpl.
      assert (Qle_bool b a = false) as -> by by apply Qle_bool_false.
      assert (Qeq_bool a a = true) as -> by by apply Qeq_bool_iff.
      done.
  - destruct xp as [|a [|b xp]]; [done..|].
    destruct fp as [|f0 [|f1 fp]]; [done..|].
    destruct Hs as [Hab Hs].
    assert (b <= x)%Q as Hb.
    { eapply (non_decreasing_from_head (b :: xp));
        [by apply strictly_increasing_non_decreasing|done|exact Hx]. }
    change (np.interp_seg (a :: b :: xp) (f0 :: f1 :: fp) x)
      with (if Qle_bool b x then np.interp_seg (b :: xp) (f1 :: fp) x
            else if Qeq_bool a x then f0 else np.lerp a f0 b f1 x).
    rewrite (proj2 (Qle_bool_iff b x) Hb).
    apply IH; [done|simpl in *; lia|done|done].
Qed.

(** X5.  On a strictly ascending axis, interpolating exactly at a sample
    position returns that sample, the no-value marker included. *)
Theorem interp1_at_sample xp fp j x f :
  strictly_increasing xp → length fp = length xp →
  xp !! j = Some x → fp !! j = Some f → np.interp1 xp fp x = f.
Proof.
  intros Hs Hlen Hx Hf. unfold np.interp1.
  pose proof (strictly_increasing_non_decreasing xp Hs) as Hnd.
  destruct (last xp) as [z|] eqn:Hz.
  2: { apply last_None in Hz. by subst xp. }
  destruct (head xp) as [a|] eqn:Ha.
  2: { apply head_None in Ha. by subst xp. }
  simpl.
  assert (x <= z)%Q as Hxz by (eapply non_decreasing_to_last; eauto).
  assert (a <= x)%Q as Hax.
  { rewrite head_lookup in Ha. eapply non_decreasing_from_head; eauto. }
  assert (Qlt_bool z x = false) as ->.
  { apply not_true_iff_false. rewrite Qlt_bool_iff. lra. }
  assert (Qlt_bool x a = false) as ->.
  { apply not_true_iff_false. rewrite Qlt_bool_iff. lra. }
  by apply (interp_seg_at_sample xp fp j).
Qed.

Lemma interp1_at_sample_witness :
  np.interp1 [0; 1; 3]%Q [Some 5; None; Some 9]%Q 1 = None.
Proof.
  apply (interp1_at_sample [0; 1; 3]%Q [Some 5; None; Some 9]%Q 1%nat 1%Q None).
  - simpl. repeat split.
  - reflexivity.
  - reflexivity.
  - reflexivity.
Defined.

(** X6.  Between two consecutive samples of an ascending axis the
    interpolated value lies between the two sample values: interpolation
    never overshoots. *)
Theorem interp1_between_samples xp fp x j xj xj1 fj fj1 :
  non_decreasing xp →
  xp !! j = Some xj → xp !! S j = Some xj1 →
  fp !! j = Some (Some fj) → fp !! S j = Some (Some fj1) →
  (xj <= x < xj1)%Q →
  ∃ v, np.interp1 xp fp x = Some v ∧
       ((fj <= v <= fj1)%Q ∨ (fj1 <= v <= fj)%Q).
Proof.
  intros Hs Hxj Hxj1 Hfj Hfj1 Hx.
  destruct (interp1_bracket xp fp x j xj xj1 fj fj1 Hs Hxj Hxj1 Hfj Hfj1 Hx)
    as (v & Hv & Heq).
  exists v. split; [done|].
  set (lam := ((x - xj) / (xj1 - xj))%Q).
  assert (0 <= lam)%Q as Hlam0.
  { unfold lam. apply Qle_shift_div_l; lra. }
  assert (lam <= 1)%Q as Hlam1.
  { unfold lam. apply Qle_shift_div_r; lra. }
  assert (v == fj + lam * (fj1 - fj))%Q as Hv'.
  { rewrite Heq. unfold lam. field. lra. }
  destruct (Qlt_le_dec fj1 fj) as [Hlt|Hle].
  - right. rewrite Hv'. split; nra.
  - left. rewrite Hv'. split; nra.
Qed.

Lemma interp1_between_samples_witness :
  ∃ v, np.interp1 [0; 3]%Q [Some 0; Some 30]%Q 1 = Some v ∧
       ((0 <= v <= 30)%Q ∨ (30 <= v <= 0)%Q).
Proof.
  apply (interp1_between_samples [0; 3]%Q [Some 0; Some 30]%Q 1%Q 0%nat
           0%Q 3%Q 0%Q 30%Q).
  - simpl. split; [vm_compute; discriminate|done].
  - reflexivity.
  - reflexivity.
  - reflexivity.
  - reflexivity.
  - split; [vm_compute; discriminate|reflexivity].
Defined.

(** ** What one fetch returns *)

Lemma bisect_left_bounds fuel a key lo hi :
  (lo ≤ hi)%nat → (lo ≤ np.bisect_left fuel a key lo hi ≤ hi)%nat.
Proof.
  revert lo hi. induction fuel as [|fuel IH]; intros lo hi Hle;
    [simpl; lia|]. cbn [np.bisect_left].
  destruct (lo <? hi)%nat eqn:E; [|lia]. apply Nat.ltb_lt in E.
  assert ((hi - lo) / 2 < hi - lo)%nat as Hhalf
    by (apply Nat.div_lt; lia).
  destruct (Qlt_bool _ key).
  - specialize (IH (S (lo + (hi - lo) / 2)) hi). lia.
  - specialize (IH lo (lo + (hi - lo) / 2)%nat). lia.
Qed.

Lemma bisect_right_bounds fuel a key lo hi :
  (lo ≤ hi)%nat → (lo ≤ np.bisect_right fuel a key lo hi ≤ hi)%nat.
Proof.
  revert lo hi. induction fuel as [|fuel IH]; intros lo hi Hle;
    [simpl; lia|]. cbn [np.bisect_right].
  destruct (lo <? hi)%nat eqn:E; [|lia]. apply Nat.ltb_lt in E.
  assert ((hi - lo) / 2 < hi - lo)%nat as Hhalf
    by (apply Nat.div_lt; lia).
  destruct (Qle_bool _ key).
  - specialize (IH (S (lo + (hi - lo) / 2)) hi). lia.
  - specialize (IH lo (lo + (hi - lo) / 2)%nat). lia.
Qed.

Lemma py_index_ok {A} (l : list A) i :
  (i < length l)%nat → ∃ x, py_index l i = Ok x ∧ x ∈ l.
Proof.
  intros Hi. destruct (lookup_lt_is_Some_2 l i Hi) as [x Hx].
  exists x. unfold py_index. rewrite Hx. split; [done|].
  by eapply list_elem_of_lookup_2.
Qed.

Lemma py_index_elem_of {A} (l : list A) i x : py_index l i = Ok x → x ∈ l.
Proof.
  unfold py_index. destruct (l !! i) eqn:E; [|done]. intros [= <-].
  by eapply list_elem_of_lookup_2.
Qed.

Lemma py_last_elem_of {A} (l : list A) x : py_last l = Ok x → x ∈ l.
Proof.
  unfold py_last. destruct (last l) eqn:E; [|done]. intros [= <-].
  rewrite last_lookup in E. by eapply list_elem_of_lookup_2.
Qed.

Lemma insert_Permutation {A} (l : list A) i x : np.insert l i x ≡ₚ x :: l.
Proof.
  unfold np.insert. rewrite <- Permutation_middle. by rewrite take_drop.
Qed.

Lemma zip_insert {A B} (a : list A) (b : list B) i x y :
  length a = length b →
  zip (np.insert a i x) (np.insert b i y) = np.insert (zip a b) i (x, y).
Proof.
  intros Hlen. unfold np.insert.
  rewrite zip_with_app by (rewrite !length_take; lia).
  simpl. by rewrite zip_with_take, zip_with_drop.
Qed.

Lemma length_np_insert {A} (l : list A) i x :
  length (np.insert l i x) = S (length l).
Proof.
  unfold np.insert. rewrite length_app. simpl.
  rewrite length_take, length_drop. lia.
Qed.

Lemma insert_sorted_Permutation r rows : np.insert_sorted r rows ≡ₚ r :: rows.
Proof.
  induction rows as [|r' rows IH]; simpl; [done|].
  destruct (Qlt_bool r.1 r'.1); [done|].
  rewrite IH. apply perm_swap.
Qed.

Lemma sort_by_secs_Permutation rows : np.sort_by_secs rows ≡ₚ rows.
Proof.
  unfold np.sort_by_secs.
  assert (∀ acc, foldl (fun acc r => np.insert_sorted r acc) acc rows
                 ≡ₚ rows ++ acc) as H.
  { induction rows as [|r rows IH]; intros acc; simpl; [done|].
    rewrite IH, insert_sorted_Permutation. by rewrite Permutation_middle. }
  by rewrite H, app_nil_r.
Qed.

Lemma filter_Permutation {A} (f : A → bool) l l' :
  l ≡ₚ l' → List.filter f l ≡ₚ List.filter f l'.
Proof.
  induction 1 as [|x l l' _ IH|x y l|l l' l'' _ IH1 _ IH2]; simpl.
  - done.
  - destruct (f x); by rewrite IH.
  - destruct (f x), (f y); try done. apply perm_swap.
  - by rewrite IH1.
Qed.

Lemma zip_shift (recs : Samples) :
  zip (map (fun r => (r.1 + timeDiff_sec)%Q) recs) (map snd recs)
  = map shift_sample recs.
Proof. induction recs as [|r recs IH]; simpl; [done|]. by rewrite IH. Qed.

(** The rows of a successful fetch are, up to order, the two boundary
    samples and the shifted service samples that pass the window filter. *)
Lemma extend_window_Permutation start_ts end_ts recs rows :
  extend_window start_ts end_ts recs = Ok rows →
  ∃ v_start v_end,
    v_start ∈ map snd recs ∧ v_end ∈ map snd recs ∧
    rows ≡ₚ List.filter (in_window start_ts end_ts)
              ((end_ts, v_end) :: (start_ts, v_start) :: map shift_sample recs).
Proof.
  unfold extend_window.
  match goal with |- context [if ?c then py_index ?v 0 else ?e] =>
    destruct (if c then py_index v 0 else e) as [v_start|] eqn:Hs;
      cbn [mbind Res_bind mret Res_ret]; [|done] end.
  match goal with |- context [if ?c then py_last ?v else ?e] =>
    destruct (if c then py_last v else e) as [v_end|] eqn:He;
      cbn [mbind Res_bind mret Res_ret]; [|done] end.
  intros [= <-]. exists v_start, v_end.
  split. { destruct (np.searchsorted_left _ _ =? 0)%nat in Hs;
             by eapply py_index_elem_of. }
  split. { destruct (np.searchsorted_right _ _ =? _)%nat in He;
             [by eapply py_last_elem_of|by eapply py_index_elem_of]. }
  apply (filter_Permutation (in_window start_ts end_ts)).
  rewrite sort_by_secs_Permutation.
  rewrite zip_insert by (rewrite !length_np_insert, !length_map; done).
  rewrite insert_Permutation. apply Permutation_skip.
  rewrite zip_insert by (by rewrite !length_map).
  rewrite insert_Permutation. by rewrite zip_shift.
Qed.

Lemma extend_window_ok start_ts end_ts r recs :
  ∃ rows, extend_window start_ts end_ts (r :: recs) = Ok rows.
Proof.
  unfold extend_window.
  set (secs := map (fun r => (r.1 + timeDiff_sec)%Q) (r :: recs)).
  set (vals := map snd (r :: recs)).
  assert (length vals = length secs) as Hlen
    by (unfold vals, secs; by rewrite !length_map).
  assert (0 < length vals)%nat as Hpos by (unfold vals; simpl; lia).
  pose proof (bisect_left_bounds (S (length secs)) secs start_ts 0
                (length secs) (Nat.le_0_l _)) as Hb1.
  pose proof (bisect_right_bounds (S (length secs)) secs end_ts 0
                (length secs) (Nat.le_0_l _)) as Hb2.
  fold (np.searchsorted_left secs start_ts) in Hb1.
  fold (np.searchsorted_right secs end_ts) in Hb2.
  assert (∃ v, (if (np.searchsorted_left secs start_ts =? 0)%nat
                then py_index vals 0
                else py_index vals (np.searchsorted_left secs start_ts - 1))
               = Ok v) as [v_start ->].
  { destruct (_ =? 0)%nat eqn:E.
    - destruct (py_index_ok vals 0 Hpos) as (v & -> & _). by eexists.
    - apply Nat.eqb_neq in E.
      destruct (py_index_ok vals (np.searchsorted_left secs start_ts - 1))
        as (v & -> & _); [lia|]. by eexists. }
  assert (∃ v, (if (np.searchsorted_right secs end_ts =? length secs)%nat
                then py_last vals
                else py_index vals (np.searchsorted_right secs end_ts))
               = Ok v) as [v_end ->].
  { destruct (_ =? length secs)%nat eqn:E.
    - unfold py_last, vals. destruct (last (map snd (r :: recs))) eqn:El;
        [by eexists|]. by apply last_None in El.
    - apply Nat.eqb_neq in E.
      destruct (py_index_ok vals (np.searchsorted_right secs end_ts))
        as (v & -> & _); [lia|]. by eexists. }
  simpl. by eexists.
Qed.

(** The outcome of one fetch by the answer of the service (shared helper). *)
Lemma get_history_absorbs_failures_aux service st pv start_ts :
  startTime st = Some start_ts →
  match service (webServer st) pv start_ts (endTime st) with
  | Records (_ :: _) =>
      ∃ rows, get_history service st pv = Ok (Some rows, None)
  | Records [] =>
      get_history service st pv
      = Ok (None, Some (warning pv empty_answer_text))
  | Failed e => get_history service st pv = Ok (None, Some (warning pv e))
  end.
Proof.
  intros Hstart. unfold get_history. rewrite Hstart.
  destruct (service _ _ _ _) as [[|r recs]|]; [done| |done].
  destruct (extend_window_ok start_ts (endTime st) r recs) as [rows ->].
  by eexists.
Qed.

(** X7.  A fetch never raises once the start time is set: a failed request
    and an answer without records both give the empty dictionary with a
    warning, which ends with the text of the exception, and any answer with
    a record gives samples and no warning. *)
Theorem get_history_absorbs_failures service st pv start_ts :
  startTime st = Some start_ts →
  match service (webServer st) pv start_ts (endTime st) with
  | Records (_ :: _) =>
      ∃ rows, get_history service st pv = Ok (Some rows, None)
  | Records [] =>
      get_history service st pv
      = Ok (None, Some (warning pv empty_answer_text))
  | Failed e => get_history service st pv = Ok (None, Some (warning pv e))
  end.
Proof.
  intros Hstart. unfold get_history. rewrite Hstart.
  destruct (service _ _ _ _) as [[|r recs]|]; [done| |done].
  destruct (extend_window_ok start_ts (endTime st) r recs) as [rows ->].
  by eexists.
Qed.

Lemma get_history_absorbs_failures_witness :
  get_history ex_service ex_state "B"
  = Ok (None, Some (warning "B" "list index out of range")).
Proof.
  apply (get_history_absorbs_failures ex_service ex_state "B" 100).
  reflexivity.
Defined.

(** Order and bounds of the rows of a fetch (shared helper). *)
Lemma get_history_sorted_in_window_aux service st pv rows err start_ts :
  startTime st = Some start_ts →
  get_history service st pv = Ok (Some rows, err) →
  non_decreasing (map fst rows) ∧
  Forall (fun r => (start_ts <= r.1 <= endTime st)%Q) rows.
Proof.
  intros Hstart. unfold get_history. rewrite Hstart.
  destruct (service _ _ _ _) as [recs|]; [|done].
  destruct (extend_window start_ts (endTime st) recs) as [rows'|] eqn:Hext;
    [|done].
  intros [= <- <-]. by eapply extend_window_spec.
Qed.

Lemma get_history_rows service st pv rows err start_ts recs :
  startTime st = Some start_ts →
  service (webServer st) pv start_ts (endTime st) = Records recs →
  get_history service st pv = Ok (Some rows, err) →
  extend_window start_ts (endTime st) recs = Ok rows.
Proof.
  intros Hstart Hsvc. unfold get_history. rewrite Hstart, Hsvc.
  destruct (extend_window _ _ _); [|done]. by intros [= <- _].
Qed.

Lemma elem_of_filter_window start_ts end_ts (r : Q * Q) l :
  r ∈ List.filter (in_window start_ts end_ts) l ↔
  r ∈ l ∧ (start_ts <= r.1 <= end_ts)%Q.
Proof.
  rewrite !list_elem_of_In, filter_In. unfold in_window.
  by rewrite andb_true_iff, !Qle_bool_iff.
Qed.

(** X8.  A successful fetch loses and invents nothing: every service sample
    whose shifted timestamp lies in the window is returned, and every
    returned row is such a sample or one of the two boundary samples, whose
    values are values of service samples. *)
Theorem get_history_keeps_window_samples service st pv rows err start_ts recs :
  startTime st = Some start_ts →
  service (webServer st) pv start_ts (endTime st) = Records recs →
  get_history service st pv = Ok (Some rows, err) →
  (∀ t v, (t, v) ∈ recs → (start_ts <= t + timeDiff_sec <= endTime st)%Q →
          ((t + timeDiff_sec)%Q, v) ∈ rows) ∧
  (∀ row, row ∈ rows →
          row ∈ map shift_sample recs ∨
          ∃ v, v ∈ map snd recs ∧ (row = (start_ts, v) ∨ row = (endTime st, v))).
Proof.
  intros Hstart Hsvc Hget.
  apply (get_history_rows service st pv rows err start_ts recs Hstart Hsvc)
    in Hget.
  apply extend_window_Permutation in Hget
    as (v_start & v_end & Hvs & Hve & Hperm).
  split.
  - intros t v Hin Hwin. rewrite Hperm. apply elem_of_filter_window.
    split; [|done]. do 2 right.
    apply (list_elem_of_fmap_2 shift_sample) in Hin. exact Hin.
  - intros row Hrow. rewrite Hperm in Hrow.
    apply elem_of_filter_window in Hrow as [Hrow _].
    apply elem_of_cons in Hrow as [->|Hrow]; [right; eauto|].
    apply elem_of_cons in Hrow as [->|Hrow]; [right; eauto|].
    by left.
Qed.

Lemma get_history_keeps_window_samples_witness :
  ((100 - 7 * 3600 + timeDiff_sec)%Q, 5%Q) ∈
    [(100, 5); (100, 5); (110, 7); (110, 7)]%Q.
Proof.
  apply (get_history_keeps_window_samples ex_service ex_state "A"
           [(100, 5); (100, 5); (110, 7); (110, 7)]%Q None 100%Q
           [(100 - 7 * 3600, 5); (110 - 7 * 3600, 7)]%Q).
  - reflexivity.
  - reflexivity.
  - vm_compute. reflexivity.
  - by left.
  - split; vm_compute; discriminate.
Defined.

(** X9.  Over a window with start not after end, a successful fetch spans
    the whole window: it has at least two samples, the first one at the
    window start and the last one at the window end. *)
Theorem get_history_spans_window service st pv rows err start_ts :
  startTime st = Some start_ts → (start_ts <= endTime st)%Q →
  get_history service st pv = Ok (Some rows, err) →
  (2 ≤ length rows)%nat ∧
  ∃ first final,
    head rows = Some first ∧ last rows = Some final ∧
    (first.1 == start_ts)%Q ∧ (final.1 == endTime st)%Q.
Proof.
  intros Hstart Hle Hget.
  destruct (get_history_sorted_in_window_aux service st pv rows err start_ts
              Hstart Hget) as [Hsorted Hbounds].
  assert (∃ recs, extend_window start_ts (endTime st) recs = Ok rows)
    as [recs Hext].
  { revert Hget. unfold get_history. rewrite Hstart.
    destruct (service _ _ _ _) as [recs|]; [|done].
    destruct (extend_window _ _ _) eqn:E; [|done].
    intros [= <- _]. by exists recs. }
  apply extend_window_Permutation in Hext
    as (v_start & v_end & _ & _ & Hperm).
  assert (in_window start_ts (endTime st) (endTime st, v_end) = true) as He.
  { unfold in_window. apply andb_true_iff.
    rewrite !Qle_bool_iff. simpl. split; [done|apply Qle_refl]. }
  assert (in_window start_ts (endTime st) (start_ts, v_start) = true) as Hs.
  { unfold in_window. apply andb_true_iff.
    rewrite !Qle_bool_iff. simpl. split; [apply Qle_refl|done]. }
  cbn [List.filter] in Hperm. rewrite He, Hs in Hperm.
  split. { rewrite Hperm. simpl. lia. }
  assert ((start_ts, v_start) ∈ rows) as Hin_s
    by (rewrite Hperm; right; by left).
  assert ((endTime st, v_end) ∈ rows) as Hin_e by (rewrite Hperm; by left).
  destruct (head rows) as [first|] eqn:Hhead.
  2: { apply head_None in Hhead. subst rows. by apply elem_of_nil in Hin_s. }
  destruct (last rows) as [final|] eqn:Hlast.
  2: { apply last_None in Hlast. subst rows. by apply elem_of_nil in Hin_s. }
  exists first, final. split; [done|]. split; [done|].
  apply list_elem_of_lookup in Hin_s as [i Hi].
  apply list_elem_of_lookup in Hin_e as [j Hj].
  assert (first ∈ rows) as Hfirst.
  { rewrite head_lookup in Hhead. by eapply list_elem_of_lookup_2. }
  assert (final ∈ rows) as Hfinal.
  { rewrite last_lookup in Hlast. by eapply list_elem_of_lookup_2. }
  rewrite Forall_forall in Hbounds.
  pose proof (Hbounds first Hfirst) as [Hf1 _].
  pose proof (Hbounds final Hfinal) as [_ Hl2].
  assert (first.1 <= start_ts)%Q as Hf2.
  { apply (non_decreasing_from_head (map fst rows) first.1 i start_ts Hsorted).
    - rewrite list_lookup_fmap. rewrite head_lookup in Hhead. by rewrite Hhead.
    - by rewrite list_lookup_fmap, Hi. }
  assert (endTime st <= final.1)%Q as Hl1.
  { apply (non_decreasing_to_last (map fst rows) j (endTime st) final.1 Hsorted).
    - by rewrite list_lookup_fmap, Hj.
    - rewrite last_lookup, length_map, list_lookup_fmap.
      rewrite last_lookup in Hlast. by rewrite Hlast. }
  split; lra.
Qed.

Lemma get_history_spans_window_witness :
  (2 ≤ length [(100, 5); (100, 5); (110, 7); (110, 7)]%Q)%nat ∧
  ∃ first final,
    head [(100, 5); (100, 5); (110, 7); (110, 7)]%Q = Some first ∧
    last [(100, 5); (100, 5); (110, 7); (110, 7)]%Q = Some final ∧
    (first.1 == 100)%Q ∧ (final.1 == endTime ex_state)%Q.
Proof.
  apply (get_history_spans_window ex_service ex_state "A"
           [(100, 5); (100, 5); (110, 7); (110, 7)]%Q None 100%Q).
  - reflexivity.
  - vm_compute. discriminate.
  - vm_compute. reflexivity.
Defined.

(** ** The batch fetch as a whole *)

Lemma get_history_total service st pv start_ts :
  startTime st = Some start_ts →
  ∃ r, get_history service st pv = Ok r.
Proof.
  intros Hstart.
  pose proof (get_history_absorbs_failures_aux service st pv start_ts Hstart)
    as H.
  destruct (service _ _ _ _) as [[|? ?]|]; [by eexists| |by eexists].
  destruct H as [rows ->]. by eexists.
Qed.

Lemma collect_results_ok service st completed acc start_ts :
  startTime st = Some start_ts →
  collect_results service completed (set_rawData (RawList acc) st)
  = (set_rawData (RawList (acc ++ map (fetched service st) completed)) st,
     Ok ()).
Proof.
  intros Hstart. revert acc.
  induction completed as [|pv completed IH]; intros acc.
  - simpl. by rewrite app_nil_r.
  - cbn [collect_results]. unfold mbind, M_bind, get, lift, modify.
    cbn [fst snd].
    change (get_history service (set_rawData (RawList acc) st) pv)
      with (get_history service st pv).
    unfold fetched at 1. cbn [map].
    destruct (get_history_total service st pv start_ts Hstart) as [r Hr].
    unfold fetched. rewrite Hr.
    change (append_raw r.1 (set_rawData (RawList acc) st))
      with (set_rawData (RawList (acc ++ [r.1])) st).
    rewrite IH. by rewrite <- app_assoc.
Qed.

Lemma getHistory_result service order st start_ts d :
  startTime st = Some start_ts → duration_hour st = Some d →
  getHistory service order st
  = (set_rawData
       (RawDict (dict_of_zip (pvNames st)
                   (map (fetched service st)
                        (omap (fun i => pvNames st !! i) order)))) st,
     Ok ()).
Proof.
  intros Hstart Hd. unfold getHistory.
  unfold mbind at 1 2 3, M_bind, get, lift, modify. cbn [fst snd].
  rewrite Hd.
  unfold mbind at 1, M_bind.
  rewrite (collect_results_ok service st _ [] start_ts Hstart).
  reflexivity.
Qed.

Lemma omap_lookup_seq {A} (l : list A) k n :
  (k + n ≤ length l)%nat →
  omap (fun i => l !! i) (seq k n) = take n (drop k l).
Proof.
  revert k. induction n as [|n IH]; intros k Hlen; [done|].
  simpl. destruct (lookup_lt_is_Some_2 l k) as [x Hx]; [lia|].
  rewrite Hx. rewrite (drop_S l x k Hx). simpl. f_equal. apply IH. lia.
Qed.

Lemma omap_lookup_all {A} (l : list A) :
  omap (fun i => l !! i) (seq 0 (length l)) = l.
Proof.
  rewrite omap_lookup_seq by lia. by rewrite drop_0, firstn_all.
Qed.

Lemma dict_of_zip_dom {V} (names : list string) (datas : list V) :
  length names = length datas →
  dom (dict_of_zip names datas) = list_to_set names.
Proof.
  unfold dict_of_zip. intros Hlen.
  assert (∀ m : gmap string V,
            dom (foldl (fun m p => <[p.1 := p.2]> m) m (zip names datas))
            = dom m ∪ list_to_set names) as H.
  { revert datas Hlen. induction names as [|pv names IH];
      intros [|x datas] Hlen m; simpl in *; try done.
    - by rewrite union_empty_r_L.
    - rewrite IH by lia. rewrite dom_insert_L.
      by rewrite (union_comm_L {[pv]}), <- union_assoc_L. }
  by rewrite H, dom_empty_L, union_empty_l_L.
Qed.

Lemma dict_of_zip_lookup {V} (names : list string) (datas : list V) pv x :
  dict_of_zip names datas !! pv = Some x → pv ∈ names ∧ x ∈ datas.
Proof.
  unfold dict_of_zip.
  assert (∀ m : gmap string V,
            foldl (fun m p => <[p.1 := p.2]> m) m (zip names datas) !! pv
            = Some x → m !! pv = Some x ∨ (pv ∈ names ∧ x ∈ datas)) as H.
  { revert datas. induction names as [|a names IH]; intros [|y datas] m;
      simpl; try (by left).
    intros Hl. apply IH in Hl as [Hl|[? ?]].
    - destruct (decide (a = pv)) as [->|Hne].
      + rewrite lookup_insert_eq in Hl. injection Hl as ->.
        right. split; by left.
      + rewrite lookup_insert_ne in Hl by done. by left.
    - right. split; by right. }
  intros Hl. apply H in Hl as [Hl|?]; [|done]. by rewrite lookup_empty in Hl.
Qed.

Lemma dict_of_zip_map {V} (names : list string) (f : string → V) pv :
  pv ∈ names → dict_of_zip names (map f names) !! pv = Some (f pv).
Proof.
  unfold dict_of_zip.
  assert (∀ m : gmap string V,
            foldl (fun m p => <[p.1 := p.2]> m) m (zip names (map f names)) !! pv
            = if decide (pv ∈ names) then Some (f pv) else m !! pv) as H.
  { induction names as [|a names IH]; intros m; simpl.
    - destruct (decide (pv ∈ [])) as [H|_]; [by apply elem_of_nil in H|done].
    - rewrite IH. destruct (decide (pv ∈ names)) as [Hin|Hnin].
      + rewrite decide_True; [done|by right].
      + destruct (decide (pv = a)) as [->|Hne].
        * rewrite decide_True by by left. by rewrite lookup_insert_eq.
        * rewrite decide_False by (intros [?|?]%elem_of_cons; done).
          by rewrite lookup_insert_ne. }
  intros Hin. rewrite H. by rewrite decide_True.
Qed.

(** X10.  Once the window is set, the batch fetch completes whatever the
    fetches do and in whatever order they finish: it returns normally,
    changes nothing but the raw data, and stores a dictionary with exactly
    one entry per configured name, each entry being the frame fetched for
    some configured signal. *)
Theorem getHistory_completes service order st start_ts d :
  startTime st = Some start_ts → duration_hour st = Some d →
  order ≡ₚ seq 0 (length (pvNames st)) →
  ∃ m : gmap string DataFrame,
    getHistory service order st = (set_rawData (RawDict m) st, Ok ()) ∧
    dom m = list_to_set (pvNames st) ∧
    ∀ pv frame, m !! pv = Some frame →
                ∃ pv', pv' ∈ pvNames st ∧ frame = fetched service st pv'.
Proof.
  intros Hstart Hd Hperm. eexists.
  split; [by apply (getHistory_result service order st start_ts d)|].
  assert (omap (fun i => pvNames st !! i) order ≡ₚ pvNames st) as Hnames.
  { rewrite Hperm. by rewrite omap_lookup_all. }
  split.
  - apply dict_of_zip_dom. rewrite length_map. by rewrite Hnames.
  - intros pv frame Hl. apply dict_of_zip_lookup in Hl as [_ Hl].
    apply list_elem_of_fmap in Hl as (pv' & -> & Hpv').
    exists pv'. split; [|done]. by rewrite <- Hnames.
Qed.

Lemma getHistory_completes_witness :
  ∃ m : gmap string DataFrame,
    getHistory ex_service [1; 0]%nat ex_state
    = (set_rawData (RawDict m) ex_state, Ok ()) ∧
    dom m = list_to_set (pvNames ex_state) ∧
    ∀ pv frame, m !! pv = Some frame →
                ∃ pv', pv' ∈ pvNames ex_state ∧
                       frame = fetched ex_service ex_state pv'.
Proof.
  apply (getHistory_completes ex_service [1; 0]%nat ex_state 100%Q (10 # 3600)%Q).
  - reflexivity.
  - reflexivity.
  - apply perm_swap.
Defined.

(** X11.  When the fetch tasks complete in the order they were submitted,
    every configured name is mapped to the frame fetched for that very
    signal. *)
Theorem getHistory_in_submission_order service st start_ts d :
  startTime st = Some start_ts → duration_hour st = Some d →
  ∃ m : gmap string DataFrame,
    getHistory service (seq 0 (length (pvNames st))) st
    = (set_rawData (RawDict m) st, Ok ()) ∧
    ∀ pv, pv ∈ pvNames st → m !! pv = Some (fetched service st pv).
Proof.
  intros Hstart Hd. eexists.
  split; [by apply (getHistory_result service _ st start_ts d)|].
  intros pv Hpv. rewrite omap_lookup_all. by apply dict_of_zip_map.
Qed.

Lemma getHistory_in_submission_order_witness :
  ∃ m : gmap string DataFrame,
    getHistory ex_service [0; 1]%nat ex_state
    = (set_rawData (RawDict m) ex_state, Ok ()) ∧
    ∀ pv, pv ∈ pvNames ex_state → m !! pv = Some (fetched ex_service ex_state pv).
Proof.
  apply (getHistory_in_submission_order ex_service ex_state 100%Q (10 # 3600)%Q);
    reflexivity.
Defined.

(** ** What alignment reads and writes *)

Section Keeps.

Variable R : State → State → Prop.
Hypothesis R_refl : ∀ st, R st st.
Hypothesis R_trans : ∀ st1 st2 st3, R st1 st2 → R st2 st3 → R st1 st3.

Lemma keeps_ret {A} (a : A) : keeps R (mret a).
Proof. intros st. apply R_refl. Qed.

Lemma keeps_lift {A} (r : Res A) : keeps R (lift r).
Proof. intros st. apply R_refl. Qed.

Lemma keeps_get : keeps R get.
Proof. intros st. apply R_refl. Qed.

Lemma keeps_modify (f : State → State) :
  (∀ st, R st (f st)) → keeps R (modify f).
Proof. intros Hf st. apply Hf. Qed.

Lemma keeps_bind {A B} (m : M A) (k : A → M B) :
  keeps R m → (∀ a, keeps R (k a)) → keeps R (m ≫= k).
Proof.
  intros Hm Hk st. unfold mbind, M_bind.
  specialize (Hm st). destruct (m st) as [st' [a|e]]; simpl in *; [|done].
  eapply R_trans; [exact Hm|apply Hk].
Qed.

End Keeps.

Lemma only_data_changed_refl st : only_data_changed st st.
Proof. by destruct st. Qed.

Lemma only_data_changed_trans st1 st2 st3 :
  only_data_changed st1 st2 → only_data_changed st2 st3 →
  only_data_changed st1 st3.
Proof.
  unfold only_data_changed. intros -> H. rewrite H at 1. by destruct st1.
Qed.

Lemma only_synData_changed_refl st : only_synData_changed st st.
Proof. by destruct st. Qed.

Lemma only_synData_changed_trans st1 st2 st3 :
  only_synData_changed st1 st2 → only_synData_changed st2 st3 →
  only_synData_changed st1 st3.
Proof.
  unfold only_synData_changed. intros -> H. rewrite H at 1. by destruct st1.
Qed.

Lemma only_synData_to_data st st' :
  only_synData_changed st st' → only_data_changed st st'.
Proof. unfold only_synData_changed, only_data_changed. intros ->. by destruct st. Qed.

Lemma syn_setters_only_synData st :
  (∀ t, only_synData_changed st (syn_set_start t st)) ∧
  (∀ rel, only_synData_changed st (syn_set_relTime rel st)) ∧
  (∀ vals, only_synData_changed st (syn_set_vals vals st)) ∧
  (∀ v, only_synData_changed st (set_synData v st)).
Proof.
  unfold only_synData_changed, syn_set_start, syn_set_relTime, syn_set_vals.
  destruct st as [? ? ? ? ? ? ? syn]. simpl. repeat split; intros;
    by destruct syn.
Qed.

Lemma ksyn_bind {A B} (m : M A) (k : A → M B) :
  keeps only_synData_changed m → (∀ a, keeps only_synData_changed (k a)) →
  keeps only_synData_changed (m ≫= k).
Proof.
  apply keeps_bind, only_synData_changed_trans.
Qed.

Lemma kdata_bind {A B} (m : M A) (k : A → M B) :
  keeps only_data_changed m → (∀ a, keeps only_data_changed (k a)) →
  keeps only_data_changed (m ≫= k).
Proof.
  apply keeps_bind, only_data_changed_trans.
Qed.

Ltac ksyn_step :=
  first
    [ apply ksyn_bind; [|intros ?]
    | apply keeps_get, only_synData_changed_refl
    | apply keeps_lift, only_synData_changed_refl
    | apply keeps_ret, only_synData_changed_refl
    | apply keeps_modify; intros ?; apply syn_setters_only_synData ].

Ltac kdata_step :=
  first
    [ apply kdata_bind; [|intros ?]
    | apply keeps_get, only_data_changed_refl
    | apply keeps_lift, only_data_changed_refl
    | apply keeps_ret, only_data_changed_refl ].

Lemma fill_rows_only_synData relTime idt i pvs :
  keeps only_synData_changed (fill_rows relTime idt i pvs).
Proof.
  revert i. induction pvs as [|pv pvs IH]; intros i; cbn [fill_rows].
  - ksyn_step.
  - repeat ksyn_step. apply IH.
Qed.

Lemma align_rest_only_synData rows relTime ax :
  keeps only_synData_changed (align_rest rows relTime ax).
Proof.
  unfold align_rest.
  repeat first
    [ apply fill_rows_only_synData
    | match goal with |- keeps _ (if ?c then _ else _) => destruct c end
    | ksyn_step ].
Qed.

Lemma append_raw_only_data data st : only_data_changed st (append_raw data st).
Proof.
  unfold append_raw, only_data_changed.
  destruct st as [? ? ? ? ? ? raw ?]. simpl. by destruct raw.
Qed.

Lemma set_rawData_only_data v st : only_data_changed st (set_rawData v st).
Proof. unfold only_data_changed. by destruct st. Qed.

Lemma collect_results_only_data service completed :
  keeps only_data_changed (collect_results service completed).
Proof.
  induction completed as [|pv completed IH]; cbn [collect_results].
  - kdata_step.
  - repeat first
      [ kdata_step
      | apply keeps_modify; intros ?; apply append_raw_only_data ].
    apply IH.
Qed.

Lemma getHistory_only_data service order :
  keeps only_data_changed (getHistory service order).
Proof.
  unfold getHistory.
  repeat first
    [ apply collect_results_only_data
    | apply keeps_modify; intros ?; apply set_rawData_only_data
    | kdata_step ].
Qed.

(** What [getHistory] and [alignHistory] can change (shared helper). *)
Lemma alignHistory_frame service order flag st :
  only_data_changed st (getHistory service order st).1 ∧
  only_data_changed st (alignHistory service order flag st).1 ∧
  (flag && raw_falsy (rawData st) = false →
   only_synData_changed st (alignHistory service order flag st).1).
Proof.
  split; [apply getHistory_only_data|].
  assert (keeps only_synData_changed
            (modify (set_synData (SynDict None [] []));;
             st ← get;
             ref ← lift (raw_getitem (rawData st) (base_pv (alignSetup st)));
             rows ← lift (columns ref);
             t0 ← lift (py_index (map fst rows) 0);
             ax ← lift (select_axis (alignSetup st) rows
                          (map (fun r => (r.1 - t0)%Q) rows));
             match ax with
             | None => mret ()
             | Some ax =>
                 align_rest rows (map (fun r => (r.1 - t0)%Q) rows) ax
             end)) as Htail.
  { repeat first
      [ apply align_rest_only_synData
      | match goal with |- keeps _ (match ?c with _ => _ end) =>
          destruct c end
      | ksyn_step ]. }
  split.
  - unfold alignHistory. unfold mbind at 1, M_bind at 1, get at 1.
    cbn [fst snd]. revert st. apply kdata_bind.
    + intros st. destruct (flag && raw_falsy (rawData st));
        [apply getHistory_only_data|apply only_data_changed_refl].
    + intros _ st. apply only_synData_to_data, Htail.
  - intros Hno. unfold alignHistory.
    unfold mbind at 1, M_bind at 1, get at 1. cbn [fst snd].
    rewrite Hno. unfold mbind at 1, M_bind at 1, mret at 1, M_ret at 1.
    apply Htail.
Qed.

(** X12.  Fetching and aligning never touch the configuration: whatever
    the outcome, only the stored raw data and the stored aligned result can
    differ afterwards; and when alignment does not have to fetch, only the
    stored aligned result can. *)
Theorem alignHistory_keeps_configuration service order flag st :
  only_data_changed st (getHistory service order st).1 ∧
  only_data_changed st (alignHistory service order flag st).1 ∧
  (flag && raw_falsy (rawData st) = false →
   only_synData_changed st (alignHistory service order flag st).1).
Proof. apply alignHistory_frame. Qed.

Lemma alignHistory_keeps_configuration_witness :
  only_synData_changed
    (ex_state_raw (ex_setup true) SynInit)
    (alignHistory ex_service [0; 1]%nat true
                  (ex_state_raw (ex_setup true) SynInit)).1.
Proof.
  apply (alignHistory_keeps_configuration ex_service [0; 1]%nat true
           (ex_state_raw (ex_setup true) SynInit)).
  vm_compute. reflexivity.
Defined.

(** ** Alignment without a usable reference *)

Lemma alignHistory_no_fetch service order flag st :
  flag && raw_falsy (rawData st) = false →
  alignHistory service order flag st =
    match raw_getitem (rawData st) (base_pv (alignSetup st)) with
    | Raise e => (set_synData empty_working_dict st, Raise e)
    | Ok ref =>
        match columns ref with
        | Raise e => (set_synData empty_working_dict st, Raise e)
        | Ok rows =>
            match py_index (map fst rows) 0 with
            | Raise e => (set_synData empty_working_dict st, Raise e)
            | Ok t0 =>
                match select_axis (alignSetup st) rows
                        (map (fun r => (r.1 - t0)%Q) rows) with
                | Raise e => (set_synData empty_working_dict st, Raise e)
                | Ok None => (set_synData empty_working_dict st, Ok ())
                | Ok (Some ax) =>
                    align_rest rows (map (fun r => (r.1 - t0)%Q) rows) ax
                               (set_synData empty_working_dict st)
                end
            end
        end
    end.
Proof.
  intros Hno. unfold alignHistory, empty_working_dict.
  unfold mbind, M_bind, get, lift, modify, mret, M_ret. cbn [fst snd].
  rewrite Hno. cbn [rawData alignSetup set_synData].
  destruct (raw_getitem _ _) as [ref|]; [|done].
  destruct (columns ref) as [rows|]; [|done].
  destruct (py_index _ 0) as [t0|]; [|done].
  destruct (select_axis _ _ _) as [[ax|]|]; done.
Qed.

(** X13.  When no fetch is triggered and the reference signal cannot be
    used, alignment raises and leaves the empty working dictionary as the
    stored result: [TypeError] when the raw data is still a list,
    [KeyError] when the reference name is absent, unknown to the raw data or
    its fetch failed, [IndexError] when its frame has no rows. *)
Theorem alignHistory_reference_errors service order flag st :
  flag && raw_falsy (rawData st) = false →
  (∀ l, rawData st = RawList l →
        alignHistory service order flag st
        = (set_synData empty_working_dict st, Raise TypeError)) ∧
  (∀ m : gmap string DataFrame, rawData st = RawDict m →
        match base_pv (alignSetup st) with
        | Some pv => m !! pv = None ∨ m !! pv = Some None
        | None => True
        end →
        alignHistory service order flag st
        = (set_synData empty_working_dict st, Raise KeyError)) ∧
  (∀ (m : gmap string DataFrame) pv, rawData st = RawDict m →
        base_pv (alignSetup st) = Some pv → m !! pv = Some (Some []) →
        alignHistory service order flag st
        = (set_synData empty_working_dict st, Raise IndexError)).
Proof.
  intros Hno. rewrite (alignHistory_no_fetch service order flag st Hno).
  split; [|split].
  - intros l ->. reflexivity.
  - intros m -> Hpv. simpl. destruct (base_pv (alignSetup st)) as [pv|]; [|done].
    unfold DataFrame, Samples in *. by destruct Hpv as [-> | ->].
  - intros m pv -> -> Hpv. simpl. unfold DataFrame, Samples in *.
    by rewrite Hpv.
Qed.

Lemma alignHistory_reference_errors_witness :
  alignHistory ex_service [0; 1]%nat false ex_state
  = (set_synData empty_working_dict ex_state, Raise TypeError) ∧
  alignHistory ex_service [0; 1]%nat true
               (ex_state_raw (mkAlignSetup None (Some "C") (Nested []) 1 1 true)
                             SynInit)
  = (set_synData empty_working_dict
       (ex_state_raw (mkAlignSetup None (Some "C") (Nested []) 1 1 true)
                     SynInit),
     Raise KeyError).
Proof.
  split.
  - destruct (alignHistory_reference_errors ex_service [0; 1]%nat false
                ex_state eq_refl) as (Hlist & _ & _).
    by apply (Hlist []).
  - destruct (alignHistory_reference_errors ex_service [0; 1]%nat true
                (ex_state_raw (mkAlignSetup None (Some "C") (Nested []) 1 1 true)
                              SynInit)) as (_ & Hkey & _).
    + vm_compute. reflexivity.
    + apply (Hkey ex_raw); [reflexivity|]. left. vm_compute. reflexivity.
Defined.

(** ** What a completed alignment implies *)

Lemma project_row_inv setup relTime idt pv frame row :
  project_row setup relTime idt pv frame = Ok row →
  (∃ rows, frame = Some rows) ∧ length row = length idt.
Proof.
  unfold project_row. destruct frame as [rows|].
  2: { by destruct (bool_decide _). }
  intros Hrow. split; [by eexists|]. revert Hrow.
  destruct (bool_decide _); cbn [columns mbind Res_bind mret Res_ret].
  - intros [= <-]. by rewrite length_map, length_gather.
  - destruct (length rows =? 1)%nat.
    + destruct (py_index _ 0); cbn [mbind Res_bind mret Res_ret]; [|done].
      intros [= <-]. by rewrite length_replicate.
    + destruct (py_index _ 0); cbn [mbind Res_bind]; [|done].
      unfold np.interp. destruct (_ =? 0)%nat; [done|].
      destruct (negb _); [done|]. intros [= <-].
      by rewrite length_map, length_gather.
Qed.

Lemma synData_eta st v : synData st = v → st = set_synData v st.
Proof. intros <-. by destruct st. Qed.

Lemma fill_rows_inv relTime idt pvs i st a b vals st' r :
  synData st = SynDict a b vals →
  fill_rows relTime idt i pvs st = (st', r) →
  ∃ vals',
    st' = set_synData (SynDict a b vals') st ∧
    length vals' = length vals ∧
    (r = Ok () →
     ∀ pv, pv ∈ pvs →
           ∃ rows, raw_getitem (rawData st) (Some pv) = Ok (Some rows)).
Proof.
  revert i st vals. induction pvs as [|pv pvs IH]; intros i st vals Hsyn.
  - simpl. intros [= <- <-]. exists vals. split; [by apply synData_eta|].
    split; [done|]. intros _ pv Hpv. by apply elem_of_nil in Hpv.
  - cbn [fill_rows]. unfold mbind at 1 2 3, M_bind, get, lift. cbn [fst snd].
    destruct (raw_getitem (rawData st) (Some pv)) as [frame|e] eqn:Hframe.
    2: { intros [= <- <-]. exists vals. split; [by apply synData_eta|].
         split; done. }
    destruct (project_row _ _ _ _ _) as [row|e] eqn:Hrow.
    2: { intros [= <- <-]. exists vals. split; [by apply synData_eta|].
         split; done. }
    unfold mbind at 1, M_bind, modify. cbn [fst snd].
    assert (syn_set_vals (<[i:=row]> (syn_vals st)) st
            = set_synData (SynDict a b (<[i:=row]> vals)) st) as ->.
    { unfold syn_set_vals, syn_vals. by rewrite Hsyn. }
    intros Hrest. apply (IH _ _ (<[i:=row]> vals)) in Hrest; [|done].
    destruct Hrest as (vals' & -> & Hlen & Hall).
    exists vals'. split; [by destruct st|].
    split; [by rewrite Hlen, length_insert|].
    intros Hr pv' Hpv'. apply elem_of_cons in Hpv' as [->|Hpv'].
    + apply project_row_inv in Hrow as [[rows ->] _]. by exists rows.
    + by apply Hall.
Qed.

Lemma mapM_Res_inv {A B} (f : A → Res B) l k :
  mapM f l = Ok k → Forall2 (fun x y => f x = Ok y) l k.
Proof.
  revert k. induction l as [|x l IH]; intros k; simpl.
  - intros [= <-]. constructor.
  - unfold mbind, Res_bind. destruct (f x) as [y|] eqn:Hy; [|done].
    fold (@mapM Res _ _ A B f).
    destruct (mapM f l) as [k'|] eqn:Hk; [|done].
    intros [= <-]. constructor; [done|by apply IH].
Qed.

Lemma interp_length xs xp fp ys :
  np.interp xs xp fp = Ok ys → length ys = length xs.
Proof.
  unfold np.interp. destruct (_ =? 0)%nat; [done|].
  destruct (negb _); [done|]. intros [= <-]. by rewrite length_map.
Qed.

Lemma align_rest_inv rows relTime ax st a b vals st' :
  synData st = SynDict a b vals →
  align_rest rows relTime ax st = (st', Ok ()) →
  (∀ pv, pv ∈ pvNames st →
         ∃ rows', raw_getitem (rawData st) (Some pv) = Ok (Some rows')) ∧
  ∀ index cols duration,
    synData st' = SynFrame index cols duration →
    dom cols = list_to_set (pvNames st) ∧
    ∀ pv row, cols !! pv = Some row → length row = length index.
Proof.
  intros Hsyn. unfold align_rest.
  unfold mbind at 1 2, M_bind, lift. cbn [fst snd].
  destruct (read_local (diff_idt ax)) as [d|]; [|done].
  destruct (sync_start _ d) as [start|]; [|done].
  unfold mbind at 1 2 3 4, M_bind, modify, get. cbn [fst snd].
  assert (syn_set_relTime (time_cum ax) (syn_set_start start st)
          = set_synData (SynDict (Some start) (time_cum ax) vals) st) as ->.
  { unfold syn_set_relTime, syn_set_start. rewrite Hsyn. by destruct st. }
  cbn [pvNames set_synData].
  set (zeros := replicate (length (pvNames st))
                          (replicate (length (time_cum ax)) (Some 0%Q))).
  assert (syn_set_vals zeros
            (set_synData (SynDict (Some start) (time_cum ax) vals) st)
          = set_synData (SynDict (Some start) (time_cum ax) zeros) st) as ->.
  { by destruct st. }
  unfold mbind at 1, M_bind.
  destruct (fill_rows relTime (idt ax) 0 (pvNames st) _) as [st4 r4] eqn:Hfill.
  apply (fill_rows_inv _ _ _ _ _ (Some start) (time_cum ax) zeros) in Hfill;
    [|done].
  destruct Hfill as (vals4 & -> & Hlen4 & Hall).
  destruct r4 as [[]|]; [|done].
  specialize (Hall eq_refl).
  intros Hrest. split.
  { intros pv Hpv. destruct (Hall pv Hpv) as [rows' Hrows'].
    exists rows'. by destruct st. }
  revert Hrest.
  unfold mbind at 1 2 3 4, M_bind, modify, get, lift. cbn [fst snd].
  destruct (py_last (time_cum ax)) as [final|]; [|done].
  destruct (resample_grid _ _) as [reSample|]; [|done].
  match goal with |- context [if ?c then _ else _] => destruct c eqn:Hc end.
  { intros [= <-] index cols duration Hframe. by destruct st. }
  unfold mbind at 1, M_bind, lift. cbn [fst snd].
  match goal with |- context [mapM ?f ?l] =>
    destruct (mapM f l) as [vals5|] eqn:Hmap end; [|done].
  unfold mbind, M_bind, modify. cbn [fst snd].
  intros [= <-] index cols duration Hframe.
  assert (index = reSample ∧
          cols = dict_of_zip (pvNames st) vals5) as [-> ->].
  { destruct st. simpl in Hframe. by injection Hframe as <- <- _. }
  apply mapM_Res_inv in Hmap.
  split.
  - apply dict_of_zip_dom. apply Forall2_length in Hmap. rewrite <- Hmap.
    destruct st. cbn. rewrite length_map, Hlen4. unfold zeros.
    by rewrite length_replicate.
  - intros pv row Hrow. apply dict_of_zip_lookup in Hrow as [_ Hrow].
    apply list_elem_of_lookup in Hrow as [k Hk].
    destruct (Forall2_lookup_r _ _ _ _ _ Hmap Hk) as (x & _ & Hx).
    by apply interp_length in Hx.
Qed.

(** X14.  A completed alignment implies a complete fetch and a rectangular
    result: if [alignHistory] returns normally and stores a frame, then the
    raw data holds a frame with columns for every configured signal (no
    fetch failed), the stored frame has exactly one column per configured
    name, and every column has one value per point of the resampled index. *)
Theorem alignHistory_completed service order flag st st' index cols duration :
  alignHistory service order flag st = (st', Ok ()) →
  synData st' = SynFrame index cols duration →
  (∃ m : gmap string DataFrame,
     rawData st' = RawDict m ∧
     ∀ pv, pv ∈ pvNames st' → ∃ rows, m !! pv = Some (Some rows)) ∧
  dom cols = list_to_set (pvNames st') ∧
  ∀ pv row, cols !! pv = Some row → length row = length index.
Proof.
  unfold alignHistory.
  unfold mbind at 1 2, M_bind at 1 2, get at 1. cbn [fst snd].
  destruct ((if flag && raw_falsy (rawData st)
             then getHistory service order else mret ()) st)
    as [st1 [[]|]] eqn:Hfetch; [|done].
  unfold mbind at 1 2 3, M_bind, modify, get, lift. cbn [fst snd].
  cbn [rawData alignSetup set_synData].
  destruct (raw_getitem (rawData st1) _) as [ref|] eqn:Href; [|done].
  unfold mbind at 1, M_bind. cbn [fst snd].
  destruct (columns ref) as [rows|]; [|done].
  unfold mbind at 1, M_bind. cbn [fst snd].
  destruct (py_index _ 0) as [t0|]; [|done].
  unfold mbind at 1, M_bind. cbn [fst snd].
  destruct (select_axis _ _ _) as [[ax|]|]; [| |done].
  2: { intros [= <-] Hframe. by destruct st1. }
  intros Hrest Hframe.
  pose proof (align_rest_only_synData rows
                (map (fun r => (r.1 - t0)%Q) rows) ax
                (set_synData (SynDict None [] []) st1)) as Hkeep.
  rewrite Hrest in Hkeep. cbn [fst] in Hkeep.
  assert (pvNames st' = pvNames st1 ∧ rawData st' = rawData st1) as [Hpv Hraw].
  { unfold only_synData_changed in Hkeep. rewrite Hkeep. by destruct st1. }
  apply (align_rest_inv _ _ _ _ None [] []) in Hrest as [Hall Hshape];
    [|by destruct st1].
  specialize (Hshape index cols duration Hframe) as [Hdom Hlen].
  rewrite Hpv, Hraw.
  assert (pvNames (set_synData (SynDict None [] []) st1) = pvNames st1) as Hpv1
    by by destruct st1.
  assert (rawData (set_synData (SynDict None [] []) st1) = rawData st1) as Hraw1
    by by destruct st1.
  rewrite Hpv1 in Hall, Hdom. rewrite Hraw1 in Hall.
  split; [|by split].
  destruct (rawData st1) as [l|m]; [done|].
  exists m. split; [done|]. intros pv Hin.
  destruct (Hall pv Hin) as [rows' Hrows']. exists rows'.
  simpl in Hrows'. destruct (m !! pv) as [frame|]; [|done].
  by injection Hrows' as ->.
Qed.

Lemma alignHistory_completed_witness :
  (∃ m : gmap string DataFrame,
     rawData (ex_state_raw (ex_setup true) ex_frame) = RawDict m ∧
     ∀ pv, pv ∈ pvNames (ex_state_raw (ex_setup true) ex_frame) →
           ∃ rows, m !! pv = Some (Some rows)) ∧
  dom (dict_of_zip ["A"; "B"]
         [[Some 5; Some 5]; [Some (30 # 3); Some (60 # 3)]]%Q)
  = list_to_set (pvNames (ex_state_raw (ex_setup true) ex_frame)) ∧
  ∀ pv row,
    dict_of_zip ["A"; "B"]
      [[Some 5; Some 5]; [Some (30 # 3); Some (60 # 3)]]%Q !! pv = Some row →
    length row = length [0 + 0 * 1; 0 + 1 * 1]%Q.
Proof.
  apply (alignHistory_completed ex_service [0; 1]%nat true
           (ex_state_raw (ex_setup true) SynInit)
           (ex_state_raw (ex_setup true) ex_frame)
           [0 + 0 * 1; 0 + 1 * 1]%Q
           (dict_of_zip ["A"; "B"]
              [[Some 5; Some 5]; [Some (30 # 3); Some (60 # 3)]]%Q)
           (2 # 3600)).
  - vm_compute. reflexivity.
  - reflexivity.
Defined.

(** ** Configuration *)

(** X15.  [set_base_pv] is all or nothing: it succeeds exactly when it is
    given a non-empty configured name, or no name and an index inside the
    signal list, and then replaces the whole alignment setup; otherwise it
    raises [ValueError] and changes nothing. *)
Theorem set_base_pv_all_or_nothing pv id vr bridge dt trim st :
  (base_accepted pv id st →
   set_base_pv pv id vr bridge dt trim st
   = (set_alignSetup
        (mkAlignSetup id pv (normalise_val_range vr) bridge dt trim) st,
      Ok ())) ∧
  (¬ base_accepted pv id st →
   set_base_pv pv id vr bridge dt trim st = (st, Raise ValueError)).
Proof.
  unfold set_base_pv, base_accepted, mbind, M_bind, get, lift, modify.
  cbn [fst snd].
  assert (∀ i : Z,
            ((i <? 0)%Z || (Z.of_nat (length (pvNames st)) <=? i)%Z = false)
            ↔ (0 <= i < Z.of_nat (length (pvNames st)))%Z) as Hrange.
  { intros i. rewrite orb_false_iff, Z.ltb_ge, Z.leb_gt. lia. }
  assert ((∃ i, id = Some i ∧ (0 <= i < Z.of_nat (length (pvNames st)))%Z) →
          match id with
          | Some i =>
              if ((i <? 0)%Z || (Z.of_nat (length (pvNames st)) <=? i)%Z)%bool
              then Raise ValueError else Ok ()
          | None => Raise ValueError
          end = Ok ()) as Hyes.
  { intros (i & -> & Hi). apply Hrange in Hi. by rewrite Hi. }
  assert (¬ (∃ i, id = Some i ∧ (0 <= i < Z.of_nat (length (pvNames st)))%Z) →
          match id with
          | Some i =>
              if ((i <? 0)%Z || (Z.of_nat (length (pvNames st)) <=? i)%Z)%bool
              then Raise ValueError else Ok ()
          | None => Raise ValueError
          end = Raise ValueError) as Hno.
  { intros Hn. destruct id as [i|]; [|done].
    destruct (_ || _) eqn:E; [done|]. exfalso. apply Hn. exists i.
    split; [done|]. by apply Hrange. }
  destruct pv as [[|c s]|].
  - split; intros H; [by rewrite (Hyes H)|by rewrite (Hno H)].
  - split; intros H.
    + by rewrite bool_decide_eq_true_2.
    + by rewrite bool_decide_eq_false_2.
  - split; intros H; [by rewrite (Hyes H)|by rewrite (Hno H)].
Qed.

Lemma set_base_pv_all_or_nothing_witness :
  set_base_pv (Some "C") (Some 0%Z) (Flat [10; 5000]%Q) 1 1 true ex_state
  = (ex_state, Raise ValueError).
Proof.
  destruct (set_base_pv_all_or_nothing (Some "C") (Some 0%Z)
              (Flat [10; 5000]%Q) 1 1 true ex_state) as [_ Hno].
  apply Hno. simpl. intros H. apply list_elem_of_In in H. simpl in H.
  destruct H as [H|[H|[]]]; discriminate H.
Defined.

(** X16.  The name is never derived from the index: after
    [set_base_pv] with no name and a valid index, the stored reference name
    is still absent, and aligning fetched data raises [KeyError]. *)
Theorem set_base_pv_by_index_breaks_alignment service order flag id vr bridge
    dt trim st i (m : gmap string DataFrame) :
  id = Some i → (0 <= i < Z.of_nat (length (pvNames st)))%Z →
  rawData st = RawDict m → raw_falsy (rawData st) = false →
  ∃ st1,
    set_base_pv None id vr bridge dt trim st = (st1, Ok ()) ∧
    base_pv (alignSetup st1) = None ∧
    alignHistory service order flag st1
    = (set_synData empty_working_dict st1, Raise KeyError).
Proof.
  intros -> Hi Hraw Hfalsy. eexists. split.
  - unfold set_base_pv, mbind, M_bind, get, lift, modify. cbn [fst snd].
    assert ((i <? 0)%Z || (Z.of_nat (length (pvNames st)) <=? i)%Z = false)
      as ->.
    { rewrite orb_false_iff, Z.ltb_ge, Z.leb_gt. lia. }
    reflexivity.
  - split; [done|].
    rewrite alignHistory_no_fetch.
    + cbn [rawData set_alignSetup alignSetup base_pv]. by rewrite Hraw.
    + cbn [rawData set_alignSetup]. rewrite Hfalsy. apply andb_false_r.
Qed.

Lemma set_base_pv_by_index_breaks_alignment_witness :
  ∃ st1,
    set_base_pv None (Some 1%Z) (Flat [1; 10]%Q) 1 1 true
                (ex_state_raw (ex_setup true) SynInit) = (st1, Ok ()) ∧
    base_pv (alignSetup st1) = None ∧
    alignHistory ex_service [0; 1]%nat true st1
    = (set_synData empty_working_dict st1, Raise KeyError).
Proof.
  apply (set_base_pv_by_index_breaks_alignment ex_service [0; 1]%nat true
           (Some 1%Z) (Flat [1; 10]%Q) 1 1 true
           (ex_state_raw (ex_setup true) SynInit) 1%Z ex_raw).
  - reflexivity.
  - simpl. lia.
  - reflexivity.
  - vm_compute. reflexivity.
Defined.

(** ** Properties set and read by name *)

Ltac eval_decides :=
  repeat match goal with
  | |- context [bool_decide ?P] =>
      let b := eval vm_compute in (bool_decide P) in
      change (bool_decide P) with b
  end.

(** X17.  Setting the start time, the end time or the duration through
    [set_property] leaves a consistent window: on success the stored start
    is set and the stored end minus the stored start is the stored duration
    (in seconds). *)
Theorem set_property_window_consistent strptime name value st st' :
  name ∈ ["startTime"; "endTime"; "duration_hour"] →
  set_property strptime name value st = (st', Ok ()) →
  ∃ s d,
    startTime st' = Some s ∧ duration_hour st' = Some d ∧
    (endTime st' - s == d * 3600)%Q.
Proof.
  intros Hname.
  assert (name = "startTime" ∨ name = "endTime" ∨ name = "duration_hour")
    as [-> | [-> | ->]].
  { apply list_elem_of_In in Hname. simpl in Hname.
    destruct Hname as [<-|[<-|[<-|[]]]]; auto. }
  - unfold set_property. eval_decides.
    unfold mbind, M_bind, mret, M_ret, lift, modify, stored_duration, get.
    cbn [fst snd].
    destruct value as [|v|q|l|dct]; try done.
    destruct (parse_time strptime (TStr v)) as [t|]; simpl; [|done].
    destruct (duration_hour st) as [d|] eqn:Hd; simpl; [|done].
    intros [= <-]. exists t, d. simpl. rewrite Hd. repeat split. ring.
  - unfold set_property. eval_decides.
    unfold mbind, M_bind, mret, M_ret, lift, modify, stored_duration, get.
    cbn [fst snd].
    destruct value as [|v|q|l|dct]; try done.
    destruct (parse_time strptime (TStr v)) as [t|]; simpl; [|done].
    destruct (duration_hour st) as [d|] eqn:Hd; simpl; [|done].
    intros [= <-]. exists (t - d * 3600)%Q, d. simpl. rewrite Hd.
    repeat split. ring.
  - unfold set_property. eval_decides.
    unfold mbind, M_bind, mret, M_ret, lift, modify, stored_duration, get.
    cbn [fst snd].
    destruct value as [|v|q|l|dct]; try done. simpl.
    intros [= <-]. exists (endTime st - q * 3600)%Q, q. simpl.
    repeat split. ring.
Qed.

Lemma set_property_window_consistent_witness :
  ∃ s d,
    startTime (set_endTime 1685977688
                 (set_startTime (Some (1685977688 - (10 # 3600) * 3600)%Q)
                                ex_state)) = Some s ∧
    duration_hour (set_endTime 1685977688
                     (set_startTime (Some (1685977688 - (10 # 3600) * 3600)%Q)
                                    ex_state)) = Some d ∧
    (endTime (set_endTime 1685977688
                (set_startTime (Some (1685977688 - (10 # 3600) * 3600)%Q)
                               ex_state)) - s == d * 3600)%Q.
Proof.
  apply (set_property_window_consistent ex_strptime "endTime"
           (VStr "06/05/2023 08:08:08") ex_state).
  - apply list_elem_of_In. simpl. auto.
  - vm_compute. reflexivity.
Defined.

(** X18.  What [set_property] stores, [get_property] returns: a numeric
    duration, a single signal name (stored as a one-element list) and a
    complete alignment dictionary all read back as written. *)
Theorem set_then_get_property strptime st :
  (∀ q, ∃ st',
     set_property strptime "duration_hour" (VNum q) st = (st', Ok ()) ∧
     get_property "duration_hour" st' = (st', Ok (ADuration (Some q)))) ∧
  (∀ pv, ∃ st',
     set_property strptime "pvNames" (VStr pv) st = (st', Ok ()) ∧
     get_property "pvNames" st' = (st', Ok (APvNames [pv]))) ∧
  (∀ a, ∃ st',
     set_property strptime "alignSetup" (VDict (dict_of_setup a)) st
     = (st', Ok ()) ∧
     get_property "alignSetup" st' = (st', Ok (AAlignSetup a))).
Proof.
  split; [|split].
  - intros q. eexists. split; [reflexivity|reflexivity].
  - intros pv. eexists. split; [reflexivity|reflexivity].
  - intros a. eexists. split; [reflexivity|]. by destruct a.
Qed.

Lemma getattr_attributes st name :
  name ∈ attributes → ∃ v, getattr st name = Some v.
Proof.
  intros Hin. apply list_elem_of_In in Hin. simpl in Hin.
  repeat (destruct Hin as [<-|Hin]; [by eexists|]). done.
Qed.

(** X19.  Reading and writing by name accept the same eight attribute
    names: [get_property] succeeds on each of them without changing the
    object, and on any other name both [get_property] and [set_property]
    raise [AttributeError] and change nothing. *)
Theorem property_names strptime name value st :
  (name ∈ attributes → ∃ v, get_property name st = (st, Ok v)) ∧
  (name ∉ attributes →
   get_property name st = (st, Raise AttributeError) ∧
   set_property strptime name value st = (st, Raise AttributeError)).
Proof.
  split.
  - intros Hin. unfold get_property. rewrite bool_decide_eq_true_2 by done.
    destruct (getattr_attributes st name Hin) as [v ->]. by exists v.
  - intros Hnin. unfold get_property, set_property.
    by rewrite !bool_decide_eq_false_2.
Qed.

Lemma property_names_witness :
  get_property "base_pv" ex_state = (ex_state, Raise AttributeError) ∧
  set_property ex_strptime "base_pv" (VStr "A") ex_state
  = (ex_state, Raise AttributeError).
Proof.
  apply (property_names ex_strptime "base_pv" (VStr "A") ex_state).
  intros H. apply list_elem_of_In in H. simpl in H.
  repeat (destruct H as [H|H]; [discriminate H|]). done.
Defined.

(** ** The endpoint after construction *)

Lemma same_endpoint_refl st : same_endpoint st st.
Proof. done. Qed.

Lemma same_endpoint_trans st1 st2 st3 :
  same_endpoint st1 st2 → same_endpoint st2 st3 → same_endpoint st1 st3.
Proof. unfold same_endpoint. congruence. Qed.

Ltac kend_step :=
  first
    [ apply keeps_bind; [apply same_endpoint_trans| |intros ?]
    | apply keeps_get, same_endpoint_refl
    | apply keeps_lift, same_endpoint_refl
    | apply keeps_ret, same_endpoint_refl
    | apply keeps_modify; intros ?; reflexivity
    | match goal with
      | |- keeps _ (if ?c then _ else _) => destruct c
      | |- keeps _ (match ?v with _ => _ end) => destruct v
      end ].

Lemma set_property_same_endpoint strptime name value :
  keeps same_endpoint (set_property strptime name value).
Proof. unfold set_property, stored_duration. repeat kend_step. Qed.

Lemma set_properties_same_endpoint strptime items :
  keeps same_endpoint (set_properties strptime items).
Proof.
  induction items as [|[name value] items IH]; cbn [set_properties].
  - kend_step.
  - apply keeps_bind; [apply same_endpoint_trans| |intros _; apply IH].
    apply set_property_same_endpoint.
Qed.

Lemma only_data_same_endpoint st st' :
  only_data_changed st st' → same_endpoint st st'.
Proof. unfold only_data_changed, same_endpoint. intros ->. by destruct st. Qed.

(** X20.  No method changes the service endpoint chosen by the
    constructor: it is the same after [set_property] (one name or a whole
    dictionary), [set_base_pv], [getHistory] and [alignHistory], whether
    they succeed or raise. *)
Theorem endpoint_never_changes strptime service st :
  (∀ name value,
     webServer (set_property strptime name value st).1 = webServer st) ∧
  (∀ items, webServer (set_properties strptime items st).1 = webServer st) ∧
  (∀ pv id vr bridge dt trim,
     webServer (set_base_pv pv id vr bridge dt trim st).1 = webServer st) ∧
  (∀ order, webServer (getHistory service order st).1 = webServer st) ∧
  (∀ order flag,
     webServer (alignHistory service order flag st).1 = webServer st).
Proof.
  split; [|split; [|split; [|split]]].
  - intros name value. apply set_property_same_endpoint.
  - intros items. apply set_properties_same_endpoint.
  - intros pv id vr bridge dt trim.
    assert (keeps same_endpoint (set_base_pv pv id vr bridge dt trim)) as H
      by (unfold set_base_pv; repeat kend_step).
    apply H.
  - intros order. apply only_data_same_endpoint, getHistory_only_data.
  - intros order flag. apply only_data_same_endpoint, alignHistory_frame.
Qed.

(** ** The constructor *)

Lemma endpoint_of_known server url :
  endpoint_of server = Ok url → url = url_LCLS ∨ url = url_SSRL.
Proof.
  unfold endpoint_of. destruct (bool_decide _); [intros [= <-]; by left|].
  destruct (bool_decide _); [intros [= <-]; by right|done].
Qed.

(** X21.  A successfully constructed retriever has a non-empty signal list
    (the three default signals when none is given), one of the two known
    endpoints, no raw data and no aligned result; without an [alignSetup]
    argument its reference is the first signal, with index 0, the range
    [1e3, 1e5], one-second bridge and resample interval, and trimming on. *)
Theorem init_postconditions strptime names server endT dur startT setup st :
  init strptime names server endT dur startT setup = Ok st →
  pvNames st = pvNames_of names ∧ pvNames st ≠ [] ∧
  (webServer st = url_LCLS ∨ webServer st = url_SSRL) ∧
  duration_hour st = dur ∧
  rawData st = RawList [] ∧ synData st = SynInit ∧
  alignSetup st =
    match setup with
    | Some a => a
    | None => mkAlignSetup (Some 0%Z) (head (pvNames st))
                (Nested [[1000; 100000]%Q]) 1 1 true
    end.
Proof.
  unfold init.
  destruct (match setup with
            | Some a => Ok a
            | None => default_alignSetup (pvNames_of names)
            end) as [align|] eqn:Halign; cbn [mbind Res_bind]; [|done].
  destruct (complete_times _ _ _ _) as [times|]; cbn [mbind Res_bind]; [|done].
  destruct (check_times _ _ _ _) as [[]|]; cbn [mbind Res_bind]; [|done].
  destruct (endpoint_of server) as [url|] eqn:Hurl; cbn [mbind Res_bind];
    [|done].
  destruct (parse_time strptime times.1) as [e|]; cbn [mbind Res_bind];
    [|done].
  destruct (if time_truthy times.2 then _ else _) as [s|];
    cbn [mbind Res_bind mret Res_ret]; [|done].
  intros [= <-]. cbn.
  split; [done|]. split; [by destruct names as [|?|[|? ?]]|].
  split; [by eapply endpoint_of_known|].
  repeat split.
  destruct setup as [a|]; [by injection Halign|].
  unfold default_alignSetup, py_index in Halign.
  rewrite <- head_lookup in Halign.
  destruct (head (pvNames_of names)); cbn in Halign; [|done].
  by injection Halign as <-.
Qed.

Lemma init_postconditions_witness :
  init ex_strptime PvNone "lcls" (Some "06/05/2023 08:08:08") (Some 4%Q)
       None None = Ok ex_state_init ∧
  pvNames ex_state_init = default_pvNames ∧
  (webServer ex_state_init = url_LCLS ∨ webServer ex_state_init = url_SSRL) ∧
  rawData ex_state_init = RawList [].
Proof.
  split; [vm_compute; reflexivity|].
  destruct (init_postconditions ex_strptime PvNone "lcls"
              (Some "06/05/2023 08:08:08") (Some 4%Q) None None ex_state_init)
    as (Hpv & _ & Hurl & _ & Hraw & _ & _).
  - vm_compute. reflexivity.
  - split; [exact Hpv|]. split; [exact Hurl|exact Hraw].
Defined.

Lemma time_truthy_parsed strptime a t :
  strptime "" = None → parse_time strptime a = Ok t → time_truthy a = true.
Proof.
  intros Hempty. destruct a as [|str|q]; simpl; [done| |done].
  destruct (decide (str = "")) as [->|Hne].
  - by rewrite Hempty.
  - intros _. by rewrite bool_decide_eq_false_2.
Qed.

(** X22.  A retriever constructed with a start time and a non-zero duration
    has a consistent window: the stored end minus the stored start differs
    from the stored duration by at most 1e-6 hour (the empty string being no
    valid date). *)
Theorem init_window_consistent strptime names server endT dur startT setup
    st s d :
  strptime "" = None →
  init strptime names server endT dur startT setup = Ok st →
  startTime st = Some s → dur = Some d → ¬ (d == 0)%Q →
  (Qabs ((endTime st - s) / 3600 - d) <= 1 # 1000000)%Q.
Proof.
  intros Hempty Hinit Hs -> Hd. revert Hinit. unfold init.
  destruct (match setup with
            | Some a => Ok a
            | None => default_alignSetup (pvNames_of names)
            end) as [align|]; cbn [mbind Res_bind]; [|done].
  destruct (complete_times _ _ _ _) as [times|]; cbn [mbind Res_bind]; [|done].
  destruct (check_times _ _ _ _) as [[]|] eqn:Hcheck; cbn [mbind Res_bind];
    [|done].
  destruct (endpoint_of server) as [url|]; cbn [mbind Res_bind]; [|done].
  destruct (parse_time strptime times.1) as [e|] eqn:He; cbn [mbind Res_bind];
    [|done].
  destruct (time_truthy times.2) eqn:Ht2.
  2: { cbn [mbind Res_bind mret Res_ret]. intros [= <-]. done. }
  destruct (parse_time strptime times.2) as [s'|] eqn:Hs';
    cbn [mbind Res_bind mret Res_ret]; [|done].
  intros [= <-]. cbn in Hs. injection Hs as ->. cbn [endTime].
  unfold check_times in Hcheck.
  rewrite Ht2, (time_truthy_parsed strptime times.1 e Hempty He) in Hcheck.
  assert (num_truthy (Some d) = true) as Hnum.
  { simpl. apply negb_true_iff. apply not_true_iff_false.
    intros Heq. by apply Qeq_bool_eq in Heq. }
  rewrite Hnum, Hs', He in Hcheck. cbn in Hcheck.
  destruct (Qlt_bool _ _) eqn:Hlt; [done|].
  apply not_true_iff_false in Hlt. rewrite Qlt_bool_iff in Hlt.
  by apply Qnot_lt_le.
Qed.

Lemma init_window_consistent_witness :
  (Qabs ((endTime ex_state_init
          - inject_Z (Qfloor (1685977688 - hours (Some 4%Q)))) / 3600 - 4)
   <= 1 # 1000000)%Q.
Proof.
  apply (init_window_consistent ex_strptime PvNone "lcls"
           (Some "06/05/2023 08:08:08") (Some 4%Q) None None ex_state_init
           (inject_Z (Qfloor (1685977688 - hours (Some 4%Q)))) 4%Q).
  - reflexivity.
  - vm_compute. reflexivity.
  - reflexivity.
  - reflexivity.
  - vm_compute. discriminate.
Defined.

(** ** The PV-name generator *)

Lemma validate_cavity (cavity : Z) :
  negb ((1 <=? cavity)%Z && (cavity <=? 8)%Z) = false ↔ (1 <= cavity <= 8)%Z.
Proof. rewrite negb_false_iff, andb_true_iff, !Z.leb_le. done. Qed.

Lemma validate_spec section cryo cavity :
  (SSA.valid_triple section cryo cavity →
   SSA.validate section cryo cavity = Ok ()) ∧
  (¬ SSA.valid_triple section cryo cavity →
   SSA.validate section cryo cavity = Raise ValueError).
Proof.
  unfold SSA.valid_triple.
  assert (∀ b : bool, (if b then Raise ValueError else Ok ()) = Ok () ↔ b = false)
    as Hif by (intros []; split; done).
  assert (∀ b : bool, b ≠ false →
            (if b then @Raise unit ValueError else Ok ()) = Raise ValueError)
    as Hif' by (intros []; done).
  destruct (decide (section = 0%Z)) as [->|H0];
    [|destruct (decide (section = 1%Z)) as [->|H1];
      [|destruct (decide (section = 2%Z)) as [->|H2];
        [|destruct (decide (section = 3%Z)) as [->|H3]]]].
  - unfold SSA.validate. cbn [negb andb Z.eqb].
    rewrite bool_decide_eq_true_2 by (by left). cbn [negb].
    destruct (Z.eqb_spec cryo 1) as [->|Hc]; cbn [negb].
    + split.
      * intros [_ Hv]. by apply Hif, validate_cavity.
      * intros Hn. apply Hif'. rewrite validate_cavity. intros Hv.
        apply Hn. split; [by left|done].
    + split; [|done]. intros [Hsc _]. lia.
  - unfold SSA.validate. cbn [negb andb Z.eqb Pos.eqb].
    rewrite bool_decide_eq_true_2 by (right; by left). cbn [negb].
    destruct (bool_decide (cryo ∈ [2; 3]%Z)) eqn:Hc; cbn [negb].
    + apply bool_decide_eq_true_1 in Hc.
      assert (cryo = 2 ∨ cryo = 3)%Z as Hc'.
      { revert Hc. rewrite !elem_of_cons, elem_of_nil. tauto. }
      split.
      * intros [_ Hv]. by apply Hif, validate_cavity.
      * intros Hn. apply Hif'. rewrite validate_cavity. intros Hv.
        apply Hn. split; [right; left; done|done].
    + apply bool_decide_eq_false_1 in Hc.
      split; [|done]. intros [Hsc _]. exfalso. apply Hc.
      rewrite !elem_of_cons. lia.
  - unfold SSA.validate. cbn [negb andb Z.eqb Pos.eqb].
    rewrite bool_decide_eq_true_2 by (do 2 right; by left). cbn [negb].
    destruct ((4 <=? cryo)%Z && (cryo <=? 15)%Z) eqn:Hc; cbn [negb].
    + apply andb_true_iff in Hc as [Hc1 Hc2].
      apply Z.leb_le in Hc1, Hc2. split.
      * intros [_ Hv]. by apply Hif, validate_cavity.
      * intros Hn. apply Hif'. rewrite validate_cavity. intros Hv.
        apply Hn. split; [right; right; left; done|done].
    + split; [|done]. intros [Hsc _]. exfalso.
      apply andb_false_iff in Hc. rewrite !Z.leb_gt in Hc. lia.
  - unfold SSA.validate. cbn [negb andb Z.eqb Pos.eqb].
    rewrite bool_decide_eq_true_2 by (do 3 right; by left). cbn [negb].
    destruct ((16 <=? cryo)%Z && (cryo <=? 35)%Z) eqn:Hc; cbn [negb].
    + apply andb_true_iff in Hc as [Hc1 Hc2].
      apply Z.leb_le in Hc1, Hc2. split.
      * intros [_ Hv]. by apply Hif, validate_cavity.
      * intros Hn. apply Hif'. rewrite validate_cavity. intros Hv.
        apply Hn. split; [right; right; right; done|done].
    + split; [|done]. intros [Hsc _]. exfalso.
      apply andb_false_iff in Hc. rewrite !Z.leb_gt in Hc. lia.
  - unfold SSA.validate. rewrite bool_decide_eq_false_2.
    + cbn [negb]. split; [|done]. intros [Hsc _]. lia.
    + rewrite !elem_of_cons, elem_of_nil. lia.
Qed.

(** X23.  The generator accepts exactly the documented combinations:
    section 0 with cryomodule 1, section 1 with 2 or 3, section 2 with 4 to
    15, section 3 with 16 to 35, and a cavity from 1 to 8.  Any other
    integers raise [ValueError]; an argument that is not an integer raises
    [TypeError] before any range is checked. *)
Theorem getLCLSII_SSA_pv_validation section cryo cavity :
  (SSA.valid_triple section cryo cavity →
   ∃ pvs, SSA.getLCLSII_SSA_pv (SSA.PInt section) (SSA.PInt cryo)
                                (SSA.PInt cavity) = Ok pvs) ∧
  (¬ SSA.valid_triple section cryo cavity →
   SSA.getLCLSII_SSA_pv (SSA.PInt section) (SSA.PInt cryo) (SSA.PInt cavity)
   = Raise ValueError) ∧
  (∀ a b,
     SSA.getLCLSII_SSA_pv SSA.PNotInt a b = Raise TypeError ∧
     SSA.getLCLSII_SSA_pv (SSA.PInt section) SSA.PNotInt b = Raise TypeError ∧
     SSA.getLCLSII_SSA_pv (SSA.PInt section) (SSA.PInt cryo) SSA.PNotInt
     = Raise TypeError).
Proof.
  destruct (validate_spec section cryo cavity) as [Hyes Hno].
  unfold SSA.getLCLSII_SSA_pv. cbn [SSA.as_int mbind Res_bind].
  split; [|split].
  - intros Hv. rewrite (Hyes Hv). by eexists.
  - intros Hv. by rewrite (Hno Hv).
  - intros a b. repeat split.
Qed.

Lemma getLCLSII_SSA_pv_validation_witness :
  SSA.getLCLSII_SSA_pv (SSA.PInt 1) (SSA.PInt 4) (SSA.PInt 1)
  = Raise ValueError.
Proof.
  destruct (getLCLSII_SSA_pv_validation 1 4 1) as (_ & Hno & _).
  apply Hno. unfold SSA.valid_triple. lia.
Defined.

Lemma valid_triple_listed section cryo cavity :
  SSA.valid_triple section cryo cavity →
  (section, cryo, cavity) ∈ SSA.all_triples.
Proof.
  intros [Hsc Hv]. unfold SSA.all_triples.
  apply list_elem_of_bind. exists (section, cryo). split.
  - apply list_elem_of_fmap. exists cavity. split; [done|].
    apply elem_of_seqZ. lia.
  - rewrite !elem_of_app, !list_elem_of_fmap.
    destruct Hsc as [[-> ->]|[[-> Hc]|[[-> Hc]|[-> Hc]]]].
    + left. by left.
    + left. destruct Hc as [-> | ->]; [right; by left|right; right; by left].
    + right. left. exists cryo. split; [done|]. apply elem_of_seqZ. lia.
    + right. right. exists cryo. split; [done|]. apply elem_of_seqZ. lia.
Qed.

Lemma all_headers_length :
  forallb (fun t => (String.length (SSA.header_of t) =? 17)%nat)
          SSA.all_triples = true.
Proof. vm_compute. reflexivity. Qed.

Lemma all_headers_distinct :
  bool_decide (NoDup (SSA.header_of <$> SSA.all_triples)) = true.
Proof. vm_compute. reflexivity. Qed.

Lemma suffixes_distinct : bool_decide (NoDup SSA.suffixes) = true.
Proof. vm_compute. reflexivity. Qed.

Lemma flatten_suffixes h :
  SSA.flatten (foldl (SSA.round h) (SSA.initial h) (seqZ 1 3))
  = (fun suffix => h +:+ suffix) <$> SSA.suffixes.
Proof. vm_compute. reflexivity. Qed.

Lemma append_inj_r h a b : h +:+ a = h +:+ b → a = b.
Proof. induction h as [|c h IH]; simpl; [done|]. intros [= H]. by apply IH. Qed.

(** X24.  For every accepted combination the generator yields 65 signal
    names in all (as flattened by the driver), pairwise distinct, each made
    of the 17-character header of the cavity followed by a suffix. *)
Theorem getLCLSII_SSA_pv_names section cryo cavity :
  SSA.valid_triple section cryo cavity →
  ∃ pvs,
    SSA.getLCLSII_SSA_pv (SSA.PInt section) (SSA.PInt cryo) (SSA.PInt cavity)
    = Ok pvs ∧
    length (SSA.flatten pvs) = 65%nat ∧
    NoDup (SSA.flatten pvs) ∧
    String.length (SSA.ssa_header section cryo cavity) = 17%nat ∧
    ∀ name, name ∈ SSA.flatten pvs →
            ∃ suffix, name = SSA.ssa_header section cryo cavity +:+ suffix.
Proof.
  intros Hv. destruct (validate_spec section cryo cavity) as [Hyes _].
  unfold SSA.getLCLSII_SSA_pv. cbn [SSA.as_int mbind Res_bind].
  rewrite (Hyes Hv). cbn [mbind Res_bind mret Res_ret].
  eexists. split; [reflexivity|]. rewrite flatten_suffixes.
  split; [by rewrite length_fmap|]. split; [|split].
  - apply NoDup_fmap_2.
    + intros a b. apply append_inj_r.
    + apply (bool_decide_eq_true_1 _ suffixes_distinct).
  - apply valid_triple_listed in Hv.
    pose proof all_headers_length as Hall. rewrite forallb_forall in Hall.
    specialize (Hall _ (proj1 (list_elem_of_In _ _) Hv)).
    by apply Nat.eqb_eq in Hall.
  - intros name Hname. apply list_elem_of_fmap in Hname as (suffix & -> & _).
    by exists suffix.
Qed.

Lemma getLCLSII_SSA_pv_names_witness :
  ∃ pvs,
    SSA.getLCLSII_SSA_pv (SSA.PInt 2) (SSA.PInt 4) (SSA.PInt 1) = Ok pvs ∧
    length (SSA.flatten pvs) = 65%nat ∧
    NoDup (SSA.flatten pvs) ∧
    String.length (SSA.ssa_header 2 4 1) = 17%nat ∧
    ∀ name, name ∈ SSA.flatten pvs →
            ∃ suffix, name = SSA.ssa_header 2 4 1 +:+ suffix.
Proof.
  apply (getLCLSII_SSA_pv_names 2 4 1). unfold SSA.valid_triple. lia.
Defined.

Lemma NoDup_fmap_inj_on {A B} `{EqDecision A} (f : A → B) l x y :
  NoDup (f <$> l) → x ∈ l → y ∈ l → f x = f y → x = y.
Proof.
  induction l as [|a l IH]; intros Hnd Hx Hy Hf; [by apply elem_of_nil in Hx|].
  rewrite fmap_cons in Hnd. apply NoDup_cons in Hnd as [Hna Hnd].
  apply elem_of_cons in Hx as [->|Hx]; apply elem_of_cons in Hy as [->|Hy].
  - done.
  - exfalso. apply Hna. rewrite Hf. by apply list_elem_of_fmap_2.
  - exfalso. apply Hna. rewrite <- Hf. by apply list_elem_of_fmap_2.
  - by apply IH.
Qed.

Lemma append_same_length_inj h1 h2 s1 s2 :
  String.length h1 = String.length h2 → h1 +:+ s1 = h2 +:+ s2 → h1 = h2.
Proof.
  revert h2. induction h1 as [|c h1 IH]; intros [|c' h2]; simpl; try done.
  intros [= Hlen] [= -> Heq]. f_equal. by apply IH.
Qed.

(** X25.  Names of different cavities never collide: if two accepted
    combinations have a generated name in common, they are the same
    section, cryomodule and cavity. *)
Theorem getLCLSII_SSA_pv_disjoint s1 c1 v1 s2 c2 v2 pvs1 pvs2 name :
  SSA.valid_triple s1 c1 v1 → SSA.valid_triple s2 c2 v2 →
  SSA.getLCLSII_SSA_pv (SSA.PInt s1) (SSA.PInt c1) (SSA.PInt v1) = Ok pvs1 →
  SSA.getLCLSII_SSA_pv (SSA.PInt s2) (SSA.PInt c2) (SSA.PInt v2) = Ok pvs2 →
  name ∈ SSA.flatten pvs1 → name ∈ SSA.flatten pvs2 →
  (s1, c1, v1) = (s2, c2, v2).
Proof.
  intros Hv1 Hv2.
  destruct (validate_spec s1 c1 v1) as [Hyes1 _].
  destruct (validate_spec s2 c2 v2) as [Hyes2 _].
  unfold SSA.getLCLSII_SSA_pv. cbn [SSA.as_int mbind Res_bind].
  rewrite (Hyes1 Hv1), (Hyes2 Hv2). cbn [mbind Res_bind mret Res_ret].
  cbv zeta. intros H1 H2.
  assert (pvs1 = foldl (SSA.round (SSA.ssa_header s1 c1 v1))
                       (SSA.initial (SSA.ssa_header s1 c1 v1)) (seqZ 1 3))
    as -> by (by injection H1).
  assert (pvs2 = foldl (SSA.round (SSA.ssa_header s2 c2 v2))
                       (SSA.initial (SSA.ssa_header s2 c2 v2)) (seqZ 1 3))
    as -> by (by injection H2).
  clear H1 H2. rewrite !flatten_suffixes.
  intros (a & -> & _)%list_elem_of_fmap (b & Heq & _)%list_elem_of_fmap.
  apply valid_triple_listed in Hv1, Hv2.
  pose proof all_headers_length as Hall. rewrite forallb_forall in Hall.
  pose proof (Hall _ (proj1 (list_elem_of_In _ _) Hv1)) as Hl1.
  pose proof (Hall _ (proj1 (list_elem_of_In _ _) Hv2)) as Hl2.
  apply Nat.eqb_eq in Hl1, Hl2. unfold SSA.header_of in Hl1, Hl2.
  cbn [fst snd] in Hl1, Hl2.
  apply append_same_length_inj in Heq; [|congruence].
  apply (NoDup_fmap_inj_on SSA.header_of SSA.all_triples); try done.
  apply (bool_decide_eq_true_1 _ all_headers_distinct).
Qed.

Lemma getLCLSII_SSA_pv_disjoint_witness :
  SSA.valid_triple 2 4 1 ∧
  "ACCL:L2B:0410:SSA:FwdPwr"
    ∈ SSA.flatten (foldl (SSA.round (SSA.ssa_header 2 4 1))
                         (SSA.initial (SSA.ssa_header 2 4 1)) (seqZ 1 3)) ∧
  (2, 4, 1)%Z = (2, 4, 1)%Z.
Proof.
  assert (SSA.valid_triple 2 4 1) as Hv by (unfold SSA.valid_triple; lia).
  assert ("ACCL:L2B:0410:SSA:FwdPwr"
            ∈ SSA.flatten (foldl (SSA.round (SSA.ssa_header 2 4 1))
                                 (SSA.initial (SSA.ssa_header 2 4 1))
                                 (seqZ 1 3))) as Hin.
  { apply list_elem_of_In. vm_compute.
    repeat (first [left; reflexivity | right]). }
  split; [exact Hv|]. split; [exact Hin|].
  apply (getLCLSII_SSA_pv_disjoint 2 4 1 2 4 1
           (foldl (SSA.round (SSA.ssa_header 2 4 1))
                  (SSA.initial (SSA.ssa_header 2 4 1)) (seqZ 1 3))
           (foldl (SSA.round (SSA.ssa_header 2 4 1))
                  (SSA.initial (SSA.ssa_header 2 4 1)) (seqZ 1 3))
           "ACCL:L2B:0410:SSA:FwdPwr" Hv Hv eq_refl eq_refl Hin Hin).
Defined.

(** ** Counting the entries of the raw dataset *)

Lemma dict_of_zip_to_list {V} (names : list string) (datas : list V) :
  NoDup names → length names = length datas →
  map_to_list (dict_of_zip names datas) ≡ₚ zip names datas.
Proof.
  unfold dict_of_zip. intros Hnd Hlen.
  assert (∀ m : gmap string V,
            (∀ k, k ∈ names → m !! k = None) →
            map_to_list (foldl (fun m p => <[p.1 := p.2]> m) m (zip names datas))
            ≡ₚ zip names datas ++ map_to_list m) as H.
  { revert datas Hlen. induction Hnd as [|a names Ha Hnd IH];
      intros [|x datas] Hlen m Hm; simpl in *; try done.
    rewrite IH; [|lia|].
    - rewrite map_to_list_insert by (apply Hm; by left).
      by rewrite Permutation_middle.
    - intros k Hk. rewrite lookup_insert_ne; [apply Hm; by right|].
      intros ->. done. }
  rewrite H by (intros; apply lookup_empty).
  by rewrite map_to_list_empty, app_nil_r.
Qed.

(** X26.  With distinct signal names, the stored frames are, up to order,
    exactly the frames fetched for the configured signals, whatever the
    completion order: of N signals with M failed fetches, the raw dataset
    has exactly M empty entries (and N - M populated ones). *)
Theorem getHistory_entry_counts service order st start_ts d :
  startTime st = Some start_ts → duration_hour st = Some d →
  NoDup (pvNames st) → order ≡ₚ seq 0 (length (pvNames st)) →
  ∃ m : gmap string DataFrame,
    getHistory service order st = (set_rawData (RawDict m) st, Ok ()) ∧
    (map_to_list m).*2 ≡ₚ fetched service st <$> pvNames st ∧
    size m = length (pvNames st) ∧
    length (List.filter is_empty_frame (map_to_list m).*2)
    = length (List.filter is_empty_frame (fetched service st <$> pvNames st)).
Proof.
  intros Hstart Hd Hnd Hperm. eexists.
  split; [by apply (getHistory_result service order st start_ts d)|].
  assert (omap (fun i => pvNames st !! i) order ≡ₚ pvNames st) as Hnames.
  { rewrite Hperm. by rewrite omap_lookup_all. }
  set (datas := map (fetched service st)
                    (omap (fun i => pvNames st !! i) order)).
  assert (length (pvNames st) = length datas) as Hlen.
  { unfold datas. rewrite length_map. by rewrite Hnames. }
  assert ((map_to_list (dict_of_zip (pvNames st) datas)).*2
          ≡ₚ fetched service st <$> pvNames st) as Hvals.
  { rewrite (dict_of_zip_to_list _ _ Hnd Hlen).
    rewrite snd_zip by lia. unfold datas.
    change (map (fetched service st)) with (fmap (M := list) (fetched service st)).
    by rewrite Hnames. }
  split; [exact Hvals|]. split.
  - rewrite <- length_map_to_list.
    rewrite (dict_of_zip_to_list _ _ Hnd Hlen), length_zip_with. lia.
  - by rewrite (filter_Permutation _ _ _ Hvals).
Qed.

Lemma getHistory_entry_counts_witness :
  ∃ m : gmap string DataFrame,
    getHistory ex_service [1; 0]%nat ex_state
    = (set_rawData (RawDict m) ex_state, Ok ()) ∧
    (map_to_list m).*2 ≡ₚ fetched ex_service ex_state <$> pvNames ex_state ∧
    size m = length (pvNames ex_state) ∧
    length (List.filter is_empty_frame (map_to_list m).*2)
    = length (List.filter is_empty_frame
                (fetched ex_service ex_state <$> pvNames ex_state)).
Proof.
  apply (getHistory_entry_counts ex_service [1; 0]%nat ex_state 100%Q
           (10 # 3600)%Q).
  - reflexivity.
  - reflexivity.
  - apply (bool_decide_eq_true_1 (NoDup ["A"; "B"])). reflexivity.
  - apply perm_swap.
Defined.

(** ** When alignment succeeds *)








(** ** The boundary samples of a fetch *)

Lemma non_decreasing_cons x l :
  non_decreasing (x :: l) →
  non_decreasing l ∧ Forall (fun y => (x <= y)%Q) l.
Proof.
  revert x. induction l as [|y l IH]; intros x H; [done|].
  destruct H as [Hxy Hl]. split; [done|]. constructor; [done|].
  destruct (IH y Hl) as [_ HF]. eapply Forall_impl; [exact HF|].
  intros z Hz. simpl in Hz. by apply Qle_trans with y.
Qed.

(** In an ascending list the entries satisfying a downward-closed test form
    a prefix. *)
Lemma sorted_partition (P : Q → bool) l :
  non_decreasing l →
  (∀ x y, (x <= y)%Q → P y = true → P x = true) →
  ∃ i, (i ≤ length l)%nat ∧
       ∀ j x, l !! j = Some x → (P x = true ↔ (j < i)%nat).
Proof.
  intros Hsorted Hdown. induction l as [|x l IH].
  - exists 0%nat. split; [done|]. intros j x Hx. done.
  - apply non_decreasing_cons in Hsorted as [Hl Hall].
    destruct (P x) eqn:Hx.
    + destruct (IH Hl) as (i & Hi & Hpart). exists (S i).
      split; [simpl; lia|]. intros [|j] y Hy.
      * injection Hy as <-. split; [lia|done].
      * rewrite (Hpart j y Hy). lia.
    + exists 0%nat. split; [lia|]. intros j y Hy. split; [|lia].
      intros HPy. destruct j as [|j].
      * injection Hy as <-. congruence.
      * change (l !! j = Some y) in Hy. apply list_elem_of_lookup_2 in Hy.
        rewrite Forall_forall in Hall. specialize (Hall y Hy).
        rewrite (Hdown x y Hall HPy) in Hx. done.
Qed.

Lemma bisect_left_spec fuel a key lo hi i :
  (lo ≤ i ≤ hi)%nat → (hi ≤ length a)%nat → (hi - lo < fuel)%nat →
  (∀ j x, a !! j = Some x → (Qlt_bool x key = true ↔ (j < i)%nat)) →
  np.bisect_left fuel a key lo hi = i.
Proof.
  intros Hi Hhi Hfuel Hpart. revert lo hi Hi Hhi Hfuel.
  induction fuel as [|fuel IH]; intros lo hi Hi Hhi Hfuel; [lia|].
  cbn [np.bisect_left]. destruct (lo <? hi)%nat eqn:E.
  2: { apply Nat.ltb_ge in E. lia. }
  apply Nat.ltb_lt in E.
  assert ((hi - lo) / 2 < hi - lo)%nat as Hhalf by (apply Nat.div_lt; lia).
  cbv zeta. set (mid := (lo + (hi - lo) / 2)%nat) in *.
  destruct (a !! mid) as [x|] eqn:Hx.
  2: { apply lookup_ge_None in Hx. lia. }
  change (default 0%Q (Some x)) with x. destruct (Qlt_bool x key) eqn:Hlt.
  - apply (Hpart mid x Hx) in Hlt. apply IH; lia.
  - assert (¬ (mid < i)%nat) as Hge.
    { intros Hlt'. apply (Hpart mid x Hx) in Hlt'. congruence. }
    apply IH; lia.
Qed.

Lemma bisect_right_spec fuel a key lo hi i :
  (lo ≤ i ≤ hi)%nat → (hi ≤ length a)%nat → (hi - lo < fuel)%nat →
  (∀ j x, a !! j = Some x → (Qle_bool x key = true ↔ (j < i)%nat)) →
  np.bisect_right fuel a key lo hi = i.
Proof.
  intros Hi Hhi Hfuel Hpart. revert lo hi Hi Hhi Hfuel.
  induction fuel as [|fuel IH]; intros lo hi Hi Hhi Hfuel; [lia|].
  cbn [np.bisect_right]. destruct (lo <? hi)%nat eqn:E.
  2: { apply Nat.ltb_ge in E. lia. }
  apply Nat.ltb_lt in E.
  assert ((hi - lo) / 2 < hi - lo)%nat as Hhalf by (apply Nat.div_lt; lia).
  cbv zeta. set (mid := (lo + (hi - lo) / 2)%nat) in *.
  destruct (a !! mid) as [x|] eqn:Hx.
  2: { apply lookup_ge_None in Hx. lia. }
  change (default 0%Q (Some x)) with x. destruct (Qle_bool x key) eqn:Hlt.
  - apply (Hpart mid x Hx) in Hlt. apply IH; lia.
  - assert (¬ (mid < i)%nat) as Hge.
    { intros Hlt'. apply (Hpart mid x Hx) in Hlt'. congruence. }
    apply IH; lia.
Qed.

Lemma non_decreasing_shift (recs : Samples) :
  non_decreasing (map fst recs) →
  non_decreasing (map (fun r => (r.1 + timeDiff_sec)%Q) recs).
Proof.
  induction recs as [|r [|r' recs] IH]; [done..|].
  intros [Hle Hrest]. split; [|by apply IH].
  apply Qplus_le_compat; [done|apply Qle_refl].
Qed.

(** X28.  Which values the two boundary samples of a fetch carry, for
    records in time order: the sample added at the window start repeats the
    last record before the window (the first record when none is before),
    and the sample added at the window end takes the first record after the
    window (the last record when none is after). *)
Theorem get_history_boundary_values service st pv start_ts recs :
  startTime st = Some start_ts →
  service (webServer st) pv start_ts (endTime st) = Records recs →
  recs ≠ [] →
  non_decreasing (map fst recs) →
  ∃ i k v_start v_end rows,
    (∀ j r, recs !! j = Some r →
            ((r.1 + timeDiff_sec < start_ts)%Q ↔ (j < i)%nat)) ∧
    (∀ j r, recs !! j = Some r →
            ((r.1 + timeDiff_sec <= endTime st)%Q ↔ (j < k)%nat)) ∧
    map snd recs !! (i - 1)%nat = Some v_start ∧
    map snd recs !! (k `min` (length recs - 1))%nat = Some v_end ∧
    get_history service st pv = Ok (Some rows, None) ∧
    rows ≡ₚ List.filter (in_window start_ts (endTime st))
              ((endTime st, v_end) :: (start_ts, v_start)
               :: map shift_sample recs).
Proof.
  intros Hstart Hsvc Hne Hsorted. unfold Samples in *.
  set (secs := map (fun r => (r.1 + timeDiff_sec)%Q) recs).
  set (vals := map snd recs).
  assert (length secs = length recs) as Hlsecs
    by (unfold secs; by rewrite length_map).
  assert (length vals = length recs) as Hlvals
    by (unfold vals; by rewrite length_map).
  assert (0 < length recs)%nat as Hpos by (destruct recs; [done|simpl; lia]).
  apply non_decreasing_shift in Hsorted. fold secs in Hsorted.
  destruct (sorted_partition (fun x => Qlt_bool x start_ts) secs Hsorted)
    as (i & Hi & Hparti).
  { intros x y Hxy Hy. apply Qlt_bool_iff. apply Qlt_bool_iff in Hy.
    by apply Qle_lt_trans with y. }
  destruct (sorted_partition (fun x => Qle_bool x (endTime st)) secs Hsorted)
    as (k & Hk & Hpartk).
  { intros x y Hxy Hy. apply Qle_bool_iff. apply Qle_bool_iff in Hy.
    by apply Qle_trans with y. }
  assert (np.searchsorted_left secs start_ts = i) as Hleft.
  { unfold np.searchsorted_left. apply bisect_left_spec; [lia..|done]. }
  assert (np.searchsorted_right secs (endTime st) = k) as Hright.
  { unfold np.searchsorted_right. apply bisect_right_spec; [lia..|done]. }
  destruct (lookup_lt_is_Some_2 vals (i - 1)%nat) as [v_start Hvs]; [lia|].
  destruct (lookup_lt_is_Some_2 vals (k `min` (length recs - 1))%nat)
    as [v_end Hve]; [lia|].
  exists i, k, v_start, v_end.
  eexists. split; [|split; [|split; [done|split; [done|]]]].
  - intros j r Hr. rewrite <- (Hparti j (r.1 + timeDiff_sec)%Q).
    + symmetry. apply Qlt_bool_iff.
    + unfold secs. by rewrite list_lookup_fmap, Hr.
  - intros j r Hr. rewrite <- (Hpartk j (r.1 + timeDiff_sec)%Q).
    + symmetry. apply Qle_bool_iff.
    + unfold secs. by rewrite list_lookup_fmap, Hr.
  - unfold get_history. rewrite Hstart, Hsvc. unfold extend_window.
    fold secs vals. rewrite Hleft, Hright.
    assert ((if (i =? 0)%nat then py_index vals 0
             else py_index vals (i - 1)) = Ok v_start) as ->.
    { unfold py_index. destruct (i =? 0)%nat eqn:E.
      - apply Nat.eqb_eq in E. rewrite E in Hvs. simpl in Hvs.
        by rewrite Hvs.
      - by rewrite Hvs. }
    assert ((if (k =? length secs)%nat then py_last vals
             else py_index vals k) = Ok v_end) as ->.
    { unfold py_index, py_last. destruct (k =? length secs)%nat eqn:E.
      - apply Nat.eqb_eq in E. rewrite last_lookup, Hlvals.
        replace (pred (length recs)) with (k `min` (length recs - 1))%nat
          by lia. by rewrite Hve.
      - apply Nat.eqb_neq in E.
        replace k with (k `min` (length recs - 1))%nat at 1 by lia.
        by rewrite Hve. }
    cbn [mbind Res_bind mret Res_ret]. split; [reflexivity|].
    apply (filter_Permutation (in_window start_ts (endTime st))).
    rewrite sort_by_secs_Permutation.
    rewrite zip_insert by (rewrite !length_np_insert; lia).
    rewrite insert_Permutation. apply Permutation_skip.
    rewrite zip_insert by lia.
    rewrite insert_Permutation. unfold secs, vals. by rewrite zip_shift.
Qed.

Lemma get_history_boundary_values_witness :
  ∃ i k v_start v_end rows,
    (∀ j r,
       [(90 - 7 * 3600, 1); (105 - 7 * 3600, 2); (120 - 7 * 3600, 3)]%Q !! j
       = Some r →
       ((r.1 + timeDiff_sec < 100)%Q ↔ (j < i)%nat)) ∧
    (∀ j r,
       [(90 - 7 * 3600, 1); (105 - 7 * 3600, 2); (120 - 7 * 3600, 3)]%Q !! j
       = Some r →
       ((r.1 + timeDiff_sec <= endTime ex_state)%Q ↔ (j < k)%nat)) ∧
    map snd [(90 - 7 * 3600, 1); (105 - 7 * 3600, 2); (120 - 7 * 3600, 3)]%Q
      !! (i - 1)%nat = Some v_start ∧
    map snd [(90 - 7 * 3600, 1); (105 - 7 * 3600, 2); (120 - 7 * 3600, 3)]%Q
      !! (k `min`
          (length
             [(90 - 7 * 3600, 1); (105 - 7 * 3600, 2); (120 - 7 * 3600, 3)]%Q
           - 1))%nat = Some v_end ∧
    get_history ex_service_wide ex_state "A" = Ok (Some rows, None) ∧
    rows ≡ₚ List.filter (in_window 100 (endTime ex_state))
              ((endTime ex_state, v_end) :: (100%Q, v_start)
               :: map shift_sample
                    [(90 - 7 * 3600, 1); (105 - 7 * 3600, 2);
                     (120 - 7 * 3600, 3)]%Q).
Proof.
  apply (get_history_boundary_values ex_service_wide ex_state "A" 100).
  - reflexivity.
  - reflexivity.
  - discriminate.
  - simpl. unfold Qle. simpl. repeat split; lia.
Defined.

(** ** Values [set_property] does not store, and the order of its keys *)

(** X29.  [set_property] accepts every attribute name but stores only some
    values: a value that is not a string for [pvNames] (a list of names
    included), and any value for [rawData] or [synData], is dropped
    silently; the call returns normally and the object is unchanged. *)
Theorem set_property_silently_ignored strptime name value st :
  (name = "pvNames" ∧ ∀ s, value ≠ VStr s) ∨
  name = "rawData" ∨ name = "synData" →
  set_property strptime name value st = (st, Ok ()).
Proof.
  intros [[-> Hval] | [-> | ->]]; unfold set_property; eval_decides.
  - destruct value as [|s|q|l|d]; try reflexivity. by destruct (Hval s).
  - destruct value; reflexivity.
  - destruct value; reflexivity.
Qed.

Lemma set_property_silently_ignored_witness :
  set_property ex_strptime "pvNames" (VList ["X"; "Y"]) ex_state
  = (ex_state, Ok ()).
Proof.
  apply (set_property_silently_ignored ex_strptime "pvNames"
           (VList ["X"; "Y"]) ex_state).
  left. split; [reflexivity|]. intros s. discriminate.
Defined.

(** X30.  The order of the keys in the dictionary given to [set_property]
    matters for the window, because the duration is always applied
    backwards from the stored end.  Setting the duration and then the start
    time leaves the window starting at the given time; setting the start
    time and then the duration leaves the end where the old duration put it
    and moves the start away from the given time. *)
Theorem set_property_window_order strptime st s t d0 q :
  strptime s = Some t → duration_hour st = Some d0 →
  (∃ st',
     set_properties strptime
       [("duration_hour", VNum q); ("startTime", VStr s)] st = (st', Ok ()) ∧
     startTime st' = Some t ∧ endTime st' = (t + q * 3600)%Q ∧
     duration_hour st' = Some q) ∧
  (∃ st',
     set_properties strptime
       [("startTime", VStr s); ("duration_hour", VNum q)] st = (st', Ok ()) ∧
     startTime st' = Some (t + d0 * 3600 - q * 3600)%Q ∧
     endTime st' = (t + d0 * 3600)%Q ∧
     duration_hour st' = Some q).
Proof.
  intros Hs Hd. destruct st as [pvs setup url e d s0 raw syn].
  cbn in Hd. subst d.
  split; eexists;
    (split;
     [cbn [set_properties]; unfold set_property; eval_decides;
      unfold mbind, M_bind, mret, M_ret, lift, modify, stored_duration, get;
      cbn [fst snd parse_time]; rewrite Hs; cbn; reflexivity
     |cbn; done]).
Qed.

Lemma set_property_window_order_witness :
  (∃ st',
     set_properties ex_strptime
       [("duration_hour", VNum 6); ("startTime", VStr "06/05/2023 08:08:08")]
       ex_state = (st', Ok ()) ∧
     startTime st' = Some 1685977688%Q ∧
     endTime st' = (1685977688 + 6 * 3600)%Q ∧
     duration_hour st' = Some 6%Q) ∧
  (∃ st',
     set_properties ex_strptime
       [("startTime", VStr "06/05/2023 08:08:08"); ("duration_hour", VNum 6)]
       ex_state = (st', Ok ()) ∧
     startTime st' = Some (1685977688 + (10 # 3600) * 3600 - 6 * 3600)%Q ∧
     endTime st' = (1685977688 + (10 # 3600) * 3600)%Q ∧
     duration_hour st' = Some 6%Q).
Proof.
  apply (set_property_window_order ex_strptime ex_state
           "06/05/2023 08:08:08" 1685977688 (10 # 3600) 6).
  - reflexivity.
  - reflexivity.
Defined.
